(** * juju-wait: the readiness poll loop of [helper/utils/juju_wait.py]

    A shallow embedding of [wait] and of the helpers it calls, followed by
    the properties of the poll loop: the debounce controller, the unit
    bookkeeping, the legacy log sniffer and the leadership check.

    Conventions.
    - A Python [dict] is an association list in insertion order
      ([dict_set] replaces in place, as Python does); a Python [set] is a
      duplicate-free list ([ListSet]).
    - A [datetime] is a number of microseconds ([Z]); a [timedelta] too.
    - The external collaborators ([juju status], [juju run],
      [juju set-environment], the wall clock) are a [World]: each answers
      from the history of the run so far, so that any deterministic
      environment is covered.  Every call is recorded, with its answer, in
      a trace of events, newest first.
    - A Python exception is a [Raise]; [JujuWaitException] carries its exit
      code, the other exceptions are the uncaught ones of the standard
      library ([ValueError] from [strptime], [TypeError] from comparing a
      number with a string inside [LooseVersion]). *)

From Stdlib Require Import List String Ascii ZArith NArith Bool Lia.
From Stdlib Require Import ListSet Permutation Sorted.
From Stdlib Require Import DecimalString.
Import ListNotations.

Local Open Scope string_scope.
Local Open Scope list_scope.

(** ** Exceptions and results *)

Inductive exn : Type :=
| JujuWaitException (code : Z)
| ValueError
| TypeError.

Inductive result (A : Type) : Type :=
| Ret (a : A)
| Raise (e : exn).

Arguments Ret {A} a.
Arguments Raise {A} e.

(** ** The status document ([json.loads] of [juju status --format=json])

    Only the keys that [wait] reads are kept.  A key read with [.get] is an
    [option]; a mapping read with [.get(key, {})] is a possibly empty
    dict. *)

Definition dict (V : Type) : Type := list (string * V).

Record AgentStatus : Type := {
  current : string;
  since : string
}.

(** The keys read on a unit and on a subordinate alike. *)
Record Unit : Type := {
  u_agent_version : option string;
  u_agent_status : option AgentStatus;
  u_life : option string;
  u_agent_state : option string;
  u_agent_state_info : option string
}.

Record TopUnit : Type := {
  t_unit : Unit;
  t_subordinates : dict Unit
}.

Record Service : Type := {
  s_life : option string;
  s_units : dict TopUnit
}.

Record Status : Type := {
  services : dict Service
}.

(** The decoded answer of [is-leader --format=json]. *)
Inductive json : Type :=
| JNull
| JBool (b : bool)
| JNumber (n : Z)
| JString (s : string).

(** ** Python dicts, sets and [sorted] *)

Fixpoint dict_get {V : Type} (d : dict V) (k : string) : option V :=
  match d with
  | [] => None
  | (k', v) :: d' => if String.eqb k k' then Some v else dict_get d' k
  end.

(** [d[k] = v]: an existing key keeps its place, a new key goes last. *)
Fixpoint dict_set {V : Type} (d : dict V) (k : string) (v : V) : dict V :=
  match d with
  | [] => [(k, v)]
  | (k', v') :: d' =>
      if String.eqb k k' then (k, v) :: d' else (k', v') :: dict_set d' k v
  end.

Definition keys {V : Type} (d : dict V) : list string := map fst d.

Definition set_add_str (x : string) (s : set string) : set string :=
  set_add string_dec x s.

Definition set_mem_str (x : string) (s : set string) : bool :=
  set_mem string_dec x s.

Fixpoint insert_by {A : Type} (key : A -> string) (x : A) (l : list A)
  : list A :=
  match l with
  | [] => [x]
  | y :: l' =>
      if String.leb (key x) (key y) then x :: l else y :: insert_by key x l'
  end.

(** [sorted(...)] on strings, and on the items of a dict: its keys are
    distinct, so the tuples are ordered by key alone. *)
Definition sorted_by {A : Type} (key : A -> string) (l : list A) : list A :=
  fold_right (insert_by key) [] l.

Definition sorted_items {V : Type} (d : dict V) : list (string * V) :=
  sorted_by fst d.

Definition sorted_strings (l : list string) : list string :=
  sorted_by (fun s => s) l.

Definition opt_eqb (a b : option string) : bool :=
  match a, b with
  | Some x, Some y => String.eqb x y
  | None, None => true
  | _, _ => false
  end.

Arguments opt_eqb : simpl never.

(** [x in ('dying', 'dead')] for [x = d.get('life')]. *)
Definition is_dying (life : option string) : bool :=
  match life with
  | Some l => String.eqb l "dying" || String.eqb l "dead"
  | None => false
  end.

(** [uname.split('/', 1)[0]] *)
Fixpoint service_of (uname : string) : string :=
  match uname with
  | EmptyString => EmptyString
  | String c rest =>
      if Ascii.eqb c "/" then EmptyString else String c (service_of rest)
  end.

(** ** [distutils.version.LooseVersion]

    The version string is cut by [(\d+ | [a-z]+ | \.)]: runs of digits
    become numbers, runs of lower-case letters and the text between the
    matches stay strings, dots and empty pieces are dropped.  Two versions
    compare as Python lists do; comparing a number with a string raises
    [TypeError]. *)

Module LooseVersion.

Inductive component : Type :=
| CInt (n : N)
| CStr (s : string).

Definition is_digit (c : ascii) : bool :=
  (48 <=? nat_of_ascii c)%nat && (nat_of_ascii c <=? 57)%nat.

Definition is_lower (c : ascii) : bool :=
  (97 <=? nat_of_ascii c)%nat && (nat_of_ascii c <=? 122)%nat.

Definition is_dot (c : ascii) : bool := Ascii.eqb c ".".

Definition is_other (c : ascii) : bool :=
  negb (is_digit c || is_lower c || is_dot c).

(** The longest prefix made of [p] characters, and the rest. *)
Fixpoint span (p : ascii -> bool) (s : string) : string * string :=
  match s with
  | EmptyString => (EmptyString, EmptyString)
  | String c rest =>
      if p c then let (a, b) := span p rest in (String c a, b)
      else (EmptyString, s)
  end.

(** [int(digits)] *)
Fixpoint int_of (acc : N) (digits : string) : N :=
  match digits with
  | EmptyString => acc
  | String c rest => int_of (acc * 10 + (N_of_ascii c - 48)) rest
  end.

Fixpoint components (fuel : nat) (s : string) : list component :=
  match fuel with
  | O => []
  | S fuel' =>
      match s with
      | EmptyString => []
      | String c rest =>
          if is_digit c then
            let (d, r) := span is_digit s in
            CInt (int_of 0 d) :: components fuel' r
          else if is_lower c then
            let (w, r) := span is_lower s in
            CStr w :: components fuel' r
          else if is_dot c then components fuel' rest
          else
            let (o, r) := span is_other s in
            CStr o :: components fuel' r
      end
  end.

Definition parse (vstring : string) : list component :=
  components (String.length vstring) vstring.

Definition component_eqb (a b : component) : bool :=
  match a, b with
  | CInt x, CInt y => N.eqb x y
  | CStr x, CStr y => String.eqb x y
  | _, _ => false
  end.

(** Python's ordering of two lists: the first pair of unequal items
    decides, a proper prefix is smaller. *)
Fixpoint cmp (v w : list component) : result comparison :=
  match v, w with
  | [], [] => Ret Eq
  | [], _ :: _ => Ret Lt
  | _ :: _, [] => Ret Gt
  | a :: v', b :: w' =>
      if component_eqb a b then cmp v' w'
      else
        match a, b with
        | CInt x, CInt y => Ret (N.compare x y)
        | CStr x, CStr y => Ret (String.compare x y)
        | _, _ => Raise TypeError
        end
  end.

(** [LooseVersion(v) >= LooseVersion(w)] *)
Definition ge (v w : string) : result bool :=
  match cmp (parse v) (parse w) with
  | Ret Lt => Ret false
  | Ret _ => Ret true
  | Raise e => Raise e
  end.

End LooseVersion.

(** ** The outside world

    One event per external call, with the answer it got.  [run_or_die]
    raises [JujuWaitException] with the exit code of the failed command;
    [json.loads] raises [ValueError]: both are a [Raise] answer. *)

Inductive event : Type :=
| EvStatus (r : result Status)
| EvSetEnvironment (r : result unit)
| EvLogTail (unit : string) (r : result string)
| EvIsLeader (unit : string) (r : result json)
| EvUtcNow (t : Z)
| EvSleep (seconds : Z).

(** Newest event first. *)
Definition trace : Type := list event.

Record World : Type := {
  juju_status : trace -> result Status;
  juju_set_environment : trace -> result unit;
  juju_log_tail : trace -> string -> result string;
  juju_is_leader : trace -> string -> result json;
  clock : trace -> Z
}.

(** A computation reads the history of the run and yields a result and
    the events it added to it (newest first). *)
Definition M (A : Type) : Type := trace -> result A * trace.

Definition ret {A : Type} (a : A) : M A := fun _ => (Ret a, []).

Definition raise {A : Type} (e : exn) : M A := fun _ => (Raise e, []).

Definition lift {A : Type} (r : result A) : M A := fun _ => (r, []).

Definition bind {A B : Type} (m : M A) (k : A -> M B) : M B :=
  fun h =>
    match m h with
    | (Ret a, ev) => let (r, ev') := k a (ev ++ h) in (r, ev' ++ ev)
    | (Raise e, ev) => (Raise e, ev)
    end.

Notation "x <- m ;; k" := (bind m (fun x => k))
  (at level 61, m at next level, right associativity).

(** [for x in xs: s = body(x, s)] *)
Fixpoint for_each {A S : Type} (body : A -> S -> M S) (xs : list A) (s : S)
  : M S :=
  match xs with
  | [] => ret s
  | x :: xs' => s' <- body x s ;; for_each body xs' s'
  end.

Definition IDLE_CONFIRMATION : Z := 15 * 1000000.

(** What the first loops of a cycle gather from the status document. *)
Record Collected : Type := {
  all_units : set string;
  ready_units : dict Unit;
  agent_status : dict AgentStatus;
  agent_version : dict (option string)
}.

(** The variables of one cycle that the sniffing loop updates. *)
Record Locals : Type := {
  l_ready : bool;
  l_logs : dict string;
  l_logging_reset : bool
}.

(** What a cycle hands to the debounce step. *)
Record Verdict : Type := {
  v_ready : bool;
  v_all_units : set string;
  v_logs : dict string;
  v_logging_reset : bool
}.

(** The variables [wait] carries from one cycle to the next. *)
Record LoopState : Type := {
  prev_logs : dict string;
  ready_since : option Z;
  logging_reset : bool
}.

Inductive Debounced : Type :=
| Confirmed (since : Z)
| Pending (ready_since : option Z).

Inductive Next : Type :=
| Done (since : Z) (units : list string)
| Continue (st : LoopState).

Inductive Outcome : Type :=
| Returned (since : Z) (units : list string)
| Raised (e : exn)
| Polling (st : LoopState).

Section Wait.

Variable W : World.

(** [datetime.strptime(ts, '%d %b %Y %H:%M:%SZ')], of the standard
    library: [None] where it raises [ValueError]. *)
Variable strptime : string -> option Z.

Definition parse_ts (ts : string) : result Z :=
  match strptime ts with
  | Some t => Ret t
  | None => Raise ValueError
  end.

Definition get_status : M Status :=
  fun h => let r := juju_status W h in (r, [EvStatus r]).

Definition reset_logging : M unit :=
  fun h => let r := juju_set_environment W h in (r, [EvSetEnvironment r]).

Definition get_log_tail (unit : string) : M string :=
  fun h => let r := juju_log_tail W h unit in (r, [EvLogTail unit r]).

Definition get_is_leader (unit : string) : M json :=
  fun h => let r := juju_is_leader W h unit in (r, [EvIsLeader unit r]).

Definition utcnow : M Z :=
  fun h => let t := clock W h in (Ret t, [EvUtcNow t]).

Definition sleep (seconds : Z) : M unit :=
  fun _ => (Ret tt, [EvSleep seconds]).

(** Lines 173-176: a dying service. *)
Definition services_alive (status : Status) : bool :=
  fold_left
    (fun ready '(sname, service) =>
       if is_dying (s_life service) then false else ready)
    (sorted_items (services status)) true.

(** Lines 193-197 for a unit, 199-203 for a subordinate. *)
Definition collect_agent (uname : string) (unit : Unit) (c : Collected)
  : Collected :=
  let agent_version' :=
    dict_set (agent_version c) uname (u_agent_version unit) in
  match u_agent_status unit with
  | Some astatus =>
      {| all_units := all_units c;
         ready_units := ready_units c;
         agent_status := dict_set (agent_status c) uname astatus;
         agent_version := agent_version' |}
  | None =>
      {| all_units := all_units c;
         ready_units := dict_set (ready_units c) uname unit;
         agent_status := agent_status c;
         agent_version := agent_version' |}
  end.

(** Lines 191-203: the body of the loop over the units of a service. *)
Definition collect_unit (c : Collected) (item : string * TopUnit)
  : Collected :=
  let (uname, unit) := item in
  let c1 :=
    {| all_units := set_add_str uname (all_units c);
       ready_units := ready_units c;
       agent_status := agent_status c;
       agent_version := agent_version c |} in
  fold_left
    (fun c' '(subname, sub) => collect_agent subname sub c')
    (t_subordinates unit)
    (collect_agent uname (t_unit unit) c1).

(** Lines 178-203. *)
Definition collect (status : Status) : Collected :=
  fold_left
    (fun c '(sname, service) => fold_left collect_unit (s_units service) c)
    (services status)
    {| all_units := []; ready_units := [];
       agent_status := []; agent_version := [] |}.

(** Lines 205-210: the body of the loop over [agent_status]. *)
Definition check_agent (item : string * AgentStatus) (ready : bool)
  : M bool :=
  let (uname, astatus) := item in
  _ <- lift (parse_ts (since astatus)) ;;
  if negb (String.eqb (current astatus) "idle") then ret false
  else ret ready.

(** Lines 216-241: the body of the loop over [ready_units]. *)
Definition sniff (prev_logs : dict string) (item : string * Unit)
  (l : Locals) : M Locals :=
  let (uname, unit) := item in
  let dying := is_dying (u_life unit) in
  let agent_state := u_agent_state unit in
  if dying then
    ret {| l_ready := false; l_logs := l_logs l;
           l_logging_reset := l_logging_reset l |}
  else if opt_eqb agent_state (Some "error") then
    raise (JujuWaitException 1)
  else if negb (opt_eqb agent_state (Some "started")) then
    ret {| l_ready := false; l_logs := l_logs l;
           l_logging_reset := l_logging_reset l |}
  else if l_ready l then
    _ <- (if negb (l_logging_reset l) then reset_logging else ret tt) ;;
    line <- get_log_tail uname ;;
    let logs := dict_set (l_logs l) uname line in
    if opt_eqb (Some line) (dict_get prev_logs uname) then
      ret {| l_ready := true; l_logs := logs; l_logging_reset := true |}
    else
      ret {| l_ready := false; l_logs := logs; l_logging_reset := true |}
  else ret l.

(** Lines 248-255: the body of the loop over [agent_version]; the state
    is [(services, services_with_leader)]. *)
Definition leader_step (item : string * option string)
  (acc : set string * set string) : M (set string * set string) :=
  let (uname, version) := item in
  let (services, services_with_leader) := acc in
  let sname := service_of uname in
  let services := set_add_str sname services in
  if set_mem_str sname services_with_leader then
    ret (services, services_with_leader)
  else
    match version with
    | None => ret (services, services_with_leader)
    | Some v =>
        if String.eqb v "" then ret (services, services_with_leader)
        else
          newer <- lift (LooseVersion.ge v "1.23") ;;
          if (newer : bool) then
            ret (services, set_add_str sname services_with_leader)
          else
            answer <- get_is_leader uname ;;
            match answer with
            | JBool true =>
                ret (services, set_add_str sname services_with_leader)
            | _ => ret (services, services_with_leader)
            end
    end.

(** Lines 246-259, entered with [ready] true. *)
Definition check_leaders (agent_version : dict (option string)) : M bool :=
  acc <- for_each leader_step agent_version ([], []) ;;
  ret (forallb (fun sname => set_mem_str sname (snd acc)) (fst acc)).

(** Lines 170-259: the readiness verdict of one status document. *)
Definition evaluate (status : Status) (prev_logs : dict string)
  (logging_reset : bool) : M Verdict :=
  let c := collect status in
  ready <- for_each check_agent (sorted_items (agent_status c))
             (services_alive status) ;;
  l <- for_each (sniff prev_logs) (sorted_items (ready_units c))
         {| l_ready := ready; l_logs := [];
            l_logging_reset := logging_reset |} ;;
  ready' <- (if l_ready l then check_leaders (agent_version c)
             else ret false) ;;
  ret {| v_ready := ready'; v_all_units := all_units c;
         v_logs := l_logs l; v_logging_reset := l_logging_reset l |}.

(** Lines 261-275. *)
Definition debounce (ready : bool) (ready_since : option Z) : M Debounced :=
  if ready then
    match ready_since with
    | None => now <- utcnow ;; ret (Pending (Some now))
    | Some t =>
        now <- utcnow ;;
        if (t + IDLE_CONFIRMATION <? now)%Z then ret (Confirmed t)
        else ret (Pending (Some t))
    end
  else ret (Pending None).

(** Lines 169-259: fetch the status and evaluate it. *)
Definition observe (st : LoopState) : M Verdict :=
  status <- get_status ;;
  evaluate status (prev_logs st) (logging_reset st).

(** Lines 169-278: one turn of [while True]. *)
Definition cycle (st : LoopState) : M Next :=
  v <- observe st ;;
  d <- debounce (v_ready v) (ready_since st) ;;
  match d with
  | Confirmed t => ret (Done t (sorted_strings (v_all_units v)))
  | Pending since' =>
      _ <- sleep 4 ;;
      ret (Continue {| prev_logs := v_logs v; ready_since := since';
                       logging_reset := v_logging_reset v |})
  end.

(** [while True], for at most [fuel] turns; the events are those of the
    turns taken. *)
Fixpoint wait_loop (fuel : nat) (st : LoopState) (h : trace)
  : Outcome * trace :=
  match fuel with
  | O => (Polling st, [])
  | S fuel' =>
      match cycle st h with
      | (Ret (Done t units), ev) => (Returned t units, ev)
      | (Ret (Continue st'), ev) =>
          let (o, ev') := wait_loop fuel' st' (ev ++ h) in (o, ev' ++ ev)
      | (Raise e, ev) => (Raised e, ev)
      end
  end.

(** Lines 162-166. *)
Definition initial : LoopState :=
  {| prev_logs := []; ready_since := None; logging_reset := false |}.

Definition wait (fuel : nat) : Outcome * trace :=
  wait_loop fuel initial [].

End Wait.

(** Lines 140-144 of [wait_cmd]: the exit code, when [wait] ends. *)
Definition exit_code (o : Outcome) : option Z :=
  match o with
  | Returned _ _ => Some 0%Z
  | Raised (JujuWaitException code) => Some code
  | _ => None
  end.

(** ** Commands: [run_or_die] and the command lines of the helpers

    What [subprocess.Popen] and [communicate] did with a command: they
    raised [OSError] (with an [errno], possibly absent), they raised
    something else, or the command ran and exited. *)

Inductive spawned : Type :=
| PopenOSError (errno : option Z)
| PopenError
| Exited (returncode : Z) (out err : string).

(** Python's [x or d] on an integer that may be absent. *)
Definition or_default (x : option Z) (d : Z) : Z :=
  match x with
  | Some n => if (n =? 0)%Z then d else n
  | None => d
  end.

(** Lines 52-70, on the outcome of the command. *)
Definition run_or_die (p : spawned) : result string :=
  match p with
  | PopenOSError errno => Raise (JujuWaitException (or_default errno 41))
  | PopenError => Raise (JujuWaitException 42)
  | Exited returncode out err =>
      if negb (returncode =? 0)%Z then
        Raise (JujuWaitException (or_default (Some returncode) 43))
      else Ret out
  end.

(** ['{}'.format(n)] for an integer. *)
Definition format_int (n : Z) : string :=
  NilZero.string_of_int (Z.to_int n).

(** Lines 73-77: the command line of [juju_run]. *)
Definition juju_run_argv (unit cmd : string) (timeout : option Z)
  : list string :=
  let timeout :=
    match timeout with
    | None => (6 * 60 * 60)%Z
    | Some t => t
    end in
  ["juju"; "run";
   String.append "--timeout=" (String.append (format_int timeout) "s");
   "--unit"; unit; cmd].

(** [s.replace(old, new)] for one-character [old] and [new]. *)
Fixpoint replace_char (old new : ascii) (s : string) : string :=
  match s with
  | EmptyString => EmptyString
  | String c rest =>
      String (if Ascii.eqb c old then new else c) (replace_char old new rest)
  end.

(** Line 93: the name of the log file of a unit. *)
Definition log_file (unit : string) : string :=
  String.append "unit-" (String.append (replace_char "/" "-" unit) ".log").

(** Lines 92-95. *)
Definition get_log_tail_argv (unit : string) (timeout : option Z)
  : list string :=
  juju_run_argv unit
    (String.append "sudo tail -1 /var/log/juju/" (log_file unit)) timeout.

(** Lines 98-99. *)
Definition get_is_leader_argv (unit : string) (timeout : option Z)
  : list string :=
  juju_run_argv unit "is-leader --format=json" timeout.

(** Lines 83-86: the environment and the command line of [get_status]. *)
Definition get_status_env (environ : dict string) : dict string :=
  dict_set (dict_set environ "TZ" "UTC") "JUJU_CLI_VERSION" "1".

Definition get_status_argv : list string :=
  ["juju"; "status"; "--format=json"].

(** Lines 152-153. *)
Definition reset_logging_argv : list string :=
  ["juju"; "set-environment"; "logging-config=juju=WARNING;unit=INFO"].

(** The machine [wait] runs on: what each command does, given the history
    of the run, its command line and the environment it runs in; the
    wall clock. *)
Record Shell : Type := {
  popen : trace -> list string -> dict string -> spawned;
  wall_clock : trace -> Z
}.

(** [subprocess.Popen(cmd, env=env)] in a process whose [os.environ] is
    [environ]: with [env=None] the command inherits [os.environ]. *)
Definition Popen (S : Shell) (environ : dict string) (h : trace)
  (cmd : list string) (env : option (dict string)) : spawned :=
  popen S h cmd
    match env with
    | Some env => env
    | None => environ
    end.

(** The world the helpers of lines 80-100 and 147-153 make of a shell, in
    a process whose [os.environ] is [environ].  [json.loads], of the
    standard library, is [loads_status] on the status document and
    [loads] on the answer of [is-leader]: [None] where it raises
    [ValueError]. *)
Definition world_of_shell (S : Shell) (environ : dict string)
  (loads_status : string -> option Status) (loads : string -> option json)
  : World :=
  {| juju_status := fun h =>
       match run_or_die (Popen S environ h get_status_argv
                               (Some (get_status_env environ))) with
       | Ret json_status =>
           match loads_status json_status with
           | Some status => Ret status
           | None => Raise ValueError
           end
       | Raise e => Raise e
       end;
     juju_set_environment := fun h =>
       match run_or_die (Popen S environ h reset_logging_argv None) with
       | Ret _ => Ret tt
       | Raise e => Raise e
       end;
     juju_log_tail := fun h unit =>
       run_or_die (Popen S environ h (get_log_tail_argv unit None) None);
     juju_is_leader := fun h unit =>
       match run_or_die
               (Popen S environ h (get_is_leader_argv unit None) None) with
       | Ret raw =>
           match loads raw with
           | Some answer => Ret answer
           | None => Raise ValueError
           end
       | Raise e => Raise e
       end;
     clock := wall_clock S |}.

(** ** [wait_cmd] and its arguments

    What [parser.parse_args(args)], of [argparse], did with the parser of
    lines 121-128, step by step.  For [-e ENV] it calls
    [EnvironmentAction] with [values], which [nargs=1] makes the list of
    the one string [ENV]; for [--description] it calls
    [DescriptionAction]; for [-h], and for arguments it does not accept,
    it calls [parser.exit] itself, with status 0 and 2.  When the
    arguments are used up it returns the namespace, with [quiet] and
    [verbose]. *)
Inductive parser_step : Type :=
| CallEnvironment (value : string)
| CallDescription
| ParserExit (status : Z).

Record Parsed : Type := {
  steps : list parser_step;
  quiet : bool;
  verbose : bool
}.

(** Lines 32-39: the two actions change [os.environ] or leave through
    [parser.exit], which raises [SystemExit]; the steps after an exit are
    not run. *)
Fixpoint run_parser (steps : list parser_step) (environ : dict string)
  : dict string + Z :=
  match steps with
  | [] => inl environ
  | CallEnvironment value :: rest =>
      run_parser rest (dict_set environ "JUJU_ENV" value)
  | CallDescription :: _ => inr 0%Z
  | ParserExit status :: _ => inr status
  end.

(** How [wait_cmd] ends: [SystemExit] raised by the parser, a returned
    exit code, an exception that is not a [JujuWaitException] and leaves
    [wait_cmd] as it is, or [wait] still polling when the fuel is
    spent. *)
Inductive ended : Type :=
| SystemExit (status : Z)
| Returns (code : Z)
| Propagates (e : exn)
| StillPolling.

(** Lines 111-144.  The log level of lines 132-139 plays no part here:
    what [wait] logs is not modelled. *)
Definition wait_cmd (parsed : Parsed) (S : Shell) (environ : dict string)
  (loads_status : string -> option Status) (loads : string -> option json)
  (strptime : string -> option Z) (fuel : nat) : ended :=
  match run_parser (steps parsed) environ with
  | inr status => SystemExit status
  | inl environ =>
      match fst (wait (world_of_shell S environ loads_status loads)
                      strptime fuel) with
      | Returned _ _ => Returns 0
      | Raised (JujuWaitException code) => Returns code
      | Raised e => Propagates e
      | Polling _ => StillPolling
      end
  end.

(** * Vocabulary of the properties *)

(** The order [sorted] puts the items in. *)
Definition key_le {A : Type} (key : A -> string) (x y : A) : Prop :=
  String.leb (key x) (key y) = true.

(** Every unit and subordinate of the document, in the order the loops of
    lines 190-203 visit them. *)
Definition units_of_top (item : string * TopUnit) : list (string * Unit) :=
  (fst item, t_unit (snd item)) :: t_subordinates (snd item).

Definition units_of (status : Status) : list (string * Unit) :=
  flat_map (fun item => flat_map units_of_top (s_units (snd item)))
           (services status).

(** The names of the top-level units, and those of the subordinates. *)
Definition top_units (status : Status) : list string :=
  flat_map (fun item => keys (s_units (snd item))) (services status).

Definition subordinate_units (status : Status) : list string :=
  flat_map
    (fun item => flat_map (fun u => keys (t_subordinates (snd u)))
                          (s_units (snd item)))
    (services status).

Definition collect_flat (c : Collected) (us : list (string * Unit))
  : Collected :=
  fold_left (fun c' item => collect_agent (fst item) (snd item) c') us c.

Definition same_dicts (c c' : Collected) : Prop :=
  ready_units c = ready_units c' /\
  agent_status c = agent_status c' /\
  agent_version c = agent_version c'.

Definition no_units : Collected :=
  {| all_units := []; ready_units := [];
     agent_status := []; agent_version := [] |}.

Definition all_idle (items : list (string * AgentStatus)) : bool :=
  forallb (fun item => String.eqb (current (snd item)) "idle") items.

Definition all_parse (strptime : string -> option Z)
  (items : list (string * AgentStatus)) : Prop :=
  forall item, In item items -> strptime (since (snd item)) <> None.

(** The reset that precedes a log-tail call, when it is still due. *)
Definition reset_due (l : Locals) : trace :=
  if l_logging_reset l then [] else [EvSetEnvironment (Ret tt)].

Definition not_ready (l : Locals) : Locals :=
  {| l_ready := false; l_logs := l_logs l;
     l_logging_reset := l_logging_reset l |}.

(** A unit reaches the sniffing branch of line 230. *)
Definition reaches_sniffing (unit : Unit) (l : Locals) : Prop :=
  is_dying (u_life unit) = false /\
  u_agent_state unit = Some "started" /\
  l_ready l = true.

Inductive sniff_spec (prev_logs : dict string) (uname : string)
  (unit : Unit) (l : Locals) : result Locals -> trace -> Prop :=
| sniff_dying :
    is_dying (u_life unit) = true ->
    sniff_spec prev_logs uname unit l (Ret (not_ready l)) []
| sniff_fatal :
    is_dying (u_life unit) = false ->
    u_agent_state unit = Some "error" ->
    sniff_spec prev_logs uname unit l (Raise (JujuWaitException 1)) []
| sniff_not_started :
    is_dying (u_life unit) = false ->
    u_agent_state unit <> Some "error" ->
    u_agent_state unit <> Some "started" ->
    sniff_spec prev_logs uname unit l (Ret (not_ready l)) []
| sniff_skipped :
    is_dying (u_life unit) = false ->
    u_agent_state unit = Some "started" ->
    l_ready l = false ->
    sniff_spec prev_logs uname unit l (Ret l) []
| sniff_reset_failed (e : exn) :
    reaches_sniffing unit l ->
    l_logging_reset l = false ->
    sniff_spec prev_logs uname unit l (Raise e)
               [EvSetEnvironment (Raise e)]
| sniff_tail_failed (e : exn) :
    reaches_sniffing unit l ->
    sniff_spec prev_logs uname unit l (Raise e)
               (EvLogTail uname (Raise e) :: reset_due l)
| sniff_done (line : string) :
    reaches_sniffing unit l ->
    sniff_spec prev_logs uname unit l
      (Ret {| l_ready := opt_eqb (Some line) (dict_get prev_logs uname);
              l_logs := dict_set (l_logs l) uname line;
              l_logging_reset := true |})
      (EvLogTail uname (Ret line) :: reset_due l).

(** ** Traces *)

Definition is_reset (e : event) : bool :=
  match e with EvSetEnvironment _ => true | _ => false end.

Definition is_sniff (e : event) : bool :=
  match e with EvLogTail _ _ => true | _ => false end.

(** How many times the logging configuration was reset, and how many
    log tails were fetched. *)
Definition resets (ev : trace) : nat := List.length (filter is_reset ev).

Definition sniffs (ev : trace) : nat := List.length (filter is_sniff ev).

(** No reset and no log tail so far. *)
Definition untouched (ev : trace) : Prop := resets ev = 0 /\ sniffs ev = 0.

(** One reset, which succeeded, and the first log tail right after it;
    whatever came later was no reset. *)
Definition reset_then_sniffed (ev : trace) : Prop :=
  exists later u r earlier,
    ev = later ++ EvLogTail u r :: EvSetEnvironment (Ret tt) :: earlier /\
    resets later = 0 /\ untouched earlier.

(** The reset was the last thing the run did: it failed with [e]. *)
Definition reset_failed (ev : trace) (e : exn) : Prop :=
  exists earlier,
    ev = EvSetEnvironment (Raise e) :: earlier /\ untouched earlier.

(** The trace that goes with a value of [logging_reset]. *)
Definition reset_inv (logging_reset : bool) (h : trace) : Prop :=
  if logging_reset then reset_then_sniffed h else untouched h.

Definition reset_end (e : exn) (h : trace) : Prop :=
  untouched h \/ reset_then_sniffed h \/ reset_failed h e.

(** A computation started in a history that satisfies [P] ends in one that
    satisfies [Q] when it returns and [E] when it raises. *)
Definition hoare {A : Type} (P : trace -> Prop) (m : M A)
  (Q : A -> trace -> Prop) (E : exn -> trace -> Prop) : Prop :=
  forall h, P h ->
    match m h with
    | (Ret a, ev) => Q a (ev ++ h)
    | (Raise e, ev) => E e (ev ++ h)
    end.

(** The cases of one turn of the leadership loop, lines 249-255, for the
    unit [uname] of version [version]. *)
Inductive leader_spec (W : World) (h : trace) (uname : string)
  (version : option string) (services leaders : set string)
  : result (set string * set string) -> trace -> Prop :=
| leader_already :
    set_mem_str (service_of uname) leaders = true ->
    leader_spec W h uname version services leaders
      (Ret (set_add_str (service_of uname) services, leaders)) []
| leader_no_version :
    set_mem_str (service_of uname) leaders = false ->
    version = None \/ version = Some EmptyString ->
    leader_spec W h uname version services leaders
      (Ret (set_add_str (service_of uname) services, leaders)) []
| leader_type_error (v : string) (e : exn) :
    set_mem_str (service_of uname) leaders = false ->
    version = Some v -> v <> EmptyString ->
    LooseVersion.ge v "1.23" = Raise e ->
    leader_spec W h uname version services leaders (Raise e) []
| leader_newer (v : string) :
    set_mem_str (service_of uname) leaders = false ->
    version = Some v -> v <> EmptyString ->
    LooseVersion.ge v "1.23" = Ret true ->
    leader_spec W h uname version services leaders
      (Ret (set_add_str (service_of uname) services,
            set_add_str (service_of uname) leaders)) []
| leader_elected (v : string) :
    set_mem_str (service_of uname) leaders = false ->
    version = Some v -> v <> EmptyString ->
    LooseVersion.ge v "1.23" = Ret false ->
    juju_is_leader W h uname = Ret (JBool true) ->
    leader_spec W h uname version services leaders
      (Ret (set_add_str (service_of uname) services,
            set_add_str (service_of uname) leaders))
      [EvIsLeader uname (Ret (JBool true))]
| leader_not_elected (v : string) (answer : json) :
    set_mem_str (service_of uname) leaders = false ->
    version = Some v -> v <> EmptyString ->
    LooseVersion.ge v "1.23" = Ret false ->
    juju_is_leader W h uname = Ret answer ->
    answer <> JBool true ->
    leader_spec W h uname version services leaders
      (Ret (set_add_str (service_of uname) services, leaders))
      [EvIsLeader uname (Ret answer)]
| leader_query_failed (v : string) (e : exn) :
    set_mem_str (service_of uname) leaders = false ->
    version = Some v -> v <> EmptyString ->
    LooseVersion.ge v "1.23" = Ret false ->
    juju_is_leader W h uname = Raise e ->
    leader_spec W h uname version services leaders (Raise e)
      [EvIsLeader uname (Raise e)].

Definition is_leader_query (e : event) : Prop :=
  exists u r, e = EvIsLeader u r.

Definition is_quiet (e : event) : Prop :=
  is_reset e = false /\ is_sniff e = false.

(** ** Runs of the loop *)

(** The variables of [wait] and the history after [n] more turns, none of
    which returned or raised. *)
Fixpoint run (W : World) (strptime : string -> option Z) (n : nat)
  (st : LoopState) (h : trace) : option (LoopState * trace) :=
  match n with
  | O => Some (st, h)
  | S n' =>
      match cycle W strptime st h with
      | (Ret (Continue st'), ev) => run W strptime n' st' (ev ++ h)
      | _ => None
      end
  end.

(** Where [wait] stands when it enters its turn number [n] (from 0). *)
Definition after (W : World) (strptime : string -> option Z) (n : nat)
  : option (LoopState * trace) :=
  run W strptime n initial [].

(** Turn [n] yields the verdict [v]; [now] is the time at its debounce
    step. *)
Definition verdict_at (W : World) (strptime : string -> option Z) (n : nat)
  (v : Verdict) (now : Z) : Prop :=
  exists st h evo,
    after W strptime n = Some (st, h) /\
    observe W strptime st h = (Ret v, evo) /\
    clock W (evo ++ h) = now.

Definition ready_at (W : World) (strptime : string -> option Z) (n : nat)
  : Prop :=
  exists v now, verdict_at W strptime n v now /\ v_ready v = true.

(** Turn [j] sets [ready_since] to [t]: it was unset, the verdict is
    ready, the clock says [t]. *)
Definition since_set_at (W : World) (strptime : string -> option Z)
  (j : nat) (t : Z) : Prop :=
  exists st h v evo,
    after W strptime j = Some (st, h) /\
    ready_since st = None /\
    observe W strptime st h = (Ret v, evo) /\
    v_ready v = true /\
    clock W (evo ++ h) = t.

(** [wait] returns in turn [n], logging [t] and [units]. *)
Definition returns_at (W : World) (strptime : string -> option Z) (n : nat)
  (t : Z) (units : list string) : Prop :=
  exists st h,
    after W strptime n = Some (st, h) /\
    fst (cycle W strptime st h) = Ret (Done t units).

(** ** Worlds of the examples *)

Definition is_sleep (e : event) : bool :=
  match e with EvSleep _ => true | _ => false end.

Definition count_sleeps (h : trace) : Z :=
  Z.of_nat (List.length (filter is_sleep h)).

(** A world whose status never changes, whose commands succeed, whose log
    tails never change, where no unit says it is the leader, and where
    time advances by [period] seconds from one turn to the next. *)
Definition calm_world (status : Status) (period : Z) : World :=
  {| juju_status := fun _ => Ret status;
     juju_set_environment := fun _ => Ret tt;
     juju_log_tail := fun _ _ => Ret "started";
     juju_is_leader := fun _ _ => Ret (JBool false);
     clock := fun h => (period * 1000000 * count_sleeps h)%Z |}.

Definition any_timestamp (ts : string) : option Z := Some 0%Z.

Definition empty_status : Status := {| services := [] |}.

(** Nothing deployed, and five seconds from one turn to the next. *)
Definition five_second_world : World := calm_world empty_status 5.

Definition idle_agent : AgentStatus :=
  {| current := "idle"; since := "07 Jul 2015 10:20:30Z" |}.

Definition modern_unit (version : string) : Unit :=
  {| u_agent_version := Some version;
     u_agent_status := Some idle_agent;
     u_life := None;
     u_agent_state := None;
     u_agent_state_info := None |}.

Definition legacy_unit (life : option string) (state : string) : Unit :=
  {| u_agent_version := Some "1.22.0";
     u_agent_status := None;
     u_life := life;
     u_agent_state := Some state;
     u_agent_state_info := Some "hook failed" |}.

(** The verdict on a document without services. *)
Definition vacuous_verdict (logging_reset : bool) : Verdict :=
  {| v_ready := true; v_all_units := []; v_logs := [];
     v_logging_reset := logging_reset |}.

Definition one_service (sname uname : string) (unit : Unit)
  (subordinates : dict Unit) : Status :=
  {| services :=
       [(sname,
         {| s_life := None;
            s_units := [(uname, {| t_unit := unit;
                                   t_subordinates := subordinates |})] |})]
  |}.

(** A unit with a subordinate, both idle on Juju 2.0. *)
Definition status_with_subordinate : Status :=
  one_service "mysql" "mysql/0" (modern_unit "2.0")
              [("nrpe/0", modern_unit "2.0")].

(** A legacy unit that is dying while its agent is in error. *)
Definition status_dying_in_error : Status :=
  one_service "mysql" "mysql/0" (legacy_unit (Some "dying") "error") [].

(** An external call that failed, or a status that did not decode. *)
Definition is_failure (e : event) : bool :=
  match e with
  | EvStatus (Raise _) => true
  | EvSetEnvironment (Raise _) => true
  | EvLogTail _ (Raise _) => true
  | EvIsLeader _ (Raise _) => true
  | _ => false
  end.

(** A legacy unit (no agent-status) that line 223 sends to the fatal
    path: not dying, agent-state "error". *)
Definition in_error (unit : Unit) : Prop :=
  u_agent_status unit = None /\
  is_dying (u_life unit) = false /\
  u_agent_state unit = Some "error".

(** A legacy unit in error, alive. *)
Definition status_in_error : Status :=
  one_service "mysql" "mysql/0" (legacy_unit None "error") [].

(** As [calm_world], but every unit asked says it is the leader. *)
Definition elected_world (status : Status) (period : Z) : World :=
  {| juju_status := fun _ => Ret status;
     juju_set_environment := fun _ => Ret tt;
     juju_log_tail := fun _ _ => Ret "started";
     juju_is_leader := fun _ _ => Ret (JBool true);
     clock := fun h => (period * 1000000 * count_sleeps h)%Z |}.

(** One unit on Juju 1.23.0, and one on Juju 1.22.0. *)
Definition status_1_23 : Status :=
  one_service "mysql" "mysql/0" (modern_unit "1.23.0") [].

Definition status_1_22 : Status :=
  one_service "mysql" "mysql/0" (modern_unit "1.22.0") [].

(** A legacy unit, started, on Juju 1.22.0. *)
Definition status_started : Status :=
  one_service "mysql" "mysql/0" (legacy_unit None "started") [].




(** Two legacy units: "app/0" is still pending, "app/1" is started. *)
Definition status_pending_then_started : Status :=
  {| services :=
       [("app",
         {| s_life := None;
            s_units :=
              [("app/1", {| t_unit := legacy_unit None "started";
                            t_subordinates := [] |});
               ("app/0", {| t_unit := legacy_unit None "pending";
                            t_subordinates := [] |})] |})] |}.

(** As [calm_world], but [juju set-environment] exits with code 2. *)
Definition no_reset_world (status : Status) (period : Z) : World :=
  {| juju_status := fun _ => Ret status;
     juju_set_environment := fun _ => Raise (JujuWaitException 2);
     juju_log_tail := fun _ _ => Ret "started";
     juju_is_leader := fun _ _ => Ret (JBool false);
     clock := fun h => (period * 1000000 * count_sleeps h)%Z |}.

(** ** What keeps a cycle from being ready *)







(** ** Vocabulary of the further properties *)

(** The characters of a string hold no slash. *)
Definition no_slash (s : string) : Prop :=
  ~ In "/"%char (list_ascii_of_string s).

(** Every exception [m] can raise satisfies [ok]. *)
Definition may_raise {A : Type} (ok : exn -> Prop) (m : M A) : Prop :=
  forall h e ev, m h = (Raise e, ev) -> ok e.

(** An exception that [wait_cmd] does not turn into exit code 0. *)
Definition nonzero_exit (e : exn) : Prop := e <> JujuWaitException 0.

(** A world none of whose commands fails with exit code 0. *)
Definition honest (W : World) : Prop :=
  (forall h e, juju_status W h = Raise e -> nonzero_exit e) /\
  (forall h e, juju_set_environment W h = Raise e -> nonzero_exit e) /\
  (forall h u e, juju_log_tail W h u = Raise e -> nonzero_exit e) /\
  (forall h u e, juju_is_leader W h u = Raise e -> nonzero_exit e).

(** A shell with nothing deployed: [juju status] prints an empty
    document, every other command prints [false]. *)
Definition quiet_shell : Shell :=
  {| popen := fun _ cmd _ =>
       if list_eq_dec string_dec cmd get_status_argv
       then Exited 0 "{}" ""
       else Exited 0 "false" "";
     wall_clock := fun h => (5 * 1000000 * count_sleeps h)%Z |}.

(** A shell where every command exits with code 3. *)
Definition broken_shell : Shell :=
  {| popen := fun _ _ _ => Exited 3 "" "no environment";
     wall_clock := fun _ => 0%Z |}.

(** [json.loads] on what these shells print. *)
Definition loads_empty (raw : string) : option Status :=
  if String.eqb raw "{}" then Some empty_status else None.

Definition loads_bool (raw : string) : option json :=
  if String.eqb raw "true" then Some (JBool true)
  else if String.eqb raw "false" then Some (JBool false)
  else if String.eqb raw "null" then Some JNull
  else None.

(** What the parser does with no argument, with [--description] and with
    [-e prod]. *)
Definition no_argument : Parsed :=
  {| steps := []; quiet := false; verbose := false |}.

Definition description_asked : Parsed :=
  {| steps := [CallDescription]; quiet := false; verbose := false |}.

Definition environment_given : Parsed :=
  {| steps := [CallEnvironment "prod"]; quiet := false; verbose := false |}.

Definition is_poll (e : event) : bool :=
  match e with EvStatus _ => true | _ => false end.

(** How many times the status was fetched, and how many times the loop
    slept. *)
Definition polls (ev : trace) : nat := List.length (filter is_poll ev).

Definition naps (ev : trace) : nat := List.length (filter is_sleep ev).

(** The events of a remote command or of the logging reset. *)
Definition is_command (e : event) : Prop :=
  (exists r, e = EvSetEnvironment r) \/
  (exists u r, e = EvLogTail u r) \/
  (exists u r, e = EvIsLeader u r).

(** One service, dying, with an idle unit. *)
Definition status_dying_service : Status :=
  {| services :=
       [("mysql",
         {| s_life := Some "dying";
            s_units := [("mysql/0", {| t_unit := modern_unit "2.0";
                                       t_subordinates := [] |})] |})] |}.

(** Every unit of the document reports an agent-status. *)
Definition all_modern (status : Status) : Prop :=
  forall u unit, In (u, unit) (units_of status) -> u_agent_status unit <> None.

(** Every agent-version of the document is at least 1.23. *)
Definition all_recent (status : Status) : Prop :=
  forall u unit v,
    In (u, unit) (units_of status) -> u_agent_version unit = Some v ->
    LooseVersion.ge v "1.23" = Ret true.

(** The last thing the cycle did was a command that failed with [e]. *)
Definition command_failed (e : exn) (ev : trace) : Prop :=
  exists rest,
    ev = EvSetEnvironment (Raise e) :: rest \/
    (exists u, ev = EvLogTail u (Raise e) :: rest) \/
    (exists u, ev = EvIsLeader u (Raise e) :: rest).

(** * Properties *)

(** ** [LooseVersion] on the versions Juju reports *)

Example loose_1_23_0 : LooseVersion.ge "1.23.0" "1.23" = Ret true.
Proof. reflexivity. Qed.

Example loose_1_22_0 : LooseVersion.ge "1.22.0" "1.23" = Ret false.
Proof. reflexivity. Qed.

Example loose_2_0 : LooseVersion.ge "2.0" "1.23" = Ret true.
Proof. reflexivity. Qed.

Example loose_1_24_beta : LooseVersion.parse "1.24-beta3.1"
  = [LooseVersion.CInt 1; LooseVersion.CInt 24; LooseVersion.CStr "-";
     LooseVersion.CStr "beta"; LooseVersion.CInt 3; LooseVersion.CInt 1].
Proof. reflexivity. Qed.

Example loose_mixed : LooseVersion.ge "1.x" "1.23" = Raise TypeError.
Proof. reflexivity. Qed.

(** ** Dicts and [sorted] *)

Lemma opt_eqb_eq (a b : option string) : opt_eqb a b = true <-> a = b.
Proof.
  destruct a as [x|], b as [y|]; unfold opt_eqb; split; intro H;
    try reflexivity; try discriminate.
  - apply String.eqb_eq in H. now subst.
  - injection H as ->. apply String.eqb_refl.
Qed.

Lemma dict_get_set_same {V : Type} (d : dict V) (k : string) (v : V) :
  dict_get (dict_set d k v) k = Some v.
Proof.
  induction d as [|[k' v'] d IH]; simpl.
  - now rewrite String.eqb_refl.
  - destruct (String.eqb k k') eqn:E; simpl.
    + now rewrite String.eqb_refl.
    + now rewrite E.
Qed.

Lemma dict_get_set_other {V : Type} (d : dict V) (k k' : string) (v : V) :
  k <> k' -> dict_get (dict_set d k v) k' = dict_get d k'.
Proof.
  intro Hne. induction d as [|[k0 v0] d IH]; simpl.
  - destruct (String.eqb k' k) eqn:E; [|reflexivity].
    apply String.eqb_eq in E. congruence.
  - destruct (String.eqb k k0) eqn:E; simpl.
    + apply String.eqb_eq in E. subst k0.
      destruct (String.eqb k' k) eqn:E'; [|reflexivity].
      apply String.eqb_eq in E'. congruence.
    + now rewrite IH.
Qed.

Lemma keys_dict_set {V : Type} (d : dict V) (k : string) (v : V) (x : string) :
  In x (keys (dict_set d k v)) <-> x = k \/ In x (keys d).
Proof.
  unfold keys. induction d as [|[k' v'] d IH]; simpl.
  - intuition.
  - destruct (String.eqb k k') eqn:E; simpl.
    + apply String.eqb_eq in E. subst. intuition.
    + rewrite IH. intuition.
Qed.

Lemma NoDup_keys_dict_set {V : Type} (d : dict V) (k : string) (v : V) :
  NoDup (keys d) -> NoDup (keys (dict_set d k v)).
Proof.
  unfold keys. induction d as [|[k' v'] d IH]; simpl; intro H.
  - constructor; [intros []|constructor].
  - inversion H as [|? ? Hnin Hnd]; subst.
    destruct (String.eqb k k') eqn:E; simpl.
    + apply String.eqb_eq in E. subst. now constructor.
    + constructor; [|now apply IH].
      intro Hin. apply (keys_dict_set d k v k') in Hin.
      destruct Hin as [->|Hin]; [|contradiction].
      now rewrite String.eqb_refl in E.
Qed.

Lemma dict_get_In {V : Type} (d : dict V) (k : string) (v : V) :
  dict_get d k = Some v -> In (k, v) d.
Proof.
  induction d as [|[k' v'] d IH]; simpl; [discriminate|].
  destruct (String.eqb k k') eqn:E.
  - apply String.eqb_eq in E. intros [= ->]. subst. now left.
  - intro H. right. now apply IH.
Qed.

Lemma In_dict_get {V : Type} (d : dict V) (k : string) (v : V) :
  NoDup (keys d) -> In (k, v) d -> dict_get d k = Some v.
Proof.
  unfold keys. induction d as [|[k' v'] d IH]; simpl; [intros _ []|].
  intros Hnd [Heq|Hin]; inversion Hnd as [|? ? Hnin Hnd']; subst.
  - injection Heq as -> ->. now rewrite String.eqb_refl.
  - destruct (String.eqb k k') eqn:E; [|now apply IH].
    apply String.eqb_eq in E. subst. exfalso. apply Hnin.
    now apply (in_map fst) in Hin.
Qed.

Lemma insert_by_perm {A : Type} (key : A -> string) (x : A) (l : list A) :
  Permutation (insert_by key x l) (x :: l).
Proof.
  induction l as [|y l IH]; simpl; [reflexivity|].
  destruct (String.leb (key x) (key y)); [reflexivity|].
  rewrite IH. apply perm_swap.
Qed.

Lemma sorted_by_perm {A : Type} (key : A -> string) (l : list A) :
  Permutation (sorted_by key l) l.
Proof.
  induction l as [|x l IH]; simpl; [reflexivity|].
  rewrite insert_by_perm. now constructor.
Qed.

Lemma sorted_items_In {V : Type} (d : dict V) (kv : string * V) :
  In kv (sorted_items d) <-> In kv d.
Proof.
  split; apply Permutation_in;
    [|symmetry]; apply sorted_by_perm.
Qed.

Lemma sorted_items_NoDup {V : Type} (d : dict V) :
  NoDup (keys d) -> NoDup (keys (sorted_items d)).
Proof.
  unfold keys. apply Permutation_NoDup, Permutation_map.
  symmetry. apply sorted_by_perm.
Qed.

Lemma insert_by_sorted {A : Type} (key : A -> string) (x : A) (l : list A) :
  Sorted (key_le key) l -> Sorted (key_le key) (insert_by key x l).
Proof.
  induction l as [|y l IH]; simpl; intro H.
  - repeat constructor.
  - destruct (String.leb (key x) (key y)) eqn:E.
    + constructor; [assumption|]. now constructor.
    + inversion H as [|? ? Hs Hhd]; subst.
      constructor; [now apply IH|].
      assert (Hyx : key_le key y x).
      { unfold key_le. destruct (String.leb_total (key x) (key y)); congruence. }
      destruct l as [|z l]; simpl.
      * now constructor.
      * destruct (String.leb (key x) (key z)); constructor; trivial.
        now inversion Hhd.
Qed.

Lemma sorted_by_sorted {A : Type} (key : A -> string) (l : list A) :
  Sorted (key_le key) (sorted_by key l).
Proof.
  induction l as [|x l IH]; simpl; [constructor|].
  now apply insert_by_sorted.
Qed.

Lemma set_add_str_In (x y : string) (s : set string) :
  In x (set_add_str y s) <-> x = y \/ In x s.
Proof. unfold set_add_str. apply set_add_iff. Qed.

Lemma set_mem_str_In (x : string) (s : set string) :
  set_mem_str x s = true <-> In x s.
Proof.
  unfold set_mem_str. split.
  - apply set_mem_correct1.
  - apply set_mem_correct2.
Qed.

(** ** Computations and their events *)

Lemma bind_inv {A B : Type} (m : M A) (k : A -> M B) (h : trace)
  (r : result B) (ev : trace) :
  bind m k h = (r, ev) ->
  (exists e, m h = (Raise e, ev) /\ r = Raise e) \/
  (exists a ev1 ev2,
      m h = (Ret a, ev1) /\ k a (ev1 ++ h) = (r, ev2) /\ ev = ev2 ++ ev1).
Proof.
  unfold bind. destruct (m h) as [[a|e] ev1].
  - destruct (k a (ev1 ++ h)) as [r' ev2] eqn:Ek. intros [= <- <-].
    right. now exists a, ev1, ev2.
  - intros [= <- <-]. left. now exists e.
Qed.

Lemma bind_ret {A B : Type} (m : M A) (k : A -> M B) (h : trace)
  (a : A) (ev1 : trace) :
  m h = (Ret a, ev1) ->
  bind m k h = (fst (k a (ev1 ++ h)), snd (k a (ev1 ++ h)) ++ ev1).
Proof.
  unfold bind. intros ->. now destruct (k a (ev1 ++ h)).
Qed.

Lemma bind_ret_nil {A B : Type} (m : M A) (k : A -> M B) (h : trace)
  (a : A) :
  m h = (Ret a, []) -> bind m k h = k a h.
Proof.
  unfold bind. intros ->. simpl. destruct (k a h) as [r ev].
  now rewrite app_nil_r.
Qed.

Lemma bind_raise {A B : Type} (m : M A) (k : A -> M B) (h : trace)
  (e : exn) (ev1 : trace) :
  m h = (Raise e, ev1) -> bind m k h = (Raise e, ev1).
Proof. unfold bind. now intros ->. Qed.

(** ** What [collect] gathers *)

Lemma same_dicts_refl (c : Collected) : same_dicts c c.
Proof. now repeat split. Qed.

Lemma collect_agent_same (u : string) (unit : Unit) (c c' : Collected) :
  same_dicts c c' ->
  same_dicts (collect_agent u unit c) (collect_agent u unit c').
Proof.
  intros (H1 & H2 & H3). unfold collect_agent, same_dicts.
  destruct (u_agent_status unit); simpl; rewrite ?H1, ?H2, ?H3; auto.
Qed.

Lemma collect_flat_same (us : list (string * Unit)) (c c' : Collected) :
  same_dicts c c' -> same_dicts (collect_flat c us) (collect_flat c' us).
Proof.
  revert c c'. induction us as [|[u unit] us IH]; intros c c' H; simpl.
  - exact H.
  - apply IH. now apply collect_agent_same.
Qed.

Lemma collect_flat_app (c : Collected) (us vs : list (string * Unit)) :
  collect_flat c (us ++ vs) = collect_flat (collect_flat c us) vs.
Proof. unfold collect_flat. apply fold_left_app. Qed.

Lemma collect_unit_flat (c : Collected) (item : string * TopUnit) :
  same_dicts (collect_unit c item) (collect_flat c (units_of_top item)).
Proof.
  destruct item as [uname unit]. unfold collect_unit, units_of_top. simpl.
  set (c1 := {| all_units := set_add_str uname (all_units c);
                ready_units := ready_units c;
                agent_status := agent_status c;
                agent_version := agent_version c |}).
  assert (H : same_dicts (collect_agent uname (t_unit unit) c1)
                         (collect_agent uname (t_unit unit) c)).
  { apply collect_agent_same. now repeat split. }
  revert H. generalize (collect_agent uname (t_unit unit) c1).
  generalize (collect_agent uname (t_unit unit) c).
  induction (t_subordinates unit) as [|[subname sub] subs IH];
    intros c2 c3 H; simpl.
  - exact H.
  - apply IH. now apply collect_agent_same.
Qed.

Lemma collect_units_flat (units : dict TopUnit) (c c' : Collected) :
  same_dicts c c' ->
  same_dicts (fold_left collect_unit units c)
             (collect_flat c' (flat_map units_of_top units)).
Proof.
  revert c c'. induction units as [|item units IH]; intros c c' H;
    cbn [fold_left flat_map].
  - exact H.
  - rewrite collect_flat_app. apply IH.
    destruct (collect_unit_flat c item) as (H1 & H2 & H3).
    destruct (collect_flat_same (units_of_top item) c c' H) as (G1 & G2 & G3).
    repeat split; congruence.
Qed.

Lemma collect_is_flat (status : Status) :
  same_dicts (collect status) (collect_flat no_units (units_of status)).
Proof.
  unfold collect, units_of. fold no_units.
  generalize (same_dicts_refl no_units).
  generalize no_units at 1 3. generalize no_units.
  induction (services status) as [|[sname service] svcs IH];
    intros c c' H; simpl.
  - exact H.
  - rewrite collect_flat_app. apply IH.
    now apply collect_units_flat.
Qed.

Lemma collect_agent_keys (u : string) (unit : Unit) (c : Collected) :
  NoDup (keys (ready_units c)) /\ NoDup (keys (agent_status c)) /\
  NoDup (keys (agent_version c)) ->
  NoDup (keys (ready_units (collect_agent u unit c))) /\
  NoDup (keys (agent_status (collect_agent u unit c))) /\
  NoDup (keys (agent_version (collect_agent u unit c))).
Proof.
  intros (H1 & H2 & H3). unfold collect_agent.
  destruct (u_agent_status unit); simpl;
    repeat split; trivial; now apply NoDup_keys_dict_set.
Qed.

Lemma collect_flat_keys (us : list (string * Unit)) (c : Collected) :
  NoDup (keys (ready_units c)) /\ NoDup (keys (agent_status c)) /\
  NoDup (keys (agent_version c)) ->
  NoDup (keys (ready_units (collect_flat c us))) /\
  NoDup (keys (agent_status (collect_flat c us))) /\
  NoDup (keys (agent_version (collect_flat c us))).
Proof.
  revert c. induction us as [|[u unit] us IH]; intros c H; simpl.
  - exact H.
  - apply IH. now apply collect_agent_keys.
Qed.

(** The dicts of a cycle have distinct keys, as every Python dict. *)
Lemma collect_keys (status : Status) :
  NoDup (keys (ready_units (collect status))) /\
  NoDup (keys (agent_status (collect status))) /\
  NoDup (keys (agent_version (collect status))).
Proof.
  destruct (collect_is_flat status) as (-> & -> & ->).
  apply collect_flat_keys. simpl. repeat split; constructor.
Qed.

Lemma collect_flat_untouched (us : list (string * Unit)) (c : Collected)
  (u : string) :
  ~ In u (keys us) ->
  dict_get (ready_units (collect_flat c us)) u = dict_get (ready_units c) u /\
  dict_get (agent_status (collect_flat c us)) u
    = dict_get (agent_status c) u /\
  dict_get (agent_version (collect_flat c us)) u
    = dict_get (agent_version c) u.
Proof.
  revert c. induction us as [|[u' unit'] us IH]; intros c Hnin; simpl.
  - auto.
  - simpl in Hnin.
    destruct (IH (collect_agent u' unit' c)) as (H1 & H2 & H3);
      [tauto|].
    rewrite H1, H2, H3. unfold collect_agent.
    destruct (u_agent_status unit'); simpl;
      rewrite ?dict_get_set_other by tauto; auto.
Qed.

Lemma collect_flat_get (us : list (string * Unit)) (c : Collected)
  (u : string) (unit : Unit) :
  NoDup (keys us) -> In (u, unit) us ->
  dict_get (agent_version (collect_flat c us)) u
    = Some (u_agent_version unit) /\
  match u_agent_status unit with
  | Some a => dict_get (agent_status (collect_flat c us)) u = Some a
  | None => dict_get (ready_units (collect_flat c us)) u = Some unit
  end.
Proof.
  revert c. induction us as [|[u' unit'] us IH]; intros c Hnd Hin;
    [destruct Hin|].
  simpl in Hnd. inversion Hnd as [|? ? Hnin Hnd']; subst.
  destruct Hin as [Heq|Hin].
  - injection Heq as -> ->. simpl.
    destruct (collect_flat_untouched us (collect_agent u unit c) u Hnin)
      as (H1 & H2 & H3).
    rewrite H1, H2, H3. unfold collect_agent.
    destruct (u_agent_status unit); simpl;
      now rewrite !dict_get_set_same.
  - simpl. now apply IH.
Qed.

(** With distinct unit names, each unit is filed under its own name. *)
Lemma collect_get (status : Status) (u : string) (unit : Unit) :
  NoDup (keys (units_of status)) -> In (u, unit) (units_of status) ->
  dict_get (agent_version (collect status)) u = Some (u_agent_version unit) /\
  match u_agent_status unit with
  | Some a => dict_get (agent_status (collect status)) u = Some a
  | None => dict_get (ready_units (collect status)) u = Some unit
  end.
Proof.
  intros Hnd Hin.
  destruct (collect_is_flat status) as (-> & -> & ->).
  now apply collect_flat_get.
Qed.

Lemma collect_agent_all_units (u : string) (unit : Unit) (c : Collected) :
  all_units (collect_agent u unit c) = all_units c.
Proof. unfold collect_agent. now destruct (u_agent_status unit). Qed.

Lemma collect_unit_all_units (c : Collected) (item : string * TopUnit) :
  all_units (collect_unit c item) = set_add_str (fst item) (all_units c).
Proof.
  destruct item as [uname unit]. unfold collect_unit. simpl.
  set (c1 := {| all_units := set_add_str uname (all_units c);
                ready_units := ready_units c;
                agent_status := agent_status c;
                agent_version := agent_version c |}).
  assert (H : all_units (collect_agent uname (t_unit unit) c1)
              = set_add_str uname (all_units c))
    by now rewrite collect_agent_all_units.
  revert H. generalize (collect_agent uname (t_unit unit) c1).
  induction (t_subordinates unit) as [|[subname sub] subs IH];
    intros c2 H; simpl.
  - exact H.
  - apply IH. now rewrite collect_agent_all_units.
Qed.

Lemma collect_units_all_units (units : dict TopUnit) (c : Collected)
  (x : string) :
  In x (all_units (fold_left collect_unit units c))
  <-> In x (keys units) \/ In x (all_units c).
Proof.
  revert c. induction units as [|item units IH]; intro c; simpl.
  - intuition.
  - rewrite IH, collect_unit_all_units, set_add_str_In. intuition.
Qed.

(** [all_units] holds the names of the top-level units, and only them. *)
Lemma all_units_top (status : Status) (x : string) :
  In x (all_units (collect status)) <-> In x (top_units status).
Proof.
  unfold collect, top_units. fold no_units.
  assert (H : forall c,
             In x (all_units
                     (fold_left
                        (fun c0 '(_, service) =>
                           fold_left collect_unit (s_units service) c0)
                        (services status) c))
             <-> In x (flat_map (fun item => keys (s_units (snd item)))
                                (services status))
                 \/ In x (all_units c)).
  { induction (services status) as [|[sname service] svcs IH];
      intro c; simpl.
    - intuition.
    - rewrite IH, collect_units_all_units, in_app_iff. intuition. }
  rewrite H. simpl. intuition.
Qed.

(** ** The loops of a cycle, step by step *)

Lemma bind_assoc {A B C : Type} (m : M A) (k : A -> M B) (k' : B -> M C)
  (h : trace) :
  bind (bind m k) k' h = bind m (fun a => bind (k a) k') h.
Proof.
  unfold bind. destruct (m h) as [[a|e] ev1]; [|reflexivity].
  destruct (k a (ev1 ++ h)) as [[b|e] ev2]; [|reflexivity].
  rewrite <- app_assoc.
  destruct (k' b (ev2 ++ ev1 ++ h)) as [r ev3].
  now rewrite app_assoc.
Qed.

Lemma bind_ext {A B : Type} (m : M A) (k k' : A -> M B) (h : trace) :
  (forall a h', k a h' = k' a h') -> bind m k h = bind m k' h.
Proof.
  intro H. unfold bind. destruct (m h) as [[a|e] ev1]; [|reflexivity].
  now rewrite H.
Qed.

Lemma for_each_app {A S : Type} (body : A -> S -> M S) (xs ys : list A)
  (s : S) (h : trace) :
  for_each body (xs ++ ys) s h
  = bind (for_each body xs s) (for_each body ys) h.
Proof.
  revert s h. induction xs as [|x xs IH]; intros s h; simpl.
  - unfold bind, ret. simpl. destruct (for_each body ys s h) as [r ev].
    now rewrite app_nil_r.
  - rewrite bind_assoc. apply bind_ext. intros s' h'. apply IH.
Qed.

Section Steps.

Variable W : World.
Variable strptime : string -> option Z.

(** *** The loop over [agent_status] *)

Lemma check_agent_step (item : string * AgentStatus) (ready : bool)
  (h : trace) :
  check_agent strptime item ready h
  = match strptime (since (snd item)) with
    | Some _ =>
        (Ret (ready && String.eqb (current (snd item)) "idle"), [])
    | None => (Raise ValueError, [])
    end.
Proof.
  destruct item as [uname astatus].
  unfold check_agent, bind, lift, parse_ts, ret. simpl.
  destruct (strptime (since astatus)); [|reflexivity].
  destruct (String.eqb (current astatus) "idle"); simpl.
  - now rewrite andb_true_r.
  - now rewrite andb_false_r.
Qed.

Lemma check_agent_loop (items : list (string * AgentStatus))
  (ready : bool) (h : trace) :
  for_each (check_agent strptime) items ready h
    = (Ret (ready && all_idle items), [])
  \/ for_each (check_agent strptime) items ready h = (Raise ValueError, []).
Proof.
  revert ready. induction items as [|item items IH];
    intro ready; cbn [for_each all_idle forallb].
  - left. unfold ret. now rewrite andb_true_r.
  - pose proof (check_agent_step item ready h) as Hs.
    destruct (strptime (since (snd item))).
    + rewrite (bind_ret _ _ _ _ _ Hs). rewrite app_nil_r. simpl app.
      destruct (IH (ready && String.eqb (current (snd item)) "idle"))
        as [-> | ->]; [left|right]; simpl; [|reflexivity].
      now rewrite andb_assoc.
    + right. apply (bind_raise _ _ _ _ _ Hs).
Qed.

Lemma check_agent_loop_parse (items : list (string * AgentStatus))
  (ready : bool) (h : trace) :
  all_parse strptime items ->
  for_each (check_agent strptime) items ready h
    = (Ret (ready && all_idle items), []).
Proof.
  revert ready. induction items as [|item items IH];
    intros ready Hp; cbn [for_each all_idle forallb].
  - unfold ret. now rewrite andb_true_r.
  - pose proof (check_agent_step item ready h) as Hs.
    assert (Hi : strptime (since (snd item)) <> None)
      by (apply Hp; now left).
    destruct (strptime (since (snd item))); [|congruence].
    rewrite (bind_ret _ _ _ _ _ Hs). rewrite app_nil_r. simpl app.
    rewrite IH by (intros it Hit; apply Hp; now right).
    simpl. now rewrite andb_assoc.
Qed.

(** *** The loop over [ready_units] *)

Lemma sniff_cases (prev_logs : dict string) (uname : string) (unit : Unit)
  (l : Locals) (h : trace) :
  sniff_spec prev_logs uname unit l
    (fst (sniff W prev_logs (uname, unit) l h))
    (snd (sniff W prev_logs (uname, unit) l h)).
Proof.
  unfold sniff.
  destruct (is_dying (u_life unit)) eqn:Hd.
  { now apply sniff_dying. }
  destruct (opt_eqb (u_agent_state unit) (Some "error")) eqn:He.
  { apply opt_eqb_eq in He. now apply sniff_fatal. }
  assert (He' : u_agent_state unit <> Some "error").
  { intro Hc. apply opt_eqb_eq in Hc. congruence. }
  destruct (opt_eqb (u_agent_state unit) (Some "started")) eqn:Hs; simpl.
  2:{ apply sniff_not_started; trivial.
      intro Hc. apply opt_eqb_eq in Hc. congruence. }
  apply opt_eqb_eq in Hs.
  destruct (l_ready l) eqn:Hr.
  2:{ now apply sniff_skipped. }
  assert (Hreach : reaches_sniffing unit l) by now repeat split.
  unfold bind, reset_logging, get_log_tail, ret.
  destruct (l_logging_reset l) eqn:Hl; simpl.
  - destruct (juju_log_tail W h uname) as [line|e] eqn:Ht; simpl.
    + destruct (opt_eqb (Some line) (dict_get prev_logs uname)) eqn:Hc;
        simpl;
        pose proof (sniff_done prev_logs uname unit l line Hreach) as H;
        unfold reset_due in H; rewrite Hl, Hc in H; exact H.
    + pose proof (sniff_tail_failed prev_logs uname unit l e Hreach) as H.
      unfold reset_due in H. now rewrite Hl in H.
  - destruct (juju_set_environment W h) as [[]|e] eqn:Hs'; simpl.
    2:{ now apply sniff_reset_failed. }
    destruct (juju_log_tail W (EvSetEnvironment (Ret tt) :: h) uname)
      as [line|e] eqn:Ht; simpl.
    + destruct (opt_eqb (Some line) (dict_get prev_logs uname)) eqn:Hc;
        simpl;
        pose proof (sniff_done prev_logs uname unit l line Hreach) as H;
        unfold reset_due in H; rewrite Hl, Hc in H; exact H.
    + pose proof (sniff_tail_failed prev_logs uname unit l e Hreach) as H.
      unfold reset_due in H. now rewrite Hl in H.
Qed.

Lemma sniff_inv (prev_logs : dict string) (uname : string) (unit : Unit)
  (l : Locals) (h : trace) (r : result Locals) (ev : trace) :
  sniff W prev_logs (uname, unit) l h = (r, ev) ->
  sniff_spec prev_logs uname unit l r ev.
Proof.
  intro H. pose proof (sniff_cases prev_logs uname unit l h) as Hc.
  now rewrite H in Hc.
Qed.

End Steps.

(** ** Reasoning on histories *)

Lemma hoare_ret {A : Type} (P : trace -> Prop) (a : A)
  (Q : A -> trace -> Prop) (E : exn -> trace -> Prop) :
  (forall h, P h -> Q a h) -> hoare P (ret a) Q E.
Proof. intros H h Hp. simpl. now apply H. Qed.

Lemma hoare_bind {A B : Type} (P : trace -> Prop) (m : M A)
  (k : A -> M B) (Q1 : A -> trace -> Prop) (Q : B -> trace -> Prop)
  (E : exn -> trace -> Prop) :
  hoare P m Q1 E -> (forall a, hoare (Q1 a) (k a) Q E) ->
  hoare P (bind m k) Q E.
Proof.
  intros Hm Hk h Hp. specialize (Hm h Hp). unfold bind.
  destruct (m h) as [[a|e] ev1]; [|exact Hm].
  specialize (Hk a (ev1 ++ h) Hm).
  destruct (k a (ev1 ++ h)) as [[b|e] ev2]; now rewrite <- app_assoc.
Qed.

Lemma hoare_for_each {A S : Type} (body : A -> S -> M S) (xs : list A)
  (I : S -> trace -> Prop) (E : exn -> trace -> Prop) :
  (forall x s, In x xs -> hoare (I s) (body x s) I E) ->
  forall s, hoare (I s) (for_each body xs s) I E.
Proof.
  induction xs as [|x xs IH]; intros Hb s; cbn [for_each].
  - now apply hoare_ret.
  - apply hoare_bind with (Q1 := I).
    + apply Hb. now left.
    + intro s'. apply IH. intros y s'' Hy. apply Hb. now right.
Qed.

(** ** The logging reset along a run *)

Lemma resets_app (a b : trace) : resets (a ++ b) = resets a + resets b.
Proof. unfold resets. now rewrite filter_app, length_app. Qed.

Lemma sniffs_app (a b : trace) : sniffs (a ++ b) = sniffs a + sniffs b.
Proof. unfold sniffs. now rewrite filter_app, length_app. Qed.

Lemma untouched_app (a b : trace) :
  untouched a -> untouched b -> untouched (a ++ b).
Proof.
  unfold untouched. rewrite resets_app, sniffs_app. intros [-> ->] [-> ->].
  now split.
Qed.

Lemma reset_then_sniffed_app (a b : trace) :
  resets a = 0 -> reset_then_sniffed b -> reset_then_sniffed (a ++ b).
Proof.
  intros Ha (later & u & r & earlier & -> & Hl & He).
  exists (a ++ later), u, r, earlier. rewrite <- app_assoc.
  repeat split; try apply He. rewrite resets_app. now rewrite Ha, Hl.
Qed.

Lemma reset_inv_app (lr : bool) (a h : trace) :
  untouched a -> reset_inv lr h -> reset_inv lr (a ++ h).
Proof.
  intros Ha Hh. destruct lr; simpl in *.
  - apply reset_then_sniffed_app; [apply Ha|assumption].
  - now apply untouched_app.
Qed.

Lemma reset_inv_end (lr : bool) (h : trace) (e : exn) :
  reset_inv lr h -> reset_end e h.
Proof. unfold reset_end. destruct lr; simpl; auto. Qed.

(** A computation that neither resets nor sniffs keeps the invariant. *)
Lemma hoare_untouched {A : Type} (m : M A) (lr : bool) :
  (forall h, untouched (snd (m h))) ->
  hoare (reset_inv lr) m (fun _ => reset_inv lr) reset_end.
Proof.
  intros Hm h Hh. specialize (Hm h).
  destruct (m h) as [[a|e] ev]; simpl in Hm.
  - now apply reset_inv_app.
  - apply reset_inv_end with (lr := lr). now apply reset_inv_app.
Qed.

Lemma untouched_nil : untouched [].
Proof. now split. Qed.

Lemma bind_events {A B : Type} (P : event -> Prop) (m : M A) (k : A -> M B)
  (h : trace) :
  Forall P (snd (m h)) -> (forall a h', Forall P (snd (k a h'))) ->
  Forall P (snd (bind m k h)).
Proof.
  intros Hm Hk. unfold bind. destruct (m h) as [[a|e] ev1]; simpl in *.
  - specialize (Hk a (ev1 ++ h)). destruct (k a (ev1 ++ h)) as [r ev2].
    simpl in *. apply Forall_app. now split.
  - exact Hm.
Qed.

Lemma for_each_events {A S : Type} (P : event -> Prop)
  (body : A -> S -> M S) (xs : list A) :
  (forall x s h, Forall P (snd (body x s h))) ->
  forall s h, Forall P (snd (for_each body xs s h)).
Proof.
  intro Hb. induction xs as [|x xs IH]; intros s h; cbn [for_each].
  - constructor.
  - apply bind_events; [apply Hb|]. intros a h'. apply IH.
Qed.

Lemma quiet_untouched (ev : trace) : Forall is_quiet ev -> untouched ev.
Proof.
  induction 1 as [|e ev [Hr Hs] _ [IHr IHs]]; [apply untouched_nil|].
  unfold untouched, resets, sniffs in *. simpl. rewrite Hr, Hs. now split.
Qed.

Lemma leader_query_quiet (e : event) : is_leader_query e -> is_quiet e.
Proof. intros (u & r & ->). now split. Qed.

Section Leaders.

Variable W : World.

Lemma leader_cases (uname : string) (version : option string)
  (services leaders : set string) (h : trace) :
  leader_spec W h uname version services leaders
    (fst (leader_step W (uname, version) (services, leaders) h))
    (snd (leader_step W (uname, version) (services, leaders) h)).
Proof.
  unfold leader_step.
  destruct (set_mem_str (service_of uname) leaders) eqn:Hm.
  { now apply leader_already. }
  destruct version as [v|].
  2:{ apply leader_no_version; auto. }
  destruct (String.eqb v "") eqn:Hv.
  { apply String.eqb_eq in Hv. subst. apply leader_no_version; auto. }
  apply String.eqb_neq in Hv.
  unfold bind, lift, get_is_leader, ret.
  destruct (LooseVersion.ge v "1.23") as [[|]|e] eqn:Hge; simpl.
  - now apply leader_newer with (v := v).
  - destruct (juju_is_leader W h uname) as [answer|e] eqn:Ha; simpl.
    + destruct answer as [|[|]| |]; simpl;
        try (apply leader_not_elected with (v := v); trivial; discriminate).
      now apply leader_elected with (v := v).
    + now apply leader_query_failed with (v := v).
  - now apply leader_type_error with (v := v).
Qed.

Lemma leader_step_events (item : string * option string)
  (acc : set string * set string) (h : trace) :
  Forall is_leader_query (snd (leader_step W item acc h)).
Proof.
  destruct item as [uname version], acc as [services leaders].
  pose proof (leader_cases uname version services leaders h) as Hc.
  destruct (leader_step W (uname, version) (services, leaders) h) as [r ev].
  simpl in Hc.
  inversion Hc; subst; try apply Forall_nil;
    (apply Forall_cons; [now eexists _, _|apply Forall_nil]).
Qed.

Lemma check_leaders_events (av : dict (option string)) (h : trace) :
  Forall is_leader_query (snd (check_leaders W av h)).
Proof.
  unfold check_leaders. apply bind_events.
  - apply for_each_events. apply leader_step_events.
  - intros a h'. constructor.
Qed.

End Leaders.

Section ResetOnce.

Variable W : World.
Variable strptime : string -> option Z.

Lemma sniff_reset (prev : dict string) (item : string * Unit) (l : Locals) :
  hoare (reset_inv (l_logging_reset l)) (sniff W prev item l)
        (fun l' => reset_inv (l_logging_reset l')) reset_end.
Proof.
  intros h Hh. destruct item as [uname unit].
  pose proof (sniff_cases W prev uname unit l h) as Hc.
  destruct (sniff W prev (uname, unit) l h) as [r ev]. simpl in Hc.
  assert (Hnew : reset_then_sniffed (ev ++ h) ->
                 match r with
                 | Ret l' => l_logging_reset l' = true
                 | Raise _ => True
                 end ->
                 match r with
                 | Ret l' => reset_inv (l_logging_reset l') (ev ++ h)
                 | Raise e => reset_end e (ev ++ h)
                 end).
  { destruct r as [l'|e]; [intros H ->; exact H|]. intros H _.
    right. now left. }
  assert (Hsniffed : forall r',
             reset_then_sniffed
               ((EvLogTail uname r' :: reset_due l) ++ h)).
  { intro r'. unfold reset_due. destruct (l_logging_reset l); simpl in *.
    - apply (reset_then_sniffed_app [EvLogTail uname r']); auto.
    - now exists [], uname, r', h. }
  inversion Hc; subst; simpl app;
    try (simpl; exact Hh);
    try (apply reset_inv_end with (lr := l_logging_reset l); exact Hh).
  - right. right. exists h. split; [reflexivity|].
    match goal with H : l_logging_reset l = false |- _ =>
      rewrite H in Hh end. exact Hh.
  - right. left. apply Hsniffed.
  - simpl. apply Hsniffed.
Qed.

Lemma sniff_loop_reset (prev : dict string) (items : list (string * Unit))
  (l : Locals) :
  hoare (reset_inv (l_logging_reset l)) (for_each (sniff W prev) items l)
        (fun l' => reset_inv (l_logging_reset l')) reset_end.
Proof.
  apply (hoare_for_each (sniff W prev) items
           (fun l' => reset_inv (l_logging_reset l')) reset_end).
  intros item l' _. apply sniff_reset.
Qed.

Lemma check_agent_events (items : list (string * AgentStatus))
  (ready : bool) (h : trace) :
  snd (for_each (check_agent strptime) items ready h) = [].
Proof. now destruct (check_agent_loop strptime items ready h) as [-> | ->]. Qed.

Lemma evaluate_reset (status : Status) (prev : dict string) (lr : bool) :
  hoare (reset_inv lr) (evaluate W strptime status prev lr)
        (fun v => reset_inv (v_logging_reset v)) reset_end.
Proof.
  unfold evaluate.
  apply hoare_bind with (Q1 := fun _ => reset_inv lr).
  { apply hoare_untouched. intro h. rewrite check_agent_events.
    apply untouched_nil. }
  intro ready.
  apply hoare_bind with (Q1 := fun l => reset_inv (l_logging_reset l)).
  { apply (sniff_loop_reset prev _
             {| l_ready := ready; l_logs := []; l_logging_reset := lr |}). }
  intro l.
  apply hoare_bind with (Q1 := fun _ => reset_inv (l_logging_reset l)).
  { apply hoare_untouched. intro h. destruct (l_ready l).
    - apply quiet_untouched.
      eapply Forall_impl; [|apply check_leaders_events].
      apply leader_query_quiet.
    - apply untouched_nil. }
  intro ready'. apply hoare_ret. auto.
Qed.

Lemma cycle_reset (st : LoopState) :
  hoare (reset_inv (logging_reset st)) (cycle W strptime st)
        (fun n h => match n with
                    | Continue st' => reset_inv (logging_reset st') h
                    | Done _ _ => untouched h \/ reset_then_sniffed h
                    end)
        reset_end.
Proof.
  unfold cycle, observe.
  apply hoare_bind with (Q1 := fun v => reset_inv (v_logging_reset v)).
  { apply hoare_bind with (Q1 := fun _ => reset_inv (logging_reset st)).
    - apply hoare_untouched. intro h. now split.
    - intro status. apply evaluate_reset. }
  intro v.
  apply hoare_bind with (Q1 := fun _ => reset_inv (v_logging_reset v)).
  { apply hoare_untouched. intro h. unfold debounce.
    destruct (v_ready v); [|apply untouched_nil].
    destruct (ready_since st) as [t|]; unfold bind, utcnow, ret; simpl.
    - destruct (t + IDLE_CONFIRMATION <? clock W h)%Z; now split.
    - now split. }
  intros [t|since'].
  - apply hoare_ret. intros h Hh.
    destruct (v_logging_reset v); simpl in Hh; auto.
  - apply hoare_bind with (Q1 := fun _ => reset_inv (v_logging_reset v)).
    + apply hoare_untouched. intro h. now split.
    + intros _. apply hoare_ret. auto.
Qed.

Lemma wait_loop_reset (fuel : nat) (st : LoopState) (h : trace) :
  reset_inv (logging_reset st) h ->
  match fst (wait_loop W strptime fuel st h) with
  | Polling st' =>
      reset_inv (logging_reset st') (snd (wait_loop W strptime fuel st h) ++ h)
  | Returned _ _ =>
      untouched (snd (wait_loop W strptime fuel st h) ++ h) \/
      reset_then_sniffed (snd (wait_loop W strptime fuel st h) ++ h)
  | Raised e => reset_end e (snd (wait_loop W strptime fuel st h) ++ h)
  end.
Proof.
  revert st h. induction fuel as [|fuel IH]; intros st h Hh; simpl.
  - exact Hh.
  - pose proof (cycle_reset st h Hh) as Hc.
    destruct (cycle W strptime st h) as [[[t units|st']|e] ev]; simpl.
    + exact Hc.
    + specialize (IH st' (ev ++ h) Hc).
      destruct (wait_loop W strptime fuel st' (ev ++ h)) as [o ev'].
      simpl in *. now rewrite <- app_assoc.
    + exact Hc.
Qed.

(** C7: over a whole run of the poll loop (any number of turns), the
    logging configuration is reset at most once.  Either the run neither
    reset nor fetched a log tail; or it reset once, successfully, and the
    next thing it did was to fetch the first log tail of the run, with no
    reset ever after; or the reset command itself failed, which ended the
    run at once with that failure, before any log tail was fetched. *)
Theorem logging_reset_at_most_once (fuel : nat) :
  resets (snd (wait W strptime fuel)) <= 1 /\
  (untouched (snd (wait W strptime fuel)) \/
   reset_then_sniffed (snd (wait W strptime fuel)) \/
   exists e, reset_failed (snd (wait W strptime fuel)) e /\
             fst (wait W strptime fuel) = Raised e).
Proof.
  pose proof (wait_loop_reset fuel (initial) [] untouched_nil) as H.
  fold (wait W strptime fuel) in H. rewrite app_nil_r in H.
  assert (Hshape :
            untouched (snd (wait W strptime fuel)) \/
            reset_then_sniffed (snd (wait W strptime fuel)) \/
            exists e, reset_failed (snd (wait W strptime fuel)) e /\
                      fst (wait W strptime fuel) = Raised e).
  { destruct (fst (wait W strptime fuel)) as [t units|e|st'].
    - tauto.
    - destruct H as [H|[H|H]]; auto. right. right. now exists e.
    - destruct (logging_reset st'); simpl in H; auto. }
  split; [|exact Hshape].
  destruct Hshape as [[-> _]|[(later & u & r & earlier & -> & Hl & He & _)
                             |(e & (earlier & -> & He & _) & _)]].
  - auto.
  - rewrite resets_app, Hl. unfold resets in *. simpl. rewrite He. auto.
  - unfold resets in *. simpl. rewrite He. auto.
Qed.

End ResetOnce.

(** ** The parts of a verdict *)

Section Evaluate.

Variable W : World.
Variable strptime : string -> option Z.

(** A cycle that yields a verdict went through its three loops. *)
Lemma evaluate_inv (status : Status) (prev : dict string) (lr : bool)
  (h : trace) (v : Verdict) (ev : trace) :
  evaluate W strptime status prev lr h = (Ret v, ev) ->
  let c := collect status in
  let ready1 :=
    services_alive status && all_idle (sorted_items (agent_status c)) in
  exists l ev1 ev2,
    for_each (check_agent strptime) (sorted_items (agent_status c))
             (services_alive status) h = (Ret ready1, []) /\
    for_each (sniff W prev) (sorted_items (ready_units c))
             {| l_ready := ready1; l_logs := []; l_logging_reset := lr |} h
      = (Ret l, ev1) /\
    (if l_ready l
     then check_leaders W (agent_version c) (ev1 ++ h) = (Ret (v_ready v), ev2)
     else v_ready v = false /\ ev2 = []) /\
    ev = ev2 ++ ev1 /\
    v_all_units v = all_units c /\
    v_logs v = l_logs l /\
    v_logging_reset v = l_logging_reset l.
Proof.
  intros H c ready1. unfold evaluate in H. fold c in H.
  apply bind_inv in H.
  destruct H as [(e & _ & He)|(ready & ev0 & evr & H0 & H & ->)];
    [discriminate|].
  destruct (check_agent_loop strptime (sorted_items (agent_status c))
              (services_alive status) h) as [Hl|Hl];
    rewrite Hl in H0; [|discriminate].
  injection H0 as <- <-. fold ready1 in H. simpl app in H.
  apply bind_inv in H.
  destruct H as [(e & _ & He)|(l & ev1 & evr' & H1 & H & ->)];
    [discriminate|].
  apply bind_inv in H.
  destruct H as [(e & _ & He)|(ready' & ev2 & ev3 & H2 & H & ->)];
    [discriminate|].
  unfold ret in H. injection H as <- <-.
  exists l, ev1, ev2. simpl. rewrite app_nil_r.
  repeat split; trivial.
  destruct (l_ready l); [exact H2|].
  unfold ret in H2. injection H2 as <- <-. now split.
Qed.

(** *** The sniffing loop once readiness is lost *)

Lemma sniff_not_ready_step (prev : dict string) (item : string * Unit)
  (l : Locals) (h : trace) :
  l_ready l = false ->
  snd (sniff W prev item l h) = [] /\
  (fst (sniff W prev item l h) = Ret l \/
   fst (sniff W prev item l h) = Raise (JujuWaitException 1)).
Proof.
  intro Hr. destruct item as [uname unit].
  pose proof (sniff_cases W prev uname unit l h) as Hc.
  destruct (sniff W prev (uname, unit) l h) as [r ev]. simpl in *.
  assert (Hn : not_ready l = l).
  { destruct l as [rd lg rs]. unfold not_ready. simpl in *. now subst. }
  inversion Hc; subst; rewrite ?Hn; auto;
    match goal with
    | H : reaches_sniffing _ _ |- _ =>
        destruct H as (_ & _ & H); congruence
    end.
Qed.

Lemma sniff_loop_not_ready (prev : dict string)
  (items : list (string * Unit)) (l : Locals) (h : trace) :
  l_ready l = false ->
  snd (for_each (sniff W prev) items l h) = [] /\
  (fst (for_each (sniff W prev) items l h) = Ret l \/
   fst (for_each (sniff W prev) items l h) = Raise (JujuWaitException 1)).
Proof.
  intro Hr. revert h. induction items as [|item items IH]; intro h;
    cbn [for_each].
  - auto.
  - destruct (sniff_not_ready_step prev item l h Hr) as (Hev & Hres).
    unfold bind. destruct (sniff W prev item l h) as [r ev].
    simpl in Hev, Hres. subst ev.
    destruct Hres as [-> | ->]; [|auto].
    simpl app. destruct (IH h) as (Hev' & Hres').
    destruct (for_each (sniff W prev) items l h) as [r' ev'].
    simpl in *. subst ev'. auto.
Qed.

End Evaluate.

(** ** One turn of the loop, unfolded *)

Section Cycle.

Variable W : World.
Variable strptime : string -> option Z.

Lemma observe_eq (st : LoopState) (h : trace) :
  observe W strptime st h
  = match juju_status W h with
    | Ret status =>
        (fst (evaluate W strptime status (prev_logs st) (logging_reset st)
                       (EvStatus (Ret status) :: h)),
         snd (evaluate W strptime status (prev_logs st) (logging_reset st)
                       (EvStatus (Ret status) :: h))
         ++ [EvStatus (Ret status)])
    | Raise e => (Raise e, [EvStatus (Raise e)])
    end.
Proof.
  unfold observe, bind, get_status.
  destruct (juju_status W h) as [status|e]; [|reflexivity]. simpl app.
  now destruct (evaluate W strptime status (prev_logs st) (logging_reset st)
                         (EvStatus (Ret status) :: h)).
Qed.

Lemma cycle_eq (st : LoopState) (h : trace) :
  cycle W strptime st h
  = match observe W strptime st h with
    | (Raise e, evo) => (Raise e, evo)
    | (Ret v, evo) =>
        let now := clock W (evo ++ h) in
        if v_ready v then
          match ready_since st with
          | None =>
              (Ret (Continue {| prev_logs := v_logs v;
                                ready_since := Some now;
                                logging_reset := v_logging_reset v |}),
               EvSleep 4 :: EvUtcNow now :: evo)
          | Some t =>
              if (t + IDLE_CONFIRMATION <? now)%Z then
                (Ret (Done t (sorted_strings (v_all_units v))),
                 EvUtcNow now :: evo)
              else
                (Ret (Continue {| prev_logs := v_logs v;
                                  ready_since := Some t;
                                  logging_reset := v_logging_reset v |}),
                 EvSleep 4 :: EvUtcNow now :: evo)
          end
        else
          (Ret (Continue {| prev_logs := v_logs v;
                            ready_since := None;
                            logging_reset := v_logging_reset v |}),
           EvSleep 4 :: evo)
    end.
Proof.
  unfold cycle. unfold bind at 1.
  destruct (observe W strptime st h) as [[v|e] evo]; [|reflexivity].
  unfold debounce. destruct (v_ready v).
  - destruct (ready_since st) as [t|]; unfold bind, utcnow, ret, sleep;
      simpl.
    + now destruct (t + IDLE_CONFIRMATION <? clock W (evo ++ h))%Z.
    + reflexivity.
  - reflexivity.
Qed.

End Cycle.

(** ** The debounce controller *)

Section Debounce.

Variable W : World.
Variable strptime : string -> option Z.

Lemma run_snoc (n : nat) (st : LoopState) (h : trace) :
  run W strptime (S n) st h
  = match run W strptime n st h with
    | Some (st', h') =>
        match cycle W strptime st' h' with
        | (Ret (Continue st''), ev) => Some (st'', ev ++ h')
        | _ => None
        end
    | None => None
    end.
Proof.
  revert st h. induction n as [|n IH]; intros st h.
  - simpl. now destruct (cycle W strptime st h) as [[[t u|st']|e] ev].
  - change (run W strptime (S (S n)) st h)
      with (match cycle W strptime st h with
            | (Ret (Continue st'), ev) => run W strptime (S n) st' (ev ++ h)
            | _ => None
            end).
    cbn [run].
    destruct (cycle W strptime st h) as [[[t u|st']|e] ev]; trivial.
    apply IH.
Qed.

Lemma after_S (n : nat) :
  after W strptime (S n)
  = match after W strptime n with
    | Some (st', h') =>
        match cycle W strptime st' h' with
        | (Ret (Continue st''), ev) => Some (st'', ev ++ h')
        | _ => None
        end
    | None => None
    end.
Proof. apply run_snoc. Qed.

(** [wait] returns when one of its turns does. *)
Lemma wait_loop_returned (fuel : nat) (st : LoopState) (h : trace) (t : Z)
  (units : list string) :
  fst (wait_loop W strptime fuel st h) = Returned t units <->
  exists n st' h',
    n < fuel /\ run W strptime n st h = Some (st', h') /\
    fst (cycle W strptime st' h') = Ret (Done t units).
Proof.
  revert st h. induction fuel as [|fuel IH]; intros st h.
  - simpl. split; [discriminate|]. intros (n & _ & _ & Hn & _). lia.
  - cbn [wait_loop]. split.
    + intro H.
      destruct (cycle W strptime st h) as [[[t' u'|st1]|e] ev] eqn:Ec.
      * exists 0, st, h. repeat split; [lia|]. rewrite Ec.
        simpl in H. injection H as -> ->. reflexivity.
      * destruct (wait_loop W strptime fuel st1 (ev ++ h)) as [o ev'] eqn:Ew.
        simpl in H. subst o.
        destruct (proj1 (IH st1 (ev ++ h))) as (n & st' & h' & Hn & Hr & Hc).
        { now rewrite Ew. }
        exists (S n), st', h'. repeat split; [lia| |exact Hc].
        simpl. now rewrite Ec.
      * discriminate.
    + intros (n & st' & h' & Hn & Hr & Hc). destruct n as [|n].
      * simpl in Hr. injection Hr as <- <-.
        destruct (cycle W strptime st h) as [[[t' u'|st1]|e] ev];
          simpl in Hc; try discriminate.
        injection Hc as -> ->. reflexivity.
      * simpl in Hr.
        destruct (cycle W strptime st h) as [[[t' u'|st1]|e] ev];
          try discriminate.
        assert (Hw : fst (wait_loop W strptime fuel st1 (ev ++ h))
                     = Returned t units).
        { apply IH. exists n, st', h'. repeat split; trivial. lia. }
        now destruct (wait_loop W strptime fuel st1 (ev ++ h)).
Qed.

Lemma wait_returned (fuel : nat) (t : Z) (units : list string) :
  fst (wait W strptime fuel) = Returned t units <->
  exists n, n < fuel /\ returns_at W strptime n t units.
Proof.
  unfold wait, returns_at, after. rewrite wait_loop_returned. split.
  - intros (n & st & h & Hn & Hr & Hc). exists n. split; [exact Hn|].
    now exists st, h.
  - intros (n & Hn & st & h & Hr & Hc). now exists n, st, h.
Qed.

(** What [ready_since] holds on entering turn [n]. *)
Lemma ready_since_after (n : nat) (st : LoopState) (h : trace) :
  after W strptime n = Some (st, h) ->
  match ready_since st with
  | None => True
  | Some t =>
      exists j, j < n /\ since_set_at W strptime j t /\
                forall i, j < i < n -> ready_at W strptime i
  end.
Proof.
  revert st h. induction n as [|n IH]; intros st h Ha.
  - unfold after in Ha. simpl in Ha. injection Ha as <- <-. exact I.
  - rewrite after_S in Ha.
    destruct (after W strptime n) as [[st0 h0]|] eqn:E0; [|discriminate].
    specialize (IH st0 h0 eq_refl).
    rewrite cycle_eq in Ha.
    destruct (observe W strptime st0 h0) as [[v|e] evo] eqn:Eo;
      [|discriminate].
    cbv zeta in Ha. destruct (v_ready v) eqn:Ev.
    + destruct (ready_since st0) as [t|] eqn:Es.
      * destruct (t + IDLE_CONFIRMATION <? clock W (evo ++ h0))%Z;
          [discriminate|].
        injection Ha as <- <-. simpl.
        destruct IH as (j & Hj & Hset & Hbetween).
        exists j. repeat split; [lia|exact Hset|].
        intros i Hi. destruct (Nat.eq_dec i n) as [->|Hne].
        -- exists v, (clock W (evo ++ h0)). split; [|exact Ev].
           now exists st0, h0, evo.
        -- apply Hbetween. lia.
      * injection Ha as <- <-. simpl. exists n. repeat split; [lia| |].
        -- now exists st0, h0, v, evo.
        -- intros i Hi. lia.
    + injection Ha as <- <-. exact I.
Qed.

(** A ready streak keeps the time it started at. *)
Lemma streak_keeps_since (j : nat) (t : Z) (n : nat) (st : LoopState)
  (h : trace) :
  since_set_at W strptime j t -> j < n ->
  (forall i, j < i < n -> ready_at W strptime i) ->
  after W strptime n = Some (st, h) ->
  ready_since st = Some t.
Proof.
  intros (stj & hj & vj & evj & Haj & Hsj & Hoj & Hvj & Hcj) Hjn.
  revert st h. induction n as [|n IH]; intros st h Hstreak Ha; [lia|].
  rewrite after_S in Ha.
  destruct (after W strptime n) as [[st0 h0]|] eqn:E0; [|discriminate].
  rewrite cycle_eq in Ha.
  destruct (Nat.eq_dec n j) as [->|Hne].
  - rewrite Haj in E0. injection E0 as <- <-.
    rewrite Hoj in Ha. cbv zeta in Ha. rewrite Hvj, Hsj in Ha.
    injection Ha as <- <-. simpl. now rewrite Hcj.
  - assert (Hs0 : ready_since st0 = Some t).
    { apply (IH ltac:(lia) st0 h0); [|reflexivity].
      intros i Hi. apply Hstreak. lia. }
    destruct (Hstreak n ltac:(lia)) as (v & now & (st1 & h1 & evo & Ha1 & Ho1 & Hc1) & Hv).
    rewrite E0 in Ha1. injection Ha1 as <- <-.
    rewrite Ho1 in Ha. cbv zeta in Ha. rewrite Hv, Hs0 in Ha.
    destruct (t + IDLE_CONFIRMATION <? clock W (evo ++ h0))%Z eqn:Et.
    + discriminate.
    + now injection Ha as <- <-.
Qed.

(** C1 (amended): [wait] returns exactly in a turn whose verdict is
    ready, whose [ready_since] was set by an earlier ready turn [j] with
    only ready turns in between, and whose clock reading is strictly later
    than [ready_since] plus 15 seconds; and a turn whose verdict is not
    ready leaves [ready_since] unset for the next turn. *)
Theorem wait_success_iff (fuel : nat) (t : Z) (units : list string) :
  (fst (wait W strptime fuel) = Returned t units <->
   exists n j v now,
     n < fuel /\ j < n /\
     since_set_at W strptime j t /\
     (forall i, j < i < n -> ready_at W strptime i) /\
     verdict_at W strptime n v now /\ v_ready v = true /\
     (t + IDLE_CONFIRMATION < now)%Z /\
     units = sorted_strings (v_all_units v))
  /\
  (forall n st h v evo,
     after W strptime n = Some (st, h) ->
     observe W strptime st h = (Ret v, evo) ->
     v_ready v = false ->
     exists st',
       after W strptime (S n) = Some (st', EvSleep 4 :: evo ++ h) /\
       ready_since st' = None).
Proof.
  split.
  - rewrite wait_returned. split.
    + intros (n & Hn & st & h & Ha & Hc).
      rewrite cycle_eq in Hc.
      destruct (observe W strptime st h) as [[v|e] evo] eqn:Eo;
        [|discriminate].
      cbv zeta in Hc. destruct (v_ready v) eqn:Ev; [|discriminate].
      pose proof (ready_since_after n st h Ha) as Hs.
      destruct (ready_since st) as [t0|]; [|discriminate].
      destruct (t0 + IDLE_CONFIRMATION <? clock W (evo ++ h))%Z eqn:Et;
        [|discriminate].
      simpl in Hc. injection Hc as -> <-.
      destruct Hs as (j & Hj & Hset & Hbetween).
      exists n, j, v, (clock W (evo ++ h)).
      repeat split; trivial.
      * now exists st, h, evo.
      * now apply Z.ltb_lt.
    + intros (n & j & v & now & Hn & Hj & Hset & Hbetween
              & (st & h & evo & Ha & Ho & Hc) & Hv & Ht & ->).
      exists n. split; [exact Hn|]. exists st, h. split; [exact Ha|].
      rewrite cycle_eq, Ho. cbv zeta. rewrite Hv.
      rewrite (streak_keeps_since j t n st h Hset Hj Hbetween Ha).
      rewrite Hc. apply Z.ltb_lt in Ht. now rewrite Ht.
  - intros n st h v evo Ha Ho Hv. rewrite after_S, Ha, cycle_eq, Ho.
    cbv zeta. rewrite Hv. eexists. split; reflexivity.
Qed.

End Debounce.

(** C1, as stated, fails at exactly 15 seconds.  With five seconds from
    one turn to the next and nothing deployed, the fourth turn (number 3)
    is ready, [ready_since] was set by the first turn to time 0 and every
    turn since was ready, and the clock reads [ready_since] plus 15
    seconds: the turn does not return, it goes on polling. *)
Lemma ready_for_exactly_15s_not_confirmed :
  exists st h v evo,
    after five_second_world any_timestamp 3 = Some (st, h) /\
    ready_since st = Some 0%Z /\
    since_set_at five_second_world any_timestamp 0 0 /\
    ready_at five_second_world any_timestamp 1 /\
    ready_at five_second_world any_timestamp 2 /\
    observe five_second_world any_timestamp st h = (Ret v, evo) /\
    v_ready v = true /\
    clock five_second_world (evo ++ h) = (0 + IDLE_CONFIRMATION)%Z /\
    fst (cycle five_second_world any_timestamp st h) = Ret (Continue st) /\
    fst (wait five_second_world any_timestamp 4) = Polling st.
Proof.
  do 4 eexists.
  split; [vm_compute; reflexivity|].
  split; [reflexivity|].
  split.
  { do 4 eexists. split; [vm_compute; reflexivity|].
    split; [reflexivity|]. split; [vm_compute; reflexivity|].
    split; reflexivity. }
  split.
  { do 2 eexists. split.
    - do 3 eexists. split; [vm_compute; reflexivity|].
      split; [vm_compute; reflexivity|reflexivity].
    - reflexivity. }
  split.
  { do 2 eexists. split.
    - do 3 eexists. split; [vm_compute; reflexivity|].
      split; [vm_compute; reflexivity|reflexivity].
    - reflexivity. }
  split; [vm_compute; reflexivity|].
  repeat split; vm_compute; reflexivity.
Qed.

(** The same run returns one turn later, 20 seconds after the first. *)
Example five_second_world_returns :
  fst (wait five_second_world any_timestamp 5) = Returned 0 [].
Proof. vm_compute. reflexivity. Qed.

(** ** The units a cycle reports *)

(** C2: [all_units] misses the subordinates.  It holds the names of
    the top-level units and no other; for a unit "mysql/0" with a
    subordinate "nrpe/0", both are units of the document, yet [all_units]
    is "mysql/0" alone, and so is the unit list of the final log line of
    a successful run. *)
Theorem all_units_misses_subordinates :
  (forall status x,
     In x (all_units (collect status)) <-> In x (top_units status)) /\
  units_of status_with_subordinate
    = [("mysql/0", modern_unit "2.0"); ("nrpe/0", modern_unit "2.0")] /\
  subordinate_units status_with_subordinate = ["nrpe/0"] /\
  all_units (collect status_with_subordinate) = ["mysql/0"] /\
  fst (wait (calm_world status_with_subordinate 5) any_timestamp 5)
    = Returned 0 ["mysql/0"].
Proof.
  split; [exact all_units_top|].
  repeat split; vm_compute; reflexivity.
Qed.

(** ** An empty cluster *)

Section Empty.

Variable W : World.
Variable strptime : string -> option Z.

Lemma evaluate_empty (prev : dict string) (lr : bool) (h : trace) :
  evaluate W strptime empty_status prev lr h = (Ret (vacuous_verdict lr), []).
Proof. reflexivity. Qed.

Hypothesis always_empty : forall h, juju_status W h = Ret empty_status.

Lemma observe_empty (st : LoopState) (h : trace) :
  observe W strptime st h
  = (Ret (vacuous_verdict (logging_reset st)), [EvStatus (Ret empty_status)]).
Proof. rewrite observe_eq, always_empty. reflexivity. Qed.

(** Once set by the first turn, [ready_since] keeps the time of that
    turn. *)
Lemma after_empty_since (n : nat) (st : LoopState) (h : trace) :
  after W strptime (S n) = Some (st, h) ->
  ready_since st = Some (clock W [EvStatus (Ret empty_status)]).
Proof.
  revert st h. induction n as [|n IH]; intros st h Ha; rewrite after_S in Ha.
  - unfold after in Ha. cbn [run] in Ha.
    rewrite cycle_eq, observe_empty in Ha. simpl in Ha.
    now injection Ha as <- <-.
  - destruct (after W strptime (S n)) as [[st0 h0]|] eqn:E0; [|discriminate].
    specialize (IH st0 h0 eq_refl).
    rewrite cycle_eq, observe_empty in Ha. cbv zeta in Ha.
    cbn [v_ready vacuous_verdict] in Ha. rewrite IH in Ha.
    destruct (_ <? _)%Z in Ha; [discriminate|].
    now injection Ha as <- <-.
Qed.

(** [wait] returns only in a later turn, once the clock is past the time
    of the first turn by more than 15 seconds. *)
Lemma wait_empty_returned (fuel : nat) (t : Z) (units : list string) :
  fst (wait W strptime fuel) = Returned t units ->
  t = clock W [EvStatus (Ret empty_status)] /\ units = [] /\
  exists n v now,
    0 < n < fuel /\ verdict_at W strptime n v now /\
    (t + IDLE_CONFIRMATION < now)%Z.
Proof.
  intro H. apply wait_returned in H.
  destruct H as (n & Hn & st & h & Ha & Hc).
  rewrite cycle_eq, observe_empty in Hc. cbv zeta in Hc.
  cbn [v_ready vacuous_verdict] in Hc.
  destruct n as [|n].
  - unfold after in Ha. cbn [run] in Ha. injection Ha as <- <-.
    discriminate.
  - rewrite (after_empty_since n st h Ha) in Hc.
    destruct (_ <? _)%Z eqn:Et in Hc; [|discriminate].
    cbn [fst] in Hc. injection Hc as <- <-.
    repeat split.
    exists (S n), (vacuous_verdict (logging_reset st)),
           (clock W ([EvStatus (Ret empty_status)] ++ h)).
    repeat split; [lia|exact Hn| |now apply Z.ltb_lt].
    exists st, h, [EvStatus (Ret empty_status)].
    repeat split; [exact Ha|apply observe_empty].
Qed.

Lemma wait_loop_empty_set (fuel : nat) (lr : bool) (h : trace) :
  fst (wait_loop W strptime (S fuel)
         {| prev_logs := []; ready_since := None; logging_reset := lr |} h)
  = fst (wait_loop W strptime fuel
           {| prev_logs := [];
              ready_since := Some (clock W (EvStatus (Ret empty_status) :: h));
              logging_reset := lr |}
           (EvSleep 4
              :: EvUtcNow (clock W (EvStatus (Ret empty_status) :: h))
              :: EvStatus (Ret empty_status) :: h)).
Proof.
  cbn [wait_loop]. rewrite cycle_eq, observe_empty. simpl.
  now destruct (wait_loop W strptime fuel _ _).
Qed.

Lemma wait_loop_empty_pending (fuel : nat) (lr : bool) (t : Z) (h : trace) :
  (t + IDLE_CONFIRMATION <? clock W (EvStatus (Ret empty_status) :: h))%Z
    = false ->
  fst (wait_loop W strptime (S fuel)
         {| prev_logs := []; ready_since := Some t; logging_reset := lr |} h)
  = fst (wait_loop W strptime fuel
           {| prev_logs := []; ready_since := Some t; logging_reset := lr |}
           (EvSleep 4
              :: EvUtcNow (clock W (EvStatus (Ret empty_status) :: h))
              :: EvStatus (Ret empty_status) :: h)).
Proof.
  intro Ht. cbn [wait_loop]. rewrite cycle_eq, observe_empty. simpl.
  rewrite Ht. now destruct (wait_loop W strptime fuel _ _).
Qed.

Lemma wait_loop_empty_confirmed (fuel : nat) (lr : bool) (t : Z) (h : trace) :
  (t + IDLE_CONFIRMATION <? clock W (EvStatus (Ret empty_status) :: h))%Z
    = true ->
  fst (wait_loop W strptime (S fuel)
         {| prev_logs := []; ready_since := Some t; logging_reset := lr |} h)
  = Returned t [].
Proof.
  intro Ht. cbn [wait_loop]. rewrite cycle_eq, observe_empty. simpl.
  now rewrite Ht.
Qed.

Hypothesis sleep_takes_time :
  forall h h', In (EvSleep 4) h' ->
               (clock W h + 4 * 1000000 <= clock W (h' ++ h))%Z.

(** C8: a status document without services passes every readiness check,
    with no remote call; when every poll returns such a document (and
    each sleep of 4 seconds lets the clock advance by as much), [wait]
    returns within five turns, logging the time of its first turn and no
    unit; and it returns only once the debounce window has elapsed: never
    in its first turn, and only in a turn whose clock reading is more
    than 15 seconds past the reading of the first turn. *)
Theorem empty_cluster_is_steady :
  (forall prev lr h,
     evaluate W strptime empty_status prev lr h
     = (Ret (vacuous_verdict lr), [])) /\
  fst (wait W strptime 5)
  = Returned (clock W [EvStatus (Ret empty_status)]) [] /\
  (forall fuel t units,
     fst (wait W strptime fuel) = Returned t units ->
     t = clock W [EvStatus (Ret empty_status)] /\ units = [] /\
     exists n v now,
       0 < n < fuel /\ verdict_at W strptime n v now /\
       (t + IDLE_CONFIRMATION < now)%Z).
Proof.
  split; [apply evaluate_empty|]. split; [|apply wait_empty_returned].
  unfold wait, initial. rewrite wait_loop_empty_set.
  set (ev := EvStatus (Ret empty_status)).
  set (t := clock W [ev]).
  set (h1 := [EvSleep 4; EvUtcNow t; ev]).
  assert (H1 : (t + 4 * 1000000 <= clock W (ev :: h1))%Z).
  { apply (sleep_takes_time [ev] [ev; EvSleep 4; EvUtcNow t]).
    simpl. auto. }
  destruct (t + IDLE_CONFIRMATION <? clock W (ev :: h1))%Z eqn:E1;
    [now apply wait_loop_empty_confirmed|].
  rewrite (wait_loop_empty_pending _ _ _ _ E1).
  set (t1 := clock W (ev :: h1)) in *.
  set (h2 := EvSleep 4 :: EvUtcNow t1 :: ev :: h1).
  assert (H2 : (t1 + 4 * 1000000 <= clock W (ev :: h2))%Z).
  { apply (sleep_takes_time (ev :: h1) [ev; EvSleep 4; EvUtcNow t1]).
    simpl. auto. }
  destruct (t + IDLE_CONFIRMATION <? clock W (ev :: h2))%Z eqn:E2;
    [now apply wait_loop_empty_confirmed|].
  rewrite (wait_loop_empty_pending _ _ _ _ E2).
  set (t2 := clock W (ev :: h2)) in *.
  set (h3 := EvSleep 4 :: EvUtcNow t2 :: ev :: h2).
  assert (H3 : (t2 + 4 * 1000000 <= clock W (ev :: h3))%Z).
  { apply (sleep_takes_time (ev :: h2) [ev; EvSleep 4; EvUtcNow t2]).
    simpl. auto. }
  destruct (t + IDLE_CONFIRMATION <? clock W (ev :: h3))%Z eqn:E3;
    [now apply wait_loop_empty_confirmed|].
  rewrite (wait_loop_empty_pending _ _ _ _ E3).
  set (t3 := clock W (ev :: h3)) in *.
  set (h4 := EvSleep 4 :: EvUtcNow t3 :: ev :: h3).
  assert (H4 : (t3 + 4 * 1000000 <= clock W (ev :: h4))%Z).
  { apply (sleep_takes_time (ev :: h3) [ev; EvSleep 4; EvUtcNow t3]).
    simpl. auto. }
  apply wait_loop_empty_confirmed. apply Z.ltb_lt.
  change (t + IDLE_CONFIRMATION < clock W (ev :: h4))%Z.
  unfold IDLE_CONFIRMATION. lia.
Qed.

End Empty.

Lemma count_sleeps_app (a b : trace) :
  count_sleeps (a ++ b) = (count_sleeps a + count_sleeps b)%Z.
Proof. unfold count_sleeps. rewrite filter_app, length_app. lia. Qed.

Lemma count_sleeps_In (s : Z) (h : trace) :
  In (EvSleep s) h -> (1 <= count_sleeps h)%Z.
Proof.
  unfold count_sleeps. induction h as [|e h IH]; [intros []|].
  intros [->|Hin]; simpl.
  - lia.
  - specialize (IH Hin). destruct (is_sleep e); simpl; lia.
Qed.

(** In a calm world of period 4 or more, a sleep takes its time. *)
Lemma calm_world_sleeps (status : Status) (period : Z) (h h' : trace) :
  (4 <= period)%Z -> In (EvSleep 4) h' ->
  (clock (calm_world status period) h + 4 * 1000000
   <= clock (calm_world status period) (h' ++ h))%Z.
Proof.
  intros Hp Hin. simpl. rewrite count_sleeps_app.
  apply count_sleeps_In in Hin.
  assert (0 <= count_sleeps h)%Z by (unfold count_sleeps; lia).
  nia.
Qed.

(** The theorem at work: nothing deployed, four seconds a turn. *)
Lemma empty_cluster_is_steady_witness :
  (forall prev lr h,
     evaluate (calm_world empty_status 4) any_timestamp empty_status prev lr h
     = (Ret (vacuous_verdict lr), [])) /\
  fst (wait (calm_world empty_status 4) any_timestamp 5)
  = Returned (clock (calm_world empty_status 4)
                    [EvStatus (Ret empty_status)]) [] /\
  (forall fuel t units,
     fst (wait (calm_world empty_status 4) any_timestamp fuel)
     = Returned t units ->
     t = clock (calm_world empty_status 4) [EvStatus (Ret empty_status)] /\
     units = [] /\
     exists n v now,
       0 < n < fuel /\
       verdict_at (calm_world empty_status 4) any_timestamp n v now /\
       (t + IDLE_CONFIRMATION < now)%Z).
Proof.
  apply (empty_cluster_is_steady (calm_world empty_status 4) any_timestamp).
  - intro h. reflexivity.
  - intros h h'. apply calm_world_sleeps. lia.
Defined.

(** ** Legacy units: dying, in error *)

Lemma In_dict_set {V : Type} (d : dict V) (k : string) (v : V)
  (kv : string * V) :
  In kv (dict_set d k v) -> kv = (k, v) \/ In kv d.
Proof.
  induction d as [|[k' v'] d IH]; simpl.
  - intros [<-|[]]. now left.
  - destruct (String.eqb k k'); simpl.
    + intros [<-|H]; auto.
    + intros [<-|H]; auto. destruct (IH H); auto.
Qed.

Lemma collect_flat_ready_In (us : list (string * Unit)) (c : Collected)
  (item : string * Unit) :
  In item (ready_units (collect_flat c us)) ->
  In item (ready_units c) \/
  (In item us /\ u_agent_status (snd item) = None).
Proof.
  revert c. induction us as [|[u unit] us IH]; intros c H; simpl in *.
  - now left.
  - destruct (IH _ H) as [Hc|[Hin Hl]]; [|now right; split; auto].
    unfold collect_agent in Hc.
    destruct (u_agent_status unit) eqn:E; simpl in Hc; [now left|].
    apply In_dict_set in Hc. destruct Hc as [->|Hc]; [|now left].
    right. split; [now left|exact E].
Qed.

(** The units scheduled for sniffing are the legacy units of the
    document. *)
Lemma ready_units_legacy (status : Status) (item : string * Unit) :
  In item (ready_units (collect status)) ->
  In item (units_of status) /\ u_agent_status (snd item) = None.
Proof.
  destruct (collect_is_flat status) as (-> & _ & _). intro H.
  apply collect_flat_ready_In in H. destruct H as [[]|H]. exact H.
Qed.

Lemma collect_flat_ready_keys (us : list (string * Unit)) (c : Collected)
  (u : string) :
  In u (keys (ready_units c)) \/
  (exists unit, In (u, unit) us /\ u_agent_status unit = None) ->
  In u (keys (ready_units (collect_flat c us))).
Proof.
  revert c. induction us as [|[u' unit'] us IH]; intros c H; simpl.
  - destruct H as [H|(unit & [] & _)]. exact H.
  - apply IH. destruct H as [H|(unit & [Heq|Hin] & Hl)].
    + left. unfold collect_agent. destruct (u_agent_status unit'); simpl;
        trivial. apply keys_dict_set. now right.
    + injection Heq as -> ->. left. unfold collect_agent. rewrite Hl. simpl.
      apply keys_dict_set. now left.
    + right. now exists unit.
Qed.

Lemma legacy_is_scheduled (status : Status) (u : string) (unit : Unit) :
  In (u, unit) (units_of status) -> u_agent_status unit = None ->
  In u (keys (ready_units (collect status))).
Proof.
  intros Hin Hl. destruct (collect_is_flat status) as (-> & _ & _).
  apply collect_flat_ready_keys. right. now exists unit.
Qed.

Section Legacy.

Variable W : World.
Variable strptime : string -> option Z.

Lemma sniff_dying_step (prev : dict string) (uname : string) (unit : Unit)
  (l : Locals) (h : trace) :
  is_dying (u_life unit) = true ->
  sniff W prev (uname, unit) l h = (Ret (not_ready l), []).
Proof. intro H. unfold sniff. now rewrite H. Qed.

Lemma sniff_loop_dying (prev : dict string) (items : list (string * Unit))
  (l : Locals) (h : trace) :
  (forall item, In item items -> is_dying (u_life (snd item)) = true) ->
  items <> [] ->
  for_each (sniff W prev) items l h = (Ret (not_ready l), []).
Proof.
  revert l. induction items as [|[uname unit] items IH]; intros l Hd Hne;
    [congruence|].
  cbn [for_each].
  rewrite (bind_ret _ _ _ _ _
             (sniff_dying_step prev uname unit l h
                (Hd (uname, unit) (or_introl eq_refl)))).
  simpl app. destruct items as [|item items].
  - reflexivity.
  - rewrite IH; [reflexivity| |discriminate].
    intros it Hit. apply Hd. now right.
Qed.

(** C9: a legacy unit that is dying or dead does not raise, whatever its
    agent-state, "error" included: its turn of the sniffing loop only sets
    [ready] to false, with no remote call.  And when the legacy units of
    the document are all dying or dead, one of them in error, the cycle
    ends not ready, sleeps and goes on polling with [ready_since]
    unset. *)
Theorem dying_unit_in_error_is_not_fatal :
  (forall prev uname unit l h,
     is_dying (u_life unit) = true ->
     u_agent_state unit = Some "error" ->
     sniff W prev (uname, unit) l h = (Ret (not_ready l), [])) /\
  (forall st h status u unit,
     juju_status W h = Ret status ->
     all_parse strptime (agent_status (collect status)) ->
     In (u, unit) (units_of status) ->
     u_agent_status unit = None ->
     u_agent_state unit = Some "error" ->
     (forall u' unit',
        In (u', unit') (units_of status) -> u_agent_status unit' = None ->
        is_dying (u_life unit') = true) ->
     cycle W strptime st h
     = (Ret (Continue {| prev_logs := []; ready_since := None;
                         logging_reset := logging_reset st |}),
        [EvSleep 4; EvStatus (Ret status)])).
Proof.
  split.
  - intros prev uname unit l h Hd _. now apply sniff_dying_step.
  - intros st h status u unit Hs Hp Hin Hl He Hall.
    assert (Hp' : all_parse strptime
                    (sorted_items (agent_status (collect status)))).
    { intros it Hit. apply Hp. exact (proj1 (sorted_items_In _ it) Hit). }
    assert (Hd : forall item,
               In item (sorted_items (ready_units (collect status))) ->
               is_dying (u_life (snd item)) = true).
    { intros [u' unit'] Hit. apply (proj1 (sorted_items_In _ _)) in Hit.
      apply ready_units_legacy in Hit. destruct Hit as (Hit & Hl').
      now apply (Hall u' unit'). }
    assert (Hne : sorted_items (ready_units (collect status)) <> []).
    { intro Hnil.
      pose proof (legacy_is_scheduled status u unit Hin Hl) as Hk.
      unfold keys in Hk. apply in_map_iff in Hk.
      destruct Hk as (it & _ & Hit).
      apply (proj2 (sorted_items_In _ _)) in Hit.
      rewrite Hnil in Hit. destruct Hit. }
    rewrite cycle_eq, observe_eq, Hs. unfold evaluate.
    rewrite (bind_ret _ _ _ _ _
               (check_agent_loop_parse strptime _ _ _ Hp')).
    simpl app.
    rewrite (bind_ret _ _ _ _ _
               (sniff_loop_dying (prev_logs st) _ _ _ Hd Hne)).
    reflexivity.
Qed.

End Legacy.

(** The theorem at work: a dying unit in error, and [wait] still polls
    after three turns, never ready. *)
Example dying_in_error_keeps_polling :
  fst (wait (calm_world status_dying_in_error 5) any_timestamp 3)
  = Polling {| prev_logs := []; ready_since := None;
               logging_reset := false |}.
Proof. vm_compute. reflexivity. Qed.

Section Fatal.

Variable W : World.
Variable strptime : string -> option Z.

Lemma sniff_loop_error (prev : dict string) (items : list (string * Unit))
  (l : Locals) (h : trace) :
  (exists item, In item items /\ in_error (snd item)) ->
  exists e ev,
    for_each (sniff W prev) items l h = (Raise e, ev) /\
    (existsb is_failure ev = false -> e = JujuWaitException 1).
Proof.
  revert l h. induction items as [|[uname unit] items IH];
    intros l h (item & Hin & Herr); [destruct Hin|].
  cbn [for_each].
  pose proof (sniff_cases W prev uname unit l h) as Hc.
  destruct (sniff W prev (uname, unit) l h) as [r ev1] eqn:Es.
  simpl in Hc.
  assert (Htail : forall l1, r = Ret l1 ->
            exists item', In item' items /\ in_error (snd item')).
  { intros l1 ->. destruct Hin as [<-|Hin]; [|now exists item].
    exfalso. destruct Herr as (_ & Hd & He). simpl in Hd, He.
    inversion Hc; subst;
      try match goal with
          | H : reaches_sniffing _ _ |- _ => destruct H as (_ & H & _)
          end; congruence. }
  destruct r as [l1|e].
  - destruct (IH l1 (ev1 ++ h) (Htail l1 eq_refl)) as (e & ev2 & Hl & He).
    exists e, (ev2 ++ ev1). split.
    + rewrite (bind_ret _ _ _ _ _ Es), Hl. reflexivity.
    + rewrite existsb_app. intro Hf. apply orb_false_elim in Hf.
      now apply He.
  - exists e, ev1. split; [apply (bind_raise _ _ _ _ _ Es)|].
    inversion Hc; subst; simpl; trivial; discriminate.
Qed.

(** C3 (amended): when the document (its unit names distinct) holds a
    legacy unit that is neither dying nor dead and whose agent-state is
    "error", the evaluation yields no verdict but raises, and so does the
    cycle; unless an agent-status timestamp does not parse or a remote
    command of the cycle has failed, the exception is
    [JujuWaitException(1)], exit code 1, whatever the other units. *)
Theorem legacy_error_is_fatal (status : Status) (st : LoopState) (h : trace)
  (u : string) (unit : Unit) :
  NoDup (keys (units_of status)) ->
  In (u, unit) (units_of status) ->
  in_error unit ->
  (exists e ev,
     evaluate W strptime status (prev_logs st) (logging_reset st) h
     = (Raise e, ev) /\
     (all_parse strptime (agent_status (collect status)) ->
      existsb is_failure ev = false ->
      e = JujuWaitException 1 /\ exit_code (Raised e) = Some 1%Z)) /\
  (juju_status W h = Ret status ->
   exists e ev,
     cycle W strptime st h = (Raise e, ev) /\
     (all_parse strptime (agent_status (collect status)) ->
      existsb is_failure ev = false ->
      e = JujuWaitException 1 /\ exit_code (Raised e) = Some 1%Z)).
Proof.
  intros Hnd Hin Herr.
  assert (Hev : forall h',
             exists e ev,
               evaluate W strptime status (prev_logs st) (logging_reset st) h'
               = (Raise e, ev) /\
               (all_parse strptime (agent_status (collect status)) ->
                existsb is_failure ev = false ->
                e = JujuWaitException 1 /\
                exit_code (Raised e) = Some 1%Z)).
  { intro h'. unfold evaluate.
    destruct (check_agent_loop strptime
                (sorted_items (agent_status (collect status)))
                (services_alive status) h') as [Hl|Hl].
    - assert (Hitem : exists item,
                 In item (sorted_items (ready_units (collect status))) /\
                 in_error (snd item)).
      { exists (u, unit). split; [|exact Herr].
        apply sorted_items_In. apply dict_get_In.
        destruct (collect_get status u unit Hnd Hin) as (_ & Hg).
        destruct Herr as (Hn & _). now rewrite Hn in Hg. }
      destruct (sniff_loop_error (prev_logs st) _
                  {| l_ready := services_alive status
                                && all_idle (sorted_items
                                               (agent_status (collect status)));
                     l_logs := [];
                     l_logging_reset := logging_reset st |}
                  h' Hitem) as (e & ev & Hs & He).
      exists e, ev. split.
      + rewrite (bind_ret_nil _ _ _ _ Hl).
        apply (bind_raise _ _ _ _ _ Hs).
      + intros _ Hf. rewrite (He Hf). now split.
    - exists ValueError, []. split; [apply (bind_raise _ _ _ _ _ Hl)|].
      intros Hp _. exfalso.
      rewrite check_agent_loop_parse in Hl; [discriminate|].
      intros it Hit. apply Hp. exact (proj1 (sorted_items_In _ it) Hit). }
  split; [apply Hev|].
  intro Hs. destruct (Hev (EvStatus (Ret status) :: h)) as (e & ev & He & Hc).
  exists e, (ev ++ [EvStatus (Ret status)]). split.
  - rewrite cycle_eq, observe_eq, Hs, He. reflexivity.
  - intros Hp Hf. apply Hc; [exact Hp|].
    rewrite existsb_app in Hf. now apply orb_false_elim in Hf.
Qed.

End Fatal.

(** The theorem at work: the only unit is a legacy unit in error; the
    first turn raises [JujuWaitException(1)]. *)
Lemma legacy_error_is_fatal_witness :
  (exists e ev,
     evaluate (calm_world status_in_error 5) any_timestamp status_in_error
              (prev_logs initial) (logging_reset initial) []
     = (Raise e, ev) /\
     (all_parse any_timestamp (agent_status (collect status_in_error)) ->
      existsb is_failure ev = false ->
      e = JujuWaitException 1 /\ exit_code (Raised e) = Some 1%Z)) /\
  (juju_status (calm_world status_in_error 5) [] = Ret status_in_error ->
   exists e ev,
     cycle (calm_world status_in_error 5) any_timestamp initial []
     = (Raise e, ev) /\
     (all_parse any_timestamp (agent_status (collect status_in_error)) ->
      existsb is_failure ev = false ->
      e = JujuWaitException 1 /\ exit_code (Raised e) = Some 1%Z)).
Proof.
  apply (legacy_error_is_fatal (calm_world status_in_error 5) any_timestamp
           status_in_error initial [] "mysql/0" (legacy_unit None "error")).
  - simpl. constructor; [intros []|constructor].
  - simpl. now left.
  - repeat split.
Defined.

Example legacy_error_exit_code :
  fst (wait (calm_world status_in_error 5) any_timestamp 1)
  = Raised (JujuWaitException 1).
Proof. vm_compute. reflexivity. Qed.

(** C3, as stated, fails for a legacy unit in error that is dying: the
    evaluation raises nothing and yields a verdict, not ready. *)
Lemma dying_unit_in_error_yields_verdict :
  In ("mysql/0", legacy_unit (Some "dying") "error")
     (units_of status_dying_in_error) /\
  u_agent_status (legacy_unit (Some "dying") "error") = None /\
  u_agent_state (legacy_unit (Some "dying") "error") = Some "error" /\
  evaluate (calm_world status_dying_in_error 5) any_timestamp
           status_dying_in_error [] false []
  = (Ret {| v_ready := false; v_all_units := ["mysql/0"]; v_logs := [];
            v_logging_reset := false |}, []).
Proof. repeat split; vm_compute; auto. Qed.

(** ** Modern units: agent-status *)

Lemma all_idle_In (items : list (string * AgentStatus)) (u : string)
  (a : AgentStatus) :
  all_idle items = true -> In (u, a) items -> current a = "idle".
Proof.
  unfold all_idle. rewrite forallb_forall. intros H Hin.
  apply String.eqb_eq. apply (H (u, a) Hin).
Qed.

(** ** The log-tail cache *)

Lemma log_tail_dec (u : string) (ev : trace) :
  (exists a, In (EvLogTail u a) ev) \/ (forall a, ~ In (EvLogTail u a) ev).
Proof.
  induction ev as [|e ev [(a & Ha)|IH]].
  - right. intros a [].
  - left. exists a. now right.
  - destruct e as [r|r|u' r|u' r|t|s];
      try (right; intros a [Ha|Ha]; [discriminate|now apply (IH a)]).
    destruct (string_dec u' u) as [->|Hne].
    + left. exists r. now left.
    + right. intros a [Ha|Ha]; [congruence|now apply (IH a)].
Qed.

Lemma In_log_tail_reset_due (u u0 : string) (a r : result string)
  (l : Locals) :
  In (EvLogTail u a) (EvLogTail u0 r :: reset_due l) -> u = u0 /\ a = r.
Proof.
  intros [H|H].
  - now injection H as -> ->.
  - unfold reset_due in H. destruct (l_logging_reset l); simpl in H;
      [destruct H|destruct H as [H|[]]; discriminate].
Qed.

Lemma leader_query_not_log_tail (ev : trace) (u : string)
  (a : result string) :
  Forall is_leader_query ev -> ~ In (EvLogTail u a) ev.
Proof.
  intros Hf Hin. rewrite Forall_forall in Hf.
  destruct (Hf _ Hin) as (u' & r & He). discriminate.
Qed.

Section Cache.

Variable W : World.
Variable strptime : string -> option Z.

Lemma sniff_events_unit (prev : dict string) (u0 : string) (unit : Unit)
  (l : Locals) (r : result Locals) (ev : trace) :
  sniff_spec prev u0 unit l r ev ->
  forall u a, In (EvLogTail u a) ev -> u = u0 /\ l_ready l = true.
Proof.
  intros Hc u a Hin.
  inversion Hc; subst; try (now destruct Hin);
    match goal with
    | H : reaches_sniffing _ _ |- _ => destruct H as (_ & _ & Hr)
    end.
  - apply In_log_tail_reset_due in Hin. now destruct Hin.
  - apply In_log_tail_reset_due in Hin. now destruct Hin.
Qed.

Lemma sniff_ret_cases (prev : dict string) (u0 : string) (unit : Unit)
  (l l1 : Locals) (ev : trace) :
  sniff_spec prev u0 unit l (Ret l1) ev ->
  (ev = [] /\ l_logs l1 = l_logs l /\
   (l_ready l1 = true -> l_ready l = true)) \/
  (exists line,
      ev = EvLogTail u0 (Ret line) :: reset_due l /\
      l_ready l1 = opt_eqb (Some line) (dict_get prev u0) /\
      l_logs l1 = dict_set (l_logs l) u0 line /\
      l_ready l = true).
Proof.
  intro Hc. inversion Hc; subst; simpl;
    try (left; repeat split; trivial; discriminate).
  right. exists line.
  match goal with
  | H : reaches_sniffing _ _ |- _ => destruct H as (_ & _ & Hr)
  end.
  now repeat split.
Qed.

Lemma sniff_loop_logs (prev : dict string) (items : list (string * Unit))
  (l : Locals) (h : trace) (r : result Locals) (ev : trace) :
  NoDup (keys items) ->
  for_each (sniff W prev) items l h = (r, ev) ->
  (forall u a, In (EvLogTail u a) ev -> In u (keys items)) /\
  (forall l', r = Ret l' ->
     (l_ready l' = true -> l_ready l = true) /\
     (forall u a, In (EvLogTail u a) ev ->
        exists line,
          a = Ret line /\ dict_get (l_logs l') u = Some line /\
          (l_ready l' = true -> dict_get prev u = Some line)) /\
     (forall u, (forall a, ~ In (EvLogTail u a) ev) ->
        dict_get (l_logs l') u = dict_get (l_logs l) u)).
Proof.
  revert l h r ev. induction items as [|[u0 unit] items IH];
    intros l h r ev Hnd Hloop.
  - simpl in Hloop. injection Hloop as <- <-.
    split; [intros u a []|]. intros l' [= <-].
    repeat split; trivial. intros u a [].
  - simpl in Hnd. inversion Hnd as [|? ? Hnin Hnd']; subst.
    cbn [for_each] in Hloop. apply bind_inv in Hloop.
    destruct Hloop as [(e & Hs & ->)|(l1 & ev1 & ev2 & Hs & Hrest & ->)].
    + apply sniff_inv in Hs. split; [|discriminate].
      intros u a Hin.
      destruct (sniff_events_unit _ _ _ _ _ _ Hs u a Hin) as (-> & _).
      now left.
    + apply sniff_inv in Hs.
      destruct (IH l1 (ev1 ++ h) r ev2 Hnd' Hrest) as (Hkeys & Hret).
      split.
      * intros u a Hin. apply in_app_or in Hin. destruct Hin as [Hin|Hin].
        -- right. now apply (Hkeys u a).
        -- destruct (sniff_events_unit _ _ _ _ _ _ Hs u a Hin) as (-> & _).
           now left.
      * intros l' ->. destruct (Hret l' eq_refl) as (Hready & Hsn & Hno).
        assert (Hno0 : forall a, ~ In (EvLogTail u0 a) ev2).
        { intros a Hin. apply Hnin. now apply (Hkeys u0 a). }
        destruct (sniff_ret_cases _ _ _ _ _ _ Hs)
          as [(-> & Hlogs & Hr1)|(line & -> & Hr1 & Hlogs & Hrl)].
        -- rewrite app_nil_r. repeat split.
           ++ auto.
           ++ exact Hsn.
           ++ intros u Hu. now rewrite (Hno u Hu), Hlogs.
        -- repeat split.
           ++ auto.
           ++ intros u a Hin. apply in_app_or in Hin.
              destruct Hin as [Hin|Hin]; [now apply Hsn|].
              apply In_log_tail_reset_due in Hin. destruct Hin as (-> & ->).
              exists line. repeat split.
              ** rewrite (Hno u0 Hno0), Hlogs. apply dict_get_set_same.
              ** intro Hr'. apply Hready in Hr'. rewrite Hr1 in Hr'.
                 apply opt_eqb_eq in Hr'. now symmetry.
           ++ intros u Hu.
              assert (Hne : u0 <> u).
              { intros ->. apply (Hu (Ret line)). apply in_or_app. right.
                now left. }
              rewrite (Hno u), Hlogs.
              ** now apply dict_get_set_other.
              ** intros a Hin. apply (Hu a). apply in_or_app. now left.
Qed.

(** The cache a verdict hands over, and what a ready verdict implies. *)
Lemma evaluate_logs (status : Status) (prev : dict string) (lr : bool)
  (h : trace) (v : Verdict) (ev : trace) :
  evaluate W strptime status prev lr h = (Ret v, ev) ->
  (forall u line,
     dict_get (v_logs v) u = Some line <-> In (EvLogTail u (Ret line)) ev) /\
  (forall u a, In (EvLogTail u a) ev ->
     exists line, a = Ret line /\
                  (v_ready v = true -> dict_get prev u = Some line)).
Proof.
  intro He. apply evaluate_inv in He. cbv zeta in He.
  destruct He as (l & ev1 & ev2 & _ & Hs & Hr & -> & _ & Hlogs & _).
  assert (Hnd : NoDup (keys (sorted_items (ready_units (collect status))))).
  { apply sorted_items_NoDup. apply collect_keys. }
  destruct (sniff_loop_logs _ _ _ _ _ _ Hnd Hs) as (_ & Hret).
  destruct (Hret l eq_refl) as (_ & Hsn & Hno). simpl in Hno.
  assert (Hev2 : Forall is_leader_query ev2).
  { destruct (l_ready l).
    - pose proof (check_leaders_events W (agent_version (collect status))
                    (ev1 ++ h)) as Hq.
      now rewrite Hr in Hq.
    - destruct Hr as (_ & ->). constructor. }
  assert (Hin1 : forall u a, In (EvLogTail u a) (ev2 ++ ev1) ->
                             In (EvLogTail u a) ev1).
  { intros u a Hin. apply in_app_or in Hin. destruct Hin as [Hin|Hin];
      [|exact Hin]. now apply leader_query_not_log_tail in Hin. }
  assert (Hrl : v_ready v = true -> l_ready l = true).
  { destruct (l_ready l); [reflexivity|]. destruct Hr as (-> & _).
    discriminate. }
  split.
  - intros u line. rewrite Hlogs. split.
    + intro Hg. destruct (log_tail_dec u ev1) as [(a & Ha)|Hnone].
      * destruct (Hsn u a Ha) as (line' & -> & Hg' & _).
        rewrite Hg in Hg'. injection Hg' as ->.
        apply in_or_app. now right.
      * rewrite (Hno u Hnone) in Hg. discriminate.
    + intro Hin. apply Hin1 in Hin.
      destruct (Hsn u _ Hin) as (line' & [= <-] & Hg & _). exact Hg.
  - intros u a Hin. apply Hin1 in Hin.
    destruct (Hsn u a Hin) as (line & -> & _ & Hp).
    exists line. split; [reflexivity|]. intro Hv. now apply Hp, Hrl.
Qed.

(** The events of a turn that goes on, around those of its evaluation. *)
Lemma cycle_continue_inv (st st' : LoopState) (h : trace) (ev : trace) :
  cycle W strptime st h = (Ret (Continue st'), ev) ->
  exists status v evv,
    juju_status W h = Ret status /\
    evaluate W strptime status (prev_logs st) (logging_reset st)
             (EvStatus (Ret status) :: h) = (Ret v, evv) /\
    prev_logs st' = v_logs v /\
    logging_reset st' = v_logging_reset v /\
    (forall u a, In (EvLogTail u a) ev <-> In (EvLogTail u a) evv).
Proof.
  rewrite cycle_eq, observe_eq.
  destruct (juju_status W h) as [status|e]; [|discriminate].
  destruct (evaluate W strptime status (prev_logs st) (logging_reset st)
                     (EvStatus (Ret status) :: h)) as [[v|e] evv] eqn:Ee;
    [|discriminate].
  cbv beta iota zeta delta [fst snd]. intro H.
  exists status, v, evv.
  assert (Hin : forall pre u a,
             (forall e, In e pre -> is_sniff e = false) ->
             (In (EvLogTail u a) (pre ++ evv ++ [EvStatus (Ret status)])
              <-> In (EvLogTail u a) evv)).
  { intros pre u a Hpre. rewrite !in_app_iff. split.
    - intros [Hp|[Hv|[Hs|[]]]]; [|exact Hv|discriminate].
      apply Hpre in Hp. discriminate.
    - auto. }
  revert H. destruct (v_ready v).
  - destruct (ready_since st) as [t|].
    + destruct (t + IDLE_CONFIRMATION
                <? clock W ((evv ++ [EvStatus (Ret status)]) ++ h))%Z;
        [discriminate|].
      intros [= <- <-]. repeat split; trivial;
        apply (Hin [EvSleep 4; EvUtcNow _]);
        intros e [<-|[<-|[]]]; reflexivity.
    + intros [= <- <-]. repeat split; trivial;
        apply (Hin [EvSleep 4; EvUtcNow _]);
        intros e [<-|[<-|[]]]; reflexivity.
  - intros [= <- <-]. repeat split; trivial;
      apply (Hin [EvSleep 4]); intros e [<-|[]]; reflexivity.
Qed.

End Cache.

(** ** Sniffing stops when readiness is lost *)

Section Skipped.

Variable W : World.
Variable strptime : string -> option Z.

(** The sniffing loop when [ready] is false from some unit on. *)
Lemma sniff_loop_lost (prev : dict string)
  (before rest : list (string * Unit)) (l l1 : Locals) (h ev1 : trace) :
  for_each (sniff W prev) before l h = (Ret l1, ev1) ->
  l_ready l1 = false ->
  for_each (sniff W prev) (before ++ rest) l h = (Ret l1, ev1) \/
  for_each (sniff W prev) (before ++ rest) l h
    = (Raise (JujuWaitException 1), ev1).
Proof.
  intros Hb Hr. rewrite for_each_app, (bind_ret _ _ _ _ _ Hb).
  destruct (sniff_loop_not_ready W prev rest l1 (ev1 ++ h) Hr)
    as (-> & [-> | ->]); auto.
Qed.

(** C10: a log tail is fetched for a legacy unit only if [ready] is
    still true when the sniffing loop reaches it; when [ready] is false
    after the units that come before it in sorted order, the cycle
    fetches no log tail for it and its verdict, not ready, has no cache
    entry for it; a unit for which a cycle fetched no log tail has no
    entry in the cache of the next cycle; and a cycle that fetches the
    log tail of a unit without a cache entry is not ready. *)
Theorem sniffing_needs_readiness :
  (forall prev uname unit l h u a,
     In (EvLogTail u a) (snd (sniff W prev (uname, unit) l h)) ->
     u = uname /\ l_ready l = true) /\
  (forall status prev lr h before uname unit rest l1 ev1,
     sorted_items (ready_units (collect status))
     = before ++ (uname, unit) :: rest ->
     for_each (sniff W prev) before
       {| l_ready := services_alive status
                     && all_idle (sorted_items
                                    (agent_status (collect status)));
          l_logs := []; l_logging_reset := lr |} h = (Ret l1, ev1) ->
     l_ready l1 = false ->
     (forall a,
        ~ In (EvLogTail uname a)
             (snd (evaluate W strptime status prev lr h))) /\
     (forall v,
        fst (evaluate W strptime status prev lr h) = Ret v ->
        v_ready v = false /\ dict_get (v_logs v) uname = None)) /\
  (forall st h st' ev uname,
     cycle W strptime st h = (Ret (Continue st'), ev) ->
     (forall a, ~ In (EvLogTail uname a) ev) ->
     dict_get (prev_logs st') uname = None) /\
  (forall status prev lr h v ev uname a,
     evaluate W strptime status prev lr h = (Ret v, ev) ->
     dict_get prev uname = None ->
     In (EvLogTail uname a) ev ->
     v_ready v = false).
Proof.
  split; [|split; [|split]].
  - intros prev uname unit l h u a Hin.
    apply (sniff_events_unit prev uname unit l _ _
             (sniff_cases W prev uname unit l h) u a Hin).
  - intros status prev lr h before uname unit rest l1 ev1 Hsplit Hb Hr.
    assert (Hnd : NoDup (keys (before ++ (uname, unit) :: rest))).
    { rewrite <- Hsplit. apply sorted_items_NoDup. apply collect_keys. }
    assert (Hnb : ~ In uname (keys before)).
    { unfold keys in *. rewrite map_app in Hnd. simpl in Hnd.
      apply NoDup_remove_2 in Hnd. intro Hin. apply Hnd.
      apply in_or_app. now left. }
    assert (Hndb : NoDup (keys before)).
    { unfold keys in *. rewrite map_app in Hnd.
      now apply NoDup_app_remove_r in Hnd. }
    destruct (sniff_loop_logs W prev before _ h _ _ Hndb Hb)
      as (Hkeys & Hret).
    destruct (Hret l1 eq_refl) as (_ & _ & Hno). simpl in Hno.
    assert (Hnone : forall a, ~ In (EvLogTail uname a) ev1).
    { intros a Hin. apply Hnb. now apply (Hkeys uname a). }
    unfold evaluate.
    destruct (check_agent_loop strptime
                (sorted_items (agent_status (collect status)))
                (services_alive status) h) as [Hl|Hl].
    + rewrite (bind_ret_nil _ _ _ _ Hl), Hsplit.
      destruct (sniff_loop_lost prev before ((uname, unit) :: rest)
                  _ l1 h ev1 Hb Hr) as [Hloop|Hloop].
      * rewrite (bind_ret _ _ _ _ _ Hloop). rewrite Hr.
        unfold bind, ret. simpl. split; [exact Hnone|].
        intros v [= <-]. simpl. split; [reflexivity|].
        now apply Hno.
      * rewrite (bind_raise _ _ _ _ _ Hloop). simpl.
        split; [exact Hnone|discriminate].
    + rewrite (bind_raise _ _ _ _ _ Hl). simpl.
      split; [intros a []|discriminate].
  - intros st h st' ev uname Hc Hnone.
    destruct (cycle_continue_inv W strptime _ _ _ _ Hc)
      as (status & v & evv & _ & He & -> & _ & Hin).
    destruct (evaluate_logs W strptime _ _ _ _ _ _ He) as (Hlogs & _).
    destruct (dict_get (v_logs v) uname) as [line|] eqn:E; [|reflexivity].
    exfalso. apply (Hnone (Ret line)). apply Hin. now apply Hlogs.
  - intros status prev lr h v ev uname a He Hprev Hin.
    destruct (evaluate_logs W strptime _ _ _ _ _ _ He) as (_ & Hp).
    destruct (Hp uname a Hin) as (line & _ & Hready).
    destruct (v_ready v); [|reflexivity].
    rewrite (Hready eq_refl) in Hprev. discriminate.
Qed.

End Skipped.

(** ** Leadership *)

Lemma ge_1_23_nonempty (v : string) :
  LooseVersion.ge v "1.23" = Ret true -> v <> "".
Proof. intros H ->. vm_compute in H. discriminate. Qed.

(** The goals left once a turn has marked the service as led. *)
Ltac leader_marked v :=
  repeat split; auto;
  try (intros ? Hs; apply set_add_str_In; now right);
  try (intros; apply set_add_str_In; now left);
  try (intros s Hs; apply set_add_str_In in Hs;
       destruct Hs as [->|Hs];
       [right; split; [reflexivity|]; exists v; split; [reflexivity|];
        first [now left | right; now left]
       |now left]).

Section Leadership.

Variable W : World.

(** What one turn of the leadership loop does, whatever its case. *)
Lemma leader_step_facts (uname : string) (version : option string)
  (services leaders : set string) (h : trace)
  (r : result (set string * set string)) (ev : trace) :
  leader_spec W h uname version services leaders r ev ->
  (forall u a,
     In (EvIsLeader u a) ev ->
     u = uname /\
     exists v, version = Some v /\ v <> "" /\
               LooseVersion.ge v "1.23" = Ret false) /\
  (forall services' leaders',
     r = Ret (services', leaders') ->
     services' = set_add_str (service_of uname) services /\
     (forall s, In s leaders -> In s leaders') /\
     (forall v, version = Some v -> LooseVersion.ge v "1.23" = Ret true ->
                In (service_of uname) leaders') /\
     (In (EvIsLeader uname (Ret (JBool true))) ev ->
      In (service_of uname) leaders') /\
     (forall s, In s leaders' ->
        In s leaders \/
        (s = service_of uname /\
         exists v, version = Some v /\
                   (LooseVersion.ge v "1.23" = Ret true \/
                    In (EvIsLeader uname (Ret (JBool true))) ev)))).
Proof.
  intro Hc.
  inversion Hc as [Hm|Hm Hv|v e Hm Hv Hne Hge|v Hm Hv Hne Hge
                   |v Hm Hv Hne Hge Ha|v answer Hm Hv Hne Hge Ha Hna
                   |v e Hm Hv Hne Hge Ha]; subst.
  - split; [intros u a []|]. intros s' l' [= <- <-].
    apply set_mem_str_In in Hm. repeat split; auto; intros [].
  - split; [intros u a []|]. intros s' l' [= <- <-].
    repeat split; auto; try (intros []; fail).
    intros v -> Hge. apply ge_1_23_nonempty in Hge.
    destruct Hv as [Hv|Hv]; congruence.
  - split; [intros u a []|discriminate].
  - split; [intros u a []|]. intros s' l' [= <- <-].
    leader_marked v.
  - split.
    + intros u a [[= <- <-]|[]]. split; [reflexivity|]. now exists v.
    + intros s' l' [= <- <-]. leader_marked v.
  - split.
    + intros u a [[= <- <-]|[]]. split; [reflexivity|]. now exists v.
    + intros s' l' [= <- <-].
      repeat split; auto; try (intros [[= ->]|[]]; congruence).
      intros v' [= <-] Hge'. congruence.
  - split; [|discriminate].
    intros u a [[= <- <-]|[]]. split; [reflexivity|]. now exists v.
Qed.

Lemma leader_loop_spec (items : list (string * option string)) :
  forall services leaders h r ev,
    for_each (leader_step W) items (services, leaders) h = (r, ev) ->
    (forall u a,
       In (EvIsLeader u a) ev ->
       exists v, In (u, Some v) items /\ v <> "" /\
                 LooseVersion.ge v "1.23" = Ret false) /\
    (forall services' leaders',
       r = Ret (services', leaders') ->
       (forall s, In s leaders -> In s leaders') /\
       (forall s, In s services' <->
                  In s services \/
                  exists u, In u (keys items) /\ service_of u = s) /\
       (forall u v, In (u, Some v) items ->
                    LooseVersion.ge v "1.23" = Ret true ->
                    In (service_of u) leaders') /\
       (forall u, In (EvIsLeader u (Ret (JBool true))) ev ->
                  In (service_of u) leaders') /\
       (forall s, In s leaders' ->
          In s leaders \/
          exists u v,
            In (u, Some v) items /\ service_of u = s /\
            (LooseVersion.ge v "1.23" = Ret true \/
             In (EvIsLeader u (Ret (JBool true))) ev))).
Proof.
  induction items as [|[uname version] items IH];
    intros services leaders h r ev Hloop.
  - simpl in Hloop. injection Hloop as <- <-.
    split; [intros u a []|]. intros s' l' [= <- <-].
    repeat split; auto.
    + intros [Hs|(u & [] & _)]. exact Hs.
    + intros u v [].
    + intros u [].
  - cbn [for_each] in Hloop. apply bind_inv in Hloop.
    pose proof (leader_cases W uname version services leaders h) as Hc.
    destruct Hloop
      as [(e & Hs & ->)|([s1 l1] & ev1 & ev2 & Hs & Hrest & ->)];
      rewrite Hs in Hc; simpl in Hc;
      destruct (leader_step_facts _ _ _ _ _ _ _ Hc) as (Hq & Hret).
    + split; [|discriminate].
      intros u a Hin. destruct (Hq u a Hin) as (-> & v & -> & Hne & Hge).
      exists v. repeat split; trivial. now left.
    + destruct (Hret s1 l1 eq_refl) as (-> & Hmono & Hnew & Hel & Hwhy).
      destruct (IH _ _ _ _ _ Hrest) as (Hq2 & Hret2).
      split.
      * intros u a Hin. apply in_app_or in Hin. destruct Hin as [Hin|Hin].
        -- destruct (Hq2 u a Hin) as (v & Hv & Hne & Hge).
           exists v. repeat split; trivial. now right.
        -- destruct (Hq u a Hin) as (-> & v & -> & Hne & Hge).
           exists v. repeat split; trivial. now left.
      * intros services' leaders' ->.
        destruct (Hret2 services' leaders' eq_refl)
          as (Hmono2 & Hsvc2 & Hnew2 & Hel2 & Hwhy2).
        repeat split.
        -- auto.
        -- intro Hs'. apply Hsvc2 in Hs'.
           destruct Hs' as [Hs'|(u & Hu & Hsu)].
           ++ apply set_add_str_In in Hs'. destruct Hs' as [->|Hs']; auto.
              right. exists uname. split; [now left|reflexivity].
           ++ right. exists u. split; [now right|exact Hsu].
        -- intros [Hs'|(u & [<-|Hu] & Hsu)]; apply Hsvc2.
           ++ left. apply set_add_str_In. now right.
           ++ left. apply set_add_str_In. now left.
           ++ right. now exists u.
        -- intros u v [Heq|Hin] Hge.
           ++ injection Heq as Hu Hv. subst u.
              apply Hmono2. now apply (Hnew v).
           ++ now apply (Hnew2 u v).
        -- intros u Hin. apply in_app_or in Hin. destruct Hin as [Hin|Hin].
           ++ now apply Hel2.
           ++ destruct (Hq u _ Hin) as (-> & _). apply Hmono2. now apply Hel.
        -- intros s Hs'. destruct (Hwhy2 s Hs')
             as [Hl1|(u & v & Hin & Hsu & Hor)].
           ++ destruct (Hwhy s Hl1) as [Hl|(-> & v & -> & Hor)]; auto.
              right. exists uname, v. repeat split; [now left|].
              destruct Hor as [Hge|Hin]; auto.
              right. apply in_or_app. now right.
           ++ right. exists u, v. repeat split; [now right|exact Hsu|].
              destruct Hor as [Hge|Hin']; auto.
              right. apply in_or_app. now left.
Qed.

(** C4: a unit whose agent-version is present and at least 1.23 marks
    its service as led in its own turn of the loop, with no leadership
    query; a leadership query is only ever issued for a unit whose
    version is present and below 1.23; at the end of the loop the
    services marked as led are exactly those with a unit of version at
    least 1.23 or a unit whose query answered true; and the check passes
    exactly when every service of an observed unit is so marked. *)
Theorem leadership_by_version_or_query :
  (forall uname v services leaders h,
     LooseVersion.ge v "1.23" = Ret true ->
     exists leaders',
       leader_step W (uname, Some v) (services, leaders) h
       = (Ret (set_add_str (service_of uname) services, leaders'), []) /\
       In (service_of uname) leaders') /\
  (forall status h r ev,
     for_each (leader_step W) (agent_version (collect status)) ([], []) h
     = (r, ev) ->
     (forall u a,
        In (EvIsLeader u a) ev ->
        exists v,
          dict_get (agent_version (collect status)) u = Some (Some v) /\
          v <> "" /\ LooseVersion.ge v "1.23" = Ret false) /\
     (forall services leaders,
        r = Ret (services, leaders) ->
        forall s,
          In s leaders <->
          exists u v,
            dict_get (agent_version (collect status)) u = Some (Some v) /\
            service_of u = s /\
            (LooseVersion.ge v "1.23" = Ret true \/
             In (EvIsLeader u (Ret (JBool true))) ev))) /\
  (forall status h ready ev,
     check_leaders W (agent_version (collect status)) h = (Ret ready, ev) ->
     (ready = true <->
      forall u,
        In u (keys (agent_version (collect status))) ->
        exists u' v,
          dict_get (agent_version (collect status)) u' = Some (Some v) /\
          service_of u' = service_of u /\
          (LooseVersion.ge v "1.23" = Ret true \/
           In (EvIsLeader u' (Ret (JBool true))) ev))).
Proof.
  assert (Hloop : forall status h r ev,
     for_each (leader_step W) (agent_version (collect status)) ([], []) h
     = (r, ev) ->
     (forall u a,
        In (EvIsLeader u a) ev ->
        exists v,
          dict_get (agent_version (collect status)) u = Some (Some v) /\
          v <> "" /\ LooseVersion.ge v "1.23" = Ret false) /\
     (forall services leaders,
        r = Ret (services, leaders) ->
        (forall s, In s services <->
                   exists u, In u (keys (agent_version (collect status)))
                             /\ service_of u = s) /\
        forall s,
          In s leaders <->
          exists u v,
            dict_get (agent_version (collect status)) u = Some (Some v) /\
            service_of u = s /\
            (LooseVersion.ge v "1.23" = Ret true \/
             In (EvIsLeader u (Ret (JBool true))) ev))).
  { intros status h r ev Hl.
    assert (Hnd : NoDup (keys (agent_version (collect status))))
      by apply collect_keys.
    destruct (leader_loop_spec _ _ _ _ _ _ Hl) as (Hq & Hret).
    split.
    - intros u a Hin. destruct (Hq u a Hin) as (v & Hv & Hne & Hge).
      exists v. repeat split; trivial. now apply In_dict_get.
    - intros services leaders ->.
      destruct (Hret services leaders eq_refl)
        as (_ & Hsvc & Hnew & Hel & Hwhy).
      split.
      + intro s. rewrite Hsvc. split; [intros [[]|H]; exact H|auto].
      + intro s. split.
        * intro Hs. destruct (Hwhy s Hs) as [[]|(u & v & Hin & Hsu & Hor)].
          exists u, v. repeat split; trivial. now apply In_dict_get.
        * intros (u & v & Hg & <- & [Hge|Hin]).
          -- apply (Hnew u v); [now apply dict_get_In|exact Hge].
          -- now apply Hel. }
  split; [|split].
  - intros uname v services leaders h Hge.
    pose proof (leader_cases W uname (Some v) services leaders h) as Hc.
    pose proof (ge_1_23_nonempty v Hge) as Hne.
    destruct (leader_step W (uname, Some v) (services, leaders) h)
      as [r ev]. simpl in Hc.
    inversion Hc; subst;
      try match goal with
          | H : Some _ = Some _ |- _ => injection H as <-
          end;
      try congruence.
    + exists leaders. split; [reflexivity|]. now apply set_mem_str_In.
    + match goal with
      | H : _ \/ _ |- _ => destruct H; congruence
      end.
    + eexists. split; [reflexivity|]. apply set_add_str_In. now left.
  - intros status h r ev Hl. destruct (Hloop status h r ev Hl) as (Hq & Hret).
    split; [exact Hq|]. intros services leaders Hr.
    now apply (Hret services leaders Hr).
  - intros status h ready ev Hc. unfold check_leaders in Hc.
    apply bind_inv in Hc.
    destruct Hc as [(e & _ & He)|([services leaders] & ev1 & ev2 & Hl & Hr & ->)];
      [discriminate|].
    unfold ret in Hr. injection Hr as <- <-. simpl app.
    destruct (Hloop status h _ _ Hl) as (_ & Hret).
    destruct (Hret services leaders eq_refl) as (Hsvc & Hled).
    simpl fst. simpl snd. rewrite forallb_forall. split.
    + intros Hall u Hu. apply Hled. apply set_mem_str_In. apply Hall.
      apply Hsvc. now exists u.
    + intros Hall s Hs. apply set_mem_str_In. apply Hsvc in Hs.
      destruct Hs as (u & Hu & <-). apply Hled. now apply Hall.
Qed.

End Leadership.

(** A unit on 1.23.0: its service is led, no query is issued. *)
Example led_by_version :
  check_leaders (calm_world status_1_23 5)
                (agent_version (collect status_1_23)) []
  = (Ret true, []).
Proof. vm_compute. reflexivity. Qed.

(** A unit on 1.22.0 is asked; its service is led only if it says so. *)
Example old_version_is_asked :
  check_leaders (calm_world status_1_22 5)
                (agent_version (collect status_1_22)) []
  = (Ret false, [EvIsLeader "mysql/0" (Ret (JBool false))]) /\
  check_leaders (elected_world status_1_22 5)
                (agent_version (collect status_1_22)) []
  = (Ret true, [EvIsLeader "mysql/0" (Ret (JBool true))]).
Proof. split; vm_compute; reflexivity. Qed.

(** ** Why a cycle is not ready *)


Lemma services_alive_fold (items : list (string * Service)) (ready : bool) :
  fold_left
    (fun ready '(sname, service) =>
       if is_dying (s_life service) then false else ready)
    items ready
  = ready && forallb (fun item => negb (is_dying (s_life (snd item)))) items.
Proof.
  revert ready. induction items as [|[sname service] items IH];
    intro ready; simpl.
  - now rewrite andb_true_r.
  - rewrite IH. destruct (is_dying (s_life service)); simpl.
    + now rewrite andb_false_r.
    + reflexivity.
Qed.

Lemma services_alive_iff (status : Status) :
  services_alive status = true <->
  forall sname service,
    In (sname, service) (services status) ->
    is_dying (s_life service) = false.
Proof.
  unfold services_alive. rewrite services_alive_fold. simpl.
  rewrite forallb_forall. split.
  - intros H sname service Hin.
    apply negb_true_iff. apply (H (sname, service)).
    now apply sorted_items_In.
  - intros H [sname service] Hin. apply negb_true_iff.
    apply (H sname service). exact (proj1 (sorted_items_In _ _) Hin).
Qed.



Lemma reset_due_not_query (l : Locals) (u : string) (r : result json) :
  ~ In (EvIsLeader u r) (reset_due l).
Proof.
  unfold reset_due. destruct (l_logging_reset l); simpl; [tauto|].
  intros [H|[]]. discriminate.
Qed.



Section Readiness.

Variable W : World.
Variable strptime : string -> option Z.

Lemma sniff_events_no_query (prev : dict string) (item : string * Unit)
  (l : Locals) (h : trace) :
  Forall (fun e => ~ is_leader_query e) (snd (sniff W prev item l h)).
Proof.
  destruct item as [uname unit].
  pose proof (sniff_cases W prev uname unit l h) as Hc.
  destruct (sniff W prev (uname, unit) l h) as [r ev]. simpl in *.
  apply Forall_forall. intros e Hin (u & a & ->).
  inversion Hc; subst; try (now destruct Hin);
    try (destruct Hin as [Hin|Hin]; [discriminate|];
         now apply reset_due_not_query in Hin).
Qed.








End Readiness.


(** ** The theorems at work *)

(** C1 at work: five seconds a turn, nothing deployed; the fifth turn
    returns, 20 seconds after the first set [ready_since]. *)
Lemma wait_success_iff_witness :
  exists n j v now,
    n < 5 /\ j < n /\
    since_set_at five_second_world any_timestamp j 0 /\
    (forall i, j < i < n -> ready_at five_second_world any_timestamp i) /\
    verdict_at five_second_world any_timestamp n v now /\
    v_ready v = true /\
    (0 + IDLE_CONFIRMATION < now)%Z /\
    [] = sorted_strings (v_all_units v).
Proof.
  apply (proj1 (proj1 (wait_success_iff five_second_world any_timestamp
                         5 0 []))).
  vm_compute. reflexivity.
Defined.

(** C4 at work: the only unit runs 1.22.0 and answers that it leads. *)
Lemma leadership_by_version_or_query_witness :
  (forall u a,
     In (EvIsLeader u a) [EvIsLeader "mysql/0" (Ret (JBool true))] ->
     exists v,
       dict_get (agent_version (collect status_1_22)) u = Some (Some v) /\
       v <> "" /\ LooseVersion.ge v "1.23" = Ret false) /\
  (forall services leaders,
     @Ret (set string * set string) (["mysql"], ["mysql"])
     = Ret (services, leaders) ->
     forall s,
       In s leaders <->
       exists u v,
         dict_get (agent_version (collect status_1_22)) u = Some (Some v) /\
         service_of u = s /\
         (LooseVersion.ge v "1.23" = Ret true \/
          In (EvIsLeader u (Ret (JBool true)))
             [EvIsLeader "mysql/0" (Ret (JBool true))])).
Proof.
  apply (proj1 (proj2 (leadership_by_version_or_query
                         (elected_world status_1_22 5)))
           status_1_22 []).
  vm_compute. reflexivity.
Defined.



(** C9 at work: the only unit is dying, its agent in error. *)
Lemma dying_unit_in_error_is_not_fatal_witness :
  cycle (calm_world status_dying_in_error 5) any_timestamp initial []
  = (Ret (Continue {| prev_logs := []; ready_since := None;
                      logging_reset := logging_reset initial |}),
     [EvSleep 4; EvStatus (Ret status_dying_in_error)]).
Proof.
  apply (proj2 (dying_unit_in_error_is_not_fatal
                  (calm_world status_dying_in_error 5) any_timestamp)
           initial [] status_dying_in_error "mysql/0"
           (legacy_unit (Some "dying") "error")).
  - reflexivity.
  - intros it [].
  - simpl. now left.
  - reflexivity.
  - reflexivity.
  - intros u' unit' [[= <- <-]|[]] _. reflexivity.
Defined.

(** C10 at work: "app/0" is pending, so [ready] is false when the loop
    reaches "app/1": no log tail is fetched for it. *)
Lemma sniffing_needs_readiness_witness :
  (forall a,
     ~ In (EvLogTail "app/1" a)
          (snd (evaluate (calm_world status_pending_then_started 5)
                         any_timestamp status_pending_then_started
                         [] false []))) /\
  (forall v,
     fst (evaluate (calm_world status_pending_then_started 5)
                   any_timestamp status_pending_then_started [] false [])
     = Ret v ->
     v_ready v = false /\ dict_get (v_logs v) "app/1" = None).
Proof.
  apply (proj1 (proj2 (sniffing_needs_readiness
                         (calm_world status_pending_then_started 5)
                         any_timestamp))
           status_pending_then_started [] false []
           [("app/0", legacy_unit None "pending")]
           "app/1" (legacy_unit None "started") []
           {| l_ready := false; l_logs := []; l_logging_reset := false |}
           []).
  - vm_compute. reflexivity.
  - vm_compute. reflexivity.
  - reflexivity.
Defined.

(** C7 at work: three turns sniffing a legacy unit reset the logging
    configuration once; and a reset that fails ends the run. *)
Example one_reset_for_three_sniffs :
  resets (snd (wait (elected_world status_started 5) any_timestamp 3)) = 1 /\
  sniffs (snd (wait (elected_world status_started 5) any_timestamp 3)) = 3.
Proof. split; vm_compute; reflexivity. Qed.

Example failed_reset_ends_the_run :
  wait (no_reset_world status_started 5) any_timestamp 3
  = (Raised (JujuWaitException 2),
     [EvSetEnvironment (Raise (JujuWaitException 2));
      EvStatus (Ret status_started)]).
Proof. vm_compute. reflexivity. Qed.

(** A legacy unit whose log does not move: active in the first turn
    (nothing cached), idle from the second on; with a leader, [wait]
    returns once the streak is older than 15 seconds. *)
Example quiet_legacy_unit_returns :
  fst (wait (elected_world status_started 5) any_timestamp 6)
  = Returned 5000000 ["mysql/0"].
Proof. vm_compute. reflexivity. Qed.

(** * Further properties *)

(** ** Commands *)

(** X1: [run_or_die] returns the output of a command exactly when the
    command ran and exited with code 0; otherwise it raises
    [JujuWaitException] with a code that is never 0, and that is the
    return code of the command when it ran. *)
Theorem run_or_die_outcome :
  (forall p out, run_or_die p = Ret out <-> exists err, p = Exited 0 out err)
  /\
  (forall p e,
     run_or_die p = Raise e ->
     exists code,
       e = JujuWaitException code /\ code <> 0%Z /\
       forall returncode out err,
         p = Exited returncode out err -> code = returncode).
Proof.
  split.
  - intros p out. split.
    + destruct p as [errno| |returncode o err]; simpl; try discriminate.
      destruct (returncode =? 0)%Z eqn:E; simpl; [|discriminate].
      apply Z.eqb_eq in E. subst. intros [= ->]. now exists err.
    + intros (err & ->). reflexivity.
  - intros p e. destruct p as [[n|]| |returncode o err]; simpl.
    + intros [= <-]. destruct (n =? 0)%Z eqn:E.
      * exists 41%Z. repeat split; discriminate.
      * apply Z.eqb_neq in E. exists n. repeat split; trivial. discriminate.
    + intros [= <-]. exists 41%Z. repeat split; discriminate.
    + intros [= <-]. exists 42%Z. repeat split; discriminate.
    + destruct (returncode =? 0)%Z eqn:E; simpl; [discriminate|].
      intros [= <-]. apply Z.eqb_neq in E. exists returncode.
      repeat split; trivial. now intros ? ? ? [= ->].
Qed.

Lemma list_ascii_of_string_app (a b : string) :
  list_ascii_of_string (String.append a b)
  = list_ascii_of_string a ++ list_ascii_of_string b.
Proof. induction a as [|c a IH]; simpl; [reflexivity|now rewrite IH]. Qed.

Lemma replace_slash_no_slash (s : string) : no_slash (replace_char "/" "-" s).
Proof.
  unfold no_slash. induction s as [|c s IH]; simpl; [tauto|].
  intros [H|H]; [|now apply IH].
  destruct (Ascii.eqb c "/") eqn:E; [discriminate|].
  apply Ascii.eqb_neq in E. congruence.
Qed.

Lemma replace_char_absent (old new : ascii) (s : string) :
  ~ In old (list_ascii_of_string s) -> replace_char old new s = s.
Proof.
  induction s as [|c s IH]; simpl; [reflexivity|]. intro H.
  destruct (Ascii.eqb c old) eqn:E.
  - apply Ascii.eqb_eq in E. tauto.
  - rewrite IH; tauto.
Qed.

(** X2: the name of the log file that [get_log_tail] reads holds no
    slash, whatever the unit name, so the file is looked up in
    /var/log/juju itself; it is "unit-NAME.log" for a name without slash;
    and two units may share a log file. *)
Theorem log_file_in_log_directory :
  (forall unit, no_slash (log_file unit)) /\
  (forall unit,
     no_slash unit ->
     log_file unit = String.append "unit-" (String.append unit ".log")) /\
  log_file "mysql/0" = log_file "mysql-0".
Proof.
  split; [|split].
  - intro unit. unfold no_slash, log_file.
    rewrite !list_ascii_of_string_app, !in_app_iff.
    intros [H|[H|H]].
    + simpl in H. intuition discriminate.
    + now apply (replace_slash_no_slash unit).
    + simpl in H. intuition discriminate.
  - intros unit H. unfold log_file. now rewrite replace_char_absent.
  - reflexivity.
Qed.

Lemma service_of_no_slash (uname : string) : no_slash (service_of uname).
Proof.
  unfold no_slash. induction uname as [|c s IH]; simpl; [tauto|].
  destruct (Ascii.eqb c "/") eqn:E; simpl; [tauto|].
  apply Ascii.eqb_neq in E. intros [H|H]; [congruence|now apply IH].
Qed.

Lemma service_of_prefix (sname rest : string) :
  no_slash sname ->
  service_of (String.append sname (String "/" rest)) = sname.
Proof.
  unfold no_slash. induction sname as [|c s IH]; simpl; intro H.
  - reflexivity.
  - destruct (Ascii.eqb c "/") eqn:E.
    + apply Ascii.eqb_eq in E. tauto.
    + rewrite IH; tauto.
Qed.

Lemma service_of_whole (uname : string) :
  no_slash uname -> service_of uname = uname.
Proof.
  unfold no_slash. induction uname as [|c s IH]; simpl; intro H.
  - reflexivity.
  - destruct (Ascii.eqb c "/") eqn:E.
    + apply Ascii.eqb_eq in E. tauto.
    + rewrite IH; tauto.
Qed.

(** X4: the service name the leadership check derives from a unit name
    is what stands before its first slash: the service of "SERVICE/REST"
    is SERVICE when SERVICE holds no slash, a name without slash is its
    own service, and a service name never holds a slash. *)
Theorem service_of_unit_name :
  (forall sname rest,
     no_slash sname ->
     service_of (String.append sname (String "/" rest)) = sname) /\
  (forall uname, no_slash uname -> service_of uname = uname) /\
  (forall uname, no_slash (service_of uname)) /\
  (forall uname, service_of (service_of uname) = service_of uname).
Proof.
  repeat split.
  - apply service_of_prefix.
  - apply service_of_whole.
  - apply service_of_no_slash.
  - intro uname. apply service_of_whole, service_of_no_slash.
Qed.

(** ** The exit code *)

Lemma may_raise_ret {A : Type} (ok : exn -> Prop) (a : A) :
  may_raise ok (ret a).
Proof. intros h e ev H. discriminate. Qed.

Lemma may_raise_bind {A B : Type} (ok : exn -> Prop) (m : M A)
  (k : A -> M B) :
  may_raise ok m -> (forall a, may_raise ok (k a)) ->
  may_raise ok (bind m k).
Proof.
  intros Hm Hk h e ev H. apply bind_inv in H.
  destruct H as [(e' & Hr & [= <-])|(a & ev1 & ev2 & Hr & Hka & _)].
  - now apply (Hm h e ev).
  - now apply (Hk a (ev1 ++ h) e ev2).
Qed.

Lemma may_raise_for_each {A S : Type} (ok : exn -> Prop)
  (body : A -> S -> M S) (xs : list A) :
  (forall x s, may_raise ok (body x s)) ->
  forall s, may_raise ok (for_each body xs s).
Proof.
  intro Hb. induction xs as [|x xs IH]; intro s; cbn [for_each].
  - apply may_raise_ret.
  - apply may_raise_bind; [apply Hb|apply IH].
Qed.

Lemma may_raise_lift {A : Type} (ok : exn -> Prop) (r : result A) :
  (forall e, r = Raise e -> ok e) -> may_raise ok (lift r).
Proof. intros Hr h e ev [= -> _]. now apply Hr. Qed.

Lemma cmp_raises_TypeError (v w : list LooseVersion.component) (e : exn) :
  LooseVersion.cmp v w = Raise e -> e = TypeError.
Proof.
  revert w. induction v as [|a v IH]; intros [|b w]; simpl; try discriminate.
  destruct (LooseVersion.component_eqb a b); [apply IH|].
  destruct a, b; try discriminate; now intros [= <-].
Qed.

(** The only exception of a version comparison is [TypeError]. *)
Lemma ge_raises_TypeError (v w : string) (e : exn) :
  LooseVersion.ge v w = Raise e -> e = TypeError.
Proof.
  unfold LooseVersion.ge.
  destruct (LooseVersion.cmp (LooseVersion.parse v) (LooseVersion.parse w))
    as [[| |]|e'] eqn:E; try discriminate.
  intros [= <-]. now apply cmp_raises_TypeError in E.
Qed.

Section ExitCode.

Variable W : World.
Variable strptime : string -> option Z.
Hypothesis W_honest : honest W.

Lemma check_agent_nonzero (item : string * AgentStatus) (ready : bool) :
  may_raise nonzero_exit (check_agent strptime item ready).
Proof.
  intros h e ev H. rewrite check_agent_step in H.
  destruct (strptime (since (snd item))); [discriminate|].
  injection H as <- _. discriminate.
Qed.

Lemma sniff_nonzero (prev : dict string) (item : string * Unit) (l : Locals) :
  may_raise nonzero_exit (sniff W prev item l).
Proof.
  destruct item as [uname unit]. unfold sniff.
  destruct (is_dying (u_life unit)); [apply may_raise_ret|].
  destruct (opt_eqb (u_agent_state unit) (Some "error")).
  { intros h e ev [= <- _]. discriminate. }
  destruct (negb (opt_eqb (u_agent_state unit) (Some "started")));
    [apply may_raise_ret|].
  destruct (l_ready l); [|apply may_raise_ret].
  destruct W_honest as (_ & Hreset & Htail & _).
  apply may_raise_bind.
  - destruct (negb (l_logging_reset l)); [|apply may_raise_ret].
    intros h e ev [= He _]. now apply (Hreset h).
  - intros _. apply may_raise_bind.
    + intros h e ev [= He _]. now apply (Htail h uname).
    + intro line. destruct (opt_eqb _ _); apply may_raise_ret.
Qed.

Lemma leader_step_nonzero (item : string * option string)
  (acc : set string * set string) :
  may_raise nonzero_exit (leader_step W item acc).
Proof.
  destruct item as [uname version], acc as [services leaders].
  unfold leader_step.
  destruct (set_mem_str (service_of uname) leaders); [apply may_raise_ret|].
  destruct version as [v|]; [|apply may_raise_ret].
  destruct (String.eqb v ""); [apply may_raise_ret|].
  apply may_raise_bind.
  - apply may_raise_lift. intros e He.
    apply ge_raises_TypeError in He. subst. discriminate.
  - intros [|]; [apply may_raise_ret|].
    apply may_raise_bind.
    + destruct W_honest as (_ & _ & _ & Hleader).
      intros h e ev [= He _]. now apply (Hleader h uname).
    + intros [|[|]| |]; apply may_raise_ret.
Qed.

Lemma cycle_nonzero (st : LoopState) :
  may_raise nonzero_exit (cycle W strptime st).
Proof.
  unfold cycle. apply may_raise_bind.
  - unfold observe. apply may_raise_bind.
    + destruct W_honest as (Hstatus & _).
      intros h e ev [= He _]. now apply (Hstatus h).
    + intro status. unfold evaluate. apply may_raise_bind.
      * apply may_raise_for_each. apply check_agent_nonzero.
      * intro ready. apply may_raise_bind.
        -- apply may_raise_for_each. apply sniff_nonzero.
        -- intro l. apply may_raise_bind; [|intro; apply may_raise_ret].
           destruct (l_ready l); [|apply may_raise_ret].
           unfold check_leaders. apply may_raise_bind.
           ++ apply may_raise_for_each. apply leader_step_nonzero.
           ++ intro acc. apply may_raise_ret.
  - intro v. apply may_raise_bind.
    + unfold debounce. destruct (v_ready v); [|apply may_raise_ret].
      destruct (ready_since st) as [t|]; apply may_raise_bind;
        try (intros h e ev Hnow; discriminate Hnow); intro now.
      * destruct (t + IDLE_CONFIRMATION <? now)%Z; apply may_raise_ret.
      * apply may_raise_ret.
    + intros [t|since']; [apply may_raise_ret|].
      apply may_raise_bind; [intros h e ev Hs; discriminate Hs|].
      intro. apply may_raise_ret.
Qed.

Lemma wait_loop_nonzero (fuel : nat) (st : LoopState) (h : trace) (e : exn) :
  fst (wait_loop W strptime fuel st h) = Raised e -> nonzero_exit e.
Proof.
  revert st h. induction fuel as [|fuel IH]; intros st h; simpl;
    [discriminate|].
  destruct (cycle W strptime st h) as [[[t units|st']|e'] ev] eqn:Ec; simpl.
  - discriminate.
  - specialize (IH st' (ev ++ h)).
    destruct (wait_loop W strptime fuel st' (ev ++ h)) as [o ev'].
    exact IH.
  - intros [= <-]. now apply (cycle_nonzero st h e' ev).
Qed.

End ExitCode.

Lemma world_of_shell_honest (S : Shell) (environ : dict string)
  (loads_status : string -> option Status) (loads : string -> option json) :
  honest (world_of_shell S environ loads_status loads).
Proof.
  assert (Hrun : forall p e, run_or_die p = Raise e -> nonzero_exit e).
  { intros p e. destruct p as [[n|]| |returncode o err]; simpl.
    - intros [= <-]. unfold nonzero_exit.
      destruct (n =? 0)%Z eqn:E; [discriminate|].
      apply Z.eqb_neq in E. congruence.
    - intros [= <-]. discriminate.
    - intros [= <-]. discriminate.
    - destruct (returncode =? 0)%Z eqn:E; simpl; [discriminate|].
      intros [= <-]. unfold nonzero_exit.
      apply Z.eqb_neq in E. congruence. }
  repeat split; simpl.
  - intros h e.
    destruct (run_or_die _) as [out|e'] eqn:E.
    + destruct (loads_status out); [discriminate|].
      intros [= <-]. discriminate.
    + intros [= <-]. now apply Hrun in E.
  - intros h e. destruct (run_or_die _) as [out|e'] eqn:E; [discriminate|].
    intros [= <-]. now apply Hrun in E.
  - intros h u e. apply Hrun.
  - intros h u e.
    destruct (run_or_die _) as [out|e'] eqn:E.
    + destruct (loads out); [discriminate|]. intros [= <-]. discriminate.
    + intros [= <-]. now apply Hrun in E.
Qed.

(** X5: [wait_cmd] returns 0 exactly when the parser used up the
    arguments without exiting and [wait], run with the environment the
    parser left, returned, that is when the steady state was confirmed;
    it leaves through [SystemExit] exactly when the parser exits, with
    the status of the parser (0 for [--description]) and whatever the
    machine is like; and when [wait] ends on a [JujuWaitException],
    [wait_cmd] returns its code, which is never 0. *)
Theorem wait_cmd_zero_iff_steady (parsed : Parsed) (S : Shell)
  (environ : dict string) (loads_status : string -> option Status)
  (loads : string -> option json) (strptime : string -> option Z)
  (fuel : nat) :
  (wait_cmd parsed S environ loads_status loads strptime fuel = Returns 0
   <->
   exists environ' t units,
     run_parser (steps parsed) environ = inl environ' /\
     fst (wait (world_of_shell S environ' loads_status loads) strptime fuel)
     = Returned t units) /\
  (forall status,
     wait_cmd parsed S environ loads_status loads strptime fuel
     = SystemExit status
     <-> run_parser (steps parsed) environ = inr status) /\
  (forall environ' code,
     run_parser (steps parsed) environ = inl environ' ->
     fst (wait (world_of_shell S environ' loads_status loads) strptime fuel)
     = Raised (JujuWaitException code) ->
     code <> 0%Z /\
     wait_cmd parsed S environ loads_status loads strptime fuel
     = Returns code).
Proof.
  unfold wait_cmd.
  destruct (run_parser (steps parsed) environ) as [environ'|status].
  - pose proof (wait_loop_nonzero
                  (world_of_shell S environ' loads_status loads) strptime
                  (world_of_shell_honest S environ' loads_status loads)
                  fuel initial []) as Hnz.
    fold (wait (world_of_shell S environ' loads_status loads) strptime fuel)
      in Hnz.
    destruct (fst (wait (world_of_shell S environ' loads_status loads)
                        strptime fuel)) as [t units|e|st] eqn:Ew.
    + split; [|split].
      * split; [intros _; now exists environ', t, units|reflexivity].
      * intro status. split; discriminate.
      * intros env code [= <-] H. rewrite Ew in H. discriminate.
    + assert (He : e <> JujuWaitException 0) by now apply Hnz.
      split; [|split].
      * split.
        -- destruct e as [code| |]; try discriminate.
           intros [= ->]. now destruct He.
        -- intros (env & t & units & [= <-] & H). rewrite Ew in H.
           discriminate.
      * intro status. split; [|discriminate].
        destruct e as [code| |]; discriminate.
      * intros env code [= <-] H. rewrite Ew in H. injection H as ->.
        split; [|reflexivity]. intros ->. now destruct He.
    + split; [|split].
      * split; [discriminate|].
        intros (env & t & units & [= <-] & H). rewrite Ew in H.
        discriminate.
      * intro status. split; discriminate.
      * intros env code [= <-] H. rewrite Ew in H. discriminate.
  - split; [|split].
    + split; [discriminate|]. intros (env & t & units & H & _).
      discriminate.
    + intro status'. split; intros [= ->]; reflexivity.
    + intros env code H. discriminate.
Qed.

(** Where every command exits with code 3, so does [wait_cmd]; where
    nothing is deployed it returns 0, also with [-e prod]; and
    [--description] leaves with status 0 on either machine. *)
Example wait_cmd_codes :
  wait_cmd no_argument broken_shell [] loads_empty loads_bool
           any_timestamp 5 = Returns 3 /\
  wait_cmd no_argument quiet_shell [] loads_empty loads_bool
           any_timestamp 5 = Returns 0 /\
  wait_cmd environment_given quiet_shell [] loads_empty loads_bool
           any_timestamp 5 = Returns 0 /\
  wait_cmd description_asked broken_shell [] loads_empty loads_bool
           any_timestamp 5 = SystemExit 0.
Proof. repeat split; vm_compute; reflexivity. Qed.

(** ** The pace of the loop *)

Lemma polls_app (a b : trace) : polls (a ++ b) = polls a + polls b.
Proof. unfold polls. now rewrite filter_app, length_app. Qed.

Lemma naps_app (a b : trace) : naps (a ++ b) = naps a + naps b.
Proof. unfold naps. now rewrite filter_app, length_app. Qed.

Lemma commands_pace (ev : trace) :
  Forall is_command ev ->
  polls ev = 0 /\ naps ev = 0 /\ forall s, ~ In (EvSleep s) ev.
Proof.
  induction 1 as [|e ev He _ (IHp & IHn & IHs)].
  - repeat split. intros s [].
  - unfold polls, naps in *.
    destruct He as [(r & ->)|[(u & r & ->)|(u & r & ->)]]; simpl;
      repeat split; trivial; intros s [H|H]; try discriminate;
      now apply (IHs s).
Qed.

Section Pace.

Variable W : World.
Variable strptime : string -> option Z.

Lemma sniff_events_commands (prev : dict string) (item : string * Unit)
  (l : Locals) (h : trace) :
  Forall is_command (snd (sniff W prev item l h)).
Proof.
  destruct item as [uname unit].
  pose proof (sniff_cases W prev uname unit l h) as Hc.
  destruct (sniff W prev (uname, unit) l h) as [r ev]. simpl in *.
  assert (Hdue : Forall is_command (reset_due l)).
  { unfold reset_due. destruct (l_logging_reset l); repeat constructor.
    now exists (Ret tt). }
  inversion Hc; subst; try constructor; trivial;
    try (right; left; now eexists _, _);
    try (left; now eexists);
    try constructor.
Qed.

Lemma evaluate_events_commands (status : Status) (prev : dict string)
  (lr : bool) (h : trace) :
  Forall is_command (snd (evaluate W strptime status prev lr h)).
Proof.
  unfold evaluate. apply bind_events.
  { rewrite check_agent_events. constructor. }
  intros ready h1. apply bind_events.
  { apply for_each_events. intros item l h2. apply sniff_events_commands. }
  intros l h2. apply bind_events; [|intros; constructor].
  destruct (l_ready l); [|constructor].
  eapply Forall_impl; [|apply check_leaders_events].
  intros e (u & r & ->). right. right. now exists u, r.
Qed.

(** One turn: one poll, and one sleep of 4 seconds unless it ends the
    run. *)
Lemma cycle_pace (st : LoopState) (h : trace) :
  polls (snd (cycle W strptime st h)) = 1 /\
  naps (snd (cycle W strptime st h))
  = match fst (cycle W strptime st h) with
    | Ret (Continue _) => 1
    | _ => 0
    end /\
  (forall s, In (EvSleep s) (snd (cycle W strptime st h)) -> s = 4%Z).
Proof.
  rewrite cycle_eq, observe_eq.
  destruct (juju_status W h) as [status|e]; [|simpl; repeat split;
    intros s [H|[]]; discriminate].
  pose proof (evaluate_events_commands status (prev_logs st)
                (logging_reset st) (EvStatus (Ret status) :: h)) as Hev.
  destruct (evaluate W strptime status (prev_logs st) (logging_reset st)
                     (EvStatus (Ret status) :: h)) as [[v|e] evv].
  - cbv beta iota zeta delta [fst snd]. simpl in Hev.
    destruct (commands_pace evv Hev) as (Hp & Hn & Hs).
    assert (Hin : forall s pre,
               (forall e, In e pre -> e = EvSleep 4 \/ is_sleep e = false) ->
               In (EvSleep s) (pre ++ evv ++ [EvStatus (Ret status)]) ->
               s = 4%Z).
    { intros s pre Hpre Hin. rewrite !in_app_iff in Hin.
      destruct Hin as [Hin|[Hin|[Hin|[]]]].
      - destruct (Hpre _ Hin) as [[= ->]|Hf]; [reflexivity|discriminate].
      - now apply Hs in Hin.
      - discriminate. }
    destruct (v_ready v).
    + destruct (ready_since st) as [t|].
      * destruct (t + IDLE_CONFIRMATION
                  <? clock W ((evv ++ [EvStatus (Ret status)]) ++ h))%Z;
          cbv beta iota zeta delta [fst snd].
        -- repeat split.
           ++ change (polls ([EvUtcNow (clock W ((evv ++ [EvStatus (Ret status)]) ++ h))]
                             ++ evv ++ [EvStatus (Ret status)]) = 1).
              rewrite !polls_app, Hp. reflexivity.
           ++ change (naps ([EvUtcNow (clock W ((evv ++ [EvStatus (Ret status)]) ++ h))]
                            ++ evv ++ [EvStatus (Ret status)]) = 0).
              rewrite !naps_app, Hn. reflexivity.
           ++ intros s. apply (Hin s [EvUtcNow _]).
              intros e [<-|[]]. now right.
        -- repeat split.
           ++ change (polls ([EvSleep 4; EvUtcNow (clock W ((evv ++ [EvStatus (Ret status)]) ++ h))]
                             ++ evv ++ [EvStatus (Ret status)]) = 1).
              rewrite !polls_app, Hp. reflexivity.
           ++ change (naps ([EvSleep 4; EvUtcNow (clock W ((evv ++ [EvStatus (Ret status)]) ++ h))]
                            ++ evv ++ [EvStatus (Ret status)]) = 1).
              rewrite !naps_app, Hn. reflexivity.
           ++ intros s. apply (Hin s [EvSleep 4; EvUtcNow _]).
              intros e [<-|[<-|[]]]; auto.
      * cbv beta iota zeta delta [fst snd]. repeat split.
        -- change (polls ([EvSleep 4; EvUtcNow (clock W ((evv ++ [EvStatus (Ret status)]) ++ h))]
                          ++ evv ++ [EvStatus (Ret status)]) = 1).
           rewrite !polls_app, Hp. reflexivity.
        -- change (naps ([EvSleep 4; EvUtcNow (clock W ((evv ++ [EvStatus (Ret status)]) ++ h))]
                         ++ evv ++ [EvStatus (Ret status)]) = 1).
           rewrite !naps_app, Hn. reflexivity.
        -- intros s. apply (Hin s [EvSleep 4; EvUtcNow _]).
           intros e [<-|[<-|[]]]; auto.
    + cbv beta iota zeta delta [fst snd]. repeat split.
      * change (polls ([EvSleep 4] ++ evv ++ [EvStatus (Ret status)]) = 1).
        rewrite !polls_app, Hp. reflexivity.
      * change (naps ([EvSleep 4] ++ evv ++ [EvStatus (Ret status)]) = 1).
        rewrite !naps_app, Hn. reflexivity.
      * intros s. apply (Hin s [EvSleep 4]). intros e [<-|[]]; auto.
  - cbv beta iota zeta delta [fst snd]. simpl in Hev.
    destruct (commands_pace evv Hev) as (Hp & Hn & Hs).
    repeat split.
    + rewrite polls_app, Hp. reflexivity.
    + rewrite naps_app, Hn. reflexivity.
    + intros s Hin. apply in_app_or in Hin. destruct Hin as [Hin|[Hin|[]]].
      * now apply Hs in Hin.
      * discriminate.
Qed.

Lemma wait_loop_pace (fuel : nat) (st : LoopState) (h : trace) :
  (forall s, In (EvSleep s) (snd (wait_loop W strptime fuel st h)) ->
             s = 4%Z) /\
  match fst (wait_loop W strptime fuel st h) with
  | Polling _ =>
      polls (snd (wait_loop W strptime fuel st h)) = fuel /\
      naps (snd (wait_loop W strptime fuel st h)) = fuel
  | _ =>
      polls (snd (wait_loop W strptime fuel st h))
      = naps (snd (wait_loop W strptime fuel st h)) + 1 /\
      polls (snd (wait_loop W strptime fuel st h)) <= fuel
  end.
Proof.
  revert st h. induction fuel as [|fuel IH]; intros st h; cbn [wait_loop].
  - simpl. split; [intros s []|now split].
  - destruct (cycle_pace st h) as (Hp & Hn & Hs).
    destruct (cycle W strptime st h) as [[[t units|st']|e] ev];
      simpl in Hp, Hn, Hs.
    + simpl. repeat split; trivial; lia.
    + destruct (IH st' (ev ++ h)) as (Hs' & Hrest).
      destruct (wait_loop W strptime fuel st' (ev ++ h)) as [o ev'].
      simpl in *. split.
      * intros s Hin. apply in_app_or in Hin. destruct Hin; auto.
      * rewrite polls_app, naps_app, Hp, Hn.
        destruct o; lia.
    + simpl. repeat split; trivial; lia.
Qed.

(** X6: [wait] fetches the status once per turn and sleeps 4 seconds
    after every turn that does not end the run, never otherwise: every
    sleep lasts 4 seconds; while it polls, a run of [n] turns holds [n]
    polls and [n] sleeps; a run that ended holds one poll more than
    sleeps; and a run that returned holds at least two polls. *)
Theorem poll_pacing (fuel : nat) :
  (forall s, In (EvSleep s) (snd (wait W strptime fuel)) -> s = 4%Z) /\
  match fst (wait W strptime fuel) with
  | Polling _ =>
      polls (snd (wait W strptime fuel)) = fuel /\
      naps (snd (wait W strptime fuel)) = fuel
  | Raised _ =>
      polls (snd (wait W strptime fuel))
      = naps (snd (wait W strptime fuel)) + 1 /\
      polls (snd (wait W strptime fuel)) <= fuel
  | Returned _ _ =>
      polls (snd (wait W strptime fuel))
      = naps (snd (wait W strptime fuel)) + 1 /\
      2 <= polls (snd (wait W strptime fuel)) <= fuel
  end.
Proof.
  destruct (wait_loop_pace fuel initial []) as (Hs & Hm).
  fold (wait W strptime fuel) in Hs, Hm. split; [exact Hs|].
  destruct (fst (wait W strptime fuel)) as [t units|e|st] eqn:Eo; trivial.
  destruct Hm as (Hm & Hle). repeat split; trivial.
  unfold wait in *. destruct fuel as [|fuel]; [discriminate|].
  cbn [wait_loop] in *.
  destruct (cycle_pace initial []) as (Hp & Hn & _).
  pose proof (cycle_eq W strptime initial []) as Hc.
  destruct (cycle W strptime initial []) as [[[t' units'|st']|e] ev].
  - exfalso. destruct (observe W strptime initial []) as [[v|e] evo];
      [|discriminate]. cbv zeta in Hc. simpl in Hc.
    destruct (v_ready v); discriminate.
  - destruct (wait_loop_pace fuel st' (ev ++ [])) as (_ & Hrest).
    destruct (wait_loop W strptime fuel st' (ev ++ [])) as [o ev'].
    simpl in *. subst o. rewrite polls_app. lia.
  - discriminate.
Qed.

End Pace.

(** ** What a verdict says *)

Section Verdict.

Variable W : World.
Variable strptime : string -> option Z.

Lemma sniff_loop_ready_mono (prev : dict string)
  (items : list (string * Unit)) (l l' : Locals) (h ev : trace) :
  for_each (sniff W prev) items l h = (Ret l', ev) ->
  l_ready l' = true -> l_ready l = true.
Proof.
  intros Hl Hr. destruct (l_ready l) eqn:E; [reflexivity|].
  destruct (sniff_loop_not_ready W prev items l h E) as (_ & [H|H]);
    rewrite Hl in H; simpl in H; [|discriminate].
  injection H as ->. congruence.
Qed.

(** A sniffing loop that ends ready has sniffed every unit, and every
    log tail was the cached one. *)
Lemma sniff_loop_ready (prev : dict string) (items : list (string * Unit)) :
  forall l h l' ev,
    for_each (sniff W prev) items l h = (Ret l', ev) ->
    l_ready l' = true ->
    forall u unit,
      In (u, unit) items ->
      is_dying (u_life unit) = false /\
      u_agent_state unit = Some "started" /\
      exists line,
        In (EvLogTail u (Ret line)) ev /\ dict_get prev u = Some line.
Proof.
  induction items as [|[u0 unit0] items IH]; intros l h l' ev Hl Hr u unit Hin;
    [destruct Hin|].
  cbn [for_each] in Hl. apply bind_inv in Hl.
  destruct Hl as [(e & _ & He)|(l1 & ev1 & ev2 & Hs & Hrest & ->)];
    [discriminate|].
  pose proof (sniff_loop_ready_mono _ _ _ _ _ _ Hrest Hr) as Hr1.
  destruct Hin as [[= <- <-]|Hin].
  - apply sniff_inv in Hs.
    destruct (sniff_ret_cases _ _ _ _ _ _ Hs)
      as [(-> & _ & Hrl)|(line & -> & Hrdy & _ & Hrl)].
    + exfalso. inversion Hs; subst; simpl in Hr1; congruence.
    + assert (Hreach : reaches_sniffing unit0 l).
      { inversion Hs; subst; trivial; simpl in Hr1; try congruence. }
      destruct Hreach as (Hd & Hst & _). repeat split; trivial.
      exists line. split.
      * apply in_or_app. right. now left.
      * rewrite Hrdy in Hr1. apply opt_eqb_eq in Hr1. now symmetry.
  - destruct (IH _ _ _ _ Hrest Hr u unit Hin) as (Hd & Hst & line & Hl & Hp).
    repeat split; trivial. exists line. split; [|exact Hp].
    apply in_or_app. now left.
Qed.

(** X7: a dying or dead service makes the cycle run no remote command
    at all and, when it yields a verdict, yields not ready with an empty
    log cache. *)
Theorem dying_service_blocks (status : Status) (prev : dict string)
  (lr : bool) (h : trace) (sname : string) (service : Service) :
  In (sname, service) (services status) ->
  is_dying (s_life service) = true ->
  snd (evaluate W strptime status prev lr h) = [] /\
  forall v,
    fst (evaluate W strptime status prev lr h) = Ret v ->
    v_ready v = false /\ v_logs v = [] /\ v_logging_reset v = lr.
Proof.
  intros Hin Hd.
  assert (Ha : services_alive status = false).
  { destruct (services_alive status) eqn:E; [|reflexivity].
    rewrite (proj1 (services_alive_iff status) E sname service Hin) in Hd.
    discriminate. }
  unfold evaluate. rewrite Ha.
  destruct (check_agent_loop strptime
              (sorted_items (agent_status (collect status))) false h)
    as [Hl|Hl].
  - rewrite (bind_ret_nil _ _ _ _ Hl). simpl andb.
    destruct (sniff_loop_not_ready W prev
                (sorted_items (ready_units (collect status)))
                {| l_ready := false; l_logs := []; l_logging_reset := lr |}
                h eq_refl) as (Hev & Hres).
    destruct (for_each (sniff W prev) _ _ h) as [r ev] eqn:Es.
    simpl in Hev, Hres. subst ev.
    destruct Hres as [-> | ->].
    + rewrite (bind_ret_nil _ _ _ _ Es). simpl.
      split; [reflexivity|]. now intros v [= <-].
    + rewrite (bind_raise _ _ _ _ _ Es). simpl.
      split; [reflexivity|discriminate].
  - rewrite (bind_raise _ _ _ _ _ Hl). simpl.
    split; [reflexivity|discriminate].
Qed.

(** X8: a ready verdict is sound.  No service is dying or dead; every
    unit with an agent-status is idle; every legacy unit is alive and
    started, its log tail was fetched in this cycle and is the line
    cached by the previous one; and every unit belongs to a service with
    a unit whose agent-version is at least 1.23 or which answered in this
    cycle that it is the leader. *)
Theorem ready_verdict_sound (status : Status) (prev : dict string)
  (lr : bool) (h : trace) (v : Verdict) (ev : trace) :
  evaluate W strptime status prev lr h = (Ret v, ev) ->
  v_ready v = true ->
  (forall sname service,
     In (sname, service) (services status) ->
     is_dying (s_life service) = false) /\
  (forall u a,
     In (u, a) (agent_status (collect status)) -> current a = "idle") /\
  (forall u unit,
     In (u, unit) (ready_units (collect status)) ->
     is_dying (u_life unit) = false /\
     u_agent_state unit = Some "started" /\
     exists line,
       In (EvLogTail u (Ret line)) ev /\ dict_get prev u = Some line) /\
  (forall u version,
     In (u, version) (agent_version (collect status)) ->
     exists u' v',
       In (u', Some v') (agent_version (collect status)) /\
       service_of u' = service_of u /\
       (LooseVersion.ge v' "1.23" = Ret true \/
        In (EvIsLeader u' (Ret (JBool true))) ev)).
Proof.
  intros He Hv. apply evaluate_inv in He. cbv zeta in He.
  destruct He as (l & ev1 & ev2 & _ & Hs & Hr & -> & _).
  assert (Hrl : l_ready l = true).
  { destruct (l_ready l); [reflexivity|]. destruct Hr as (Hf & _).
    congruence. }
  rewrite Hrl in Hr.
  pose proof (sniff_loop_ready_mono _ _ _ _ _ _ Hs Hrl) as Hr1.
  simpl in Hr1. apply andb_true_iff in Hr1. destruct Hr1 as (Halive & Hidle).
  repeat split.
  - now apply services_alive_iff.
  - intros u a Hin. apply (all_idle_In _ u a Hidle).
    now apply sorted_items_In.
  - destruct (sniff_loop_ready prev _ _ _ _ _ Hs Hrl u unit
                (proj2 (sorted_items_In _ _) H)) as (Hd & _). exact Hd.
  - destruct (sniff_loop_ready prev _ _ _ _ _ Hs Hrl u unit
                (proj2 (sorted_items_In _ _) H)) as (_ & Hst & _). exact Hst.
  - destruct (sniff_loop_ready prev _ _ _ _ _ Hs Hrl u unit
                (proj2 (sorted_items_In _ _) H)) as (_ & _ & line & Hl & Hp).
    exists line. split; [|exact Hp]. apply in_or_app. now right.
  - intros u version Hin. unfold check_leaders in Hr.
    apply bind_inv in Hr.
    destruct Hr as [(e & _ & He)|([services leaders] & eva & evb & Hl & Hret & ->)];
      [discriminate|].
    unfold ret in Hret. injection Hret as Hall <-. simpl app.
    destruct (leader_loop_spec W _ _ _ _ _ _ Hl) as (_ & Hspec).
    destruct (Hspec services leaders eq_refl) as (_ & Hsvc & _ & _ & Hwhy).
    rewrite Hv in Hall. rewrite forallb_forall in Hall.
    assert (Hled : In (service_of u) leaders).
    { apply set_mem_str_In. apply Hall. apply Hsvc. right.
      exists u. split; [|reflexivity].
      unfold keys. apply in_map_iff. now exists (u, version). }
    destruct (Hwhy _ Hled) as [[]|(u' & v' & Hin' & Hsu & Hor)].
    exists u', v'. repeat split; trivial.
    destruct Hor as [Hge|Hq]; [now left|right].
    apply in_or_app. now left.
Qed.

End Verdict.

(** X7 at work: the only service is dying. *)
Lemma dying_service_blocks_witness :
  snd (evaluate (calm_world status_dying_service 5) any_timestamp
                status_dying_service [("mysql/0", "started")] true []) = [] /\
  forall v,
    fst (evaluate (calm_world status_dying_service 5) any_timestamp
                  status_dying_service [("mysql/0", "started")] true [])
    = Ret v ->
    v_ready v = false /\ v_logs v = [] /\ v_logging_reset v = true.
Proof.
  apply (dying_service_blocks (calm_world status_dying_service 5)
           any_timestamp status_dying_service [("mysql/0", "started")]
           true [] "mysql"
           {| s_life := Some "dying";
              s_units := [("mysql/0", {| t_unit := modern_unit "2.0";
                                         t_subordinates := [] |})] |}).
  - simpl. now left.
  - reflexivity.
Defined.

(** X8 at work: a legacy unit whose log tail is the cached line and
    which answers that it is the leader. *)
Lemma ready_verdict_sound_witness :
  (forall sname service,
     In (sname, service) (services status_started) ->
     is_dying (s_life service) = false) /\
  (forall u a,
     In (u, a) (agent_status (collect status_started)) ->
     current a = "idle") /\
  (forall u unit,
     In (u, unit) (ready_units (collect status_started)) ->
     is_dying (u_life unit) = false /\
     u_agent_state unit = Some "started" /\
     exists line,
       In (EvLogTail u (Ret line))
          [EvIsLeader "mysql/0" (Ret (JBool true));
           EvLogTail "mysql/0" (Ret "started")] /\
       dict_get [("mysql/0", "started")] u = Some line) /\
  (forall u version,
     In (u, version) (agent_version (collect status_started)) ->
     exists u' v',
       In (u', Some v') (agent_version (collect status_started)) /\
       service_of u' = service_of u /\
       (LooseVersion.ge v' "1.23" = Ret true \/
        In (EvIsLeader u' (Ret (JBool true)))
           [EvIsLeader "mysql/0" (Ret (JBool true));
            EvLogTail "mysql/0" (Ret "started")])).
Proof.
  apply (ready_verdict_sound (elected_world status_started 5) any_timestamp
           status_started [("mysql/0", "started")] true []
           {| v_ready := true; v_all_units := ["mysql/0"];
              v_logs := [("mysql/0", "started")];
              v_logging_reset := true |}).
  - vm_compute. reflexivity.
  - reflexivity.
Defined.

(** ** The units of a document, filed *)

Lemma collect_flat_version_In (us : list (string * Unit)) (c : Collected)
  (item : string * option string) :
  In item (agent_version (collect_flat c us)) ->
  In item (agent_version c) \/
  exists unit, In (fst item, unit) us /\ snd item = u_agent_version unit.
Proof.
  revert c. induction us as [|[u unit] us IH]; intros c H; simpl in *.
  - now left.
  - destruct (IH _ H) as [Hc|(unit' & Hin & Hv)].
    + assert (Hc' : In item (dict_set (agent_version c) u
                                       (u_agent_version unit))).
      { unfold collect_agent in Hc. now destruct (u_agent_status unit). }
      apply In_dict_set in Hc'. destruct Hc' as [->|Hc']; [|now left].
      right. exists unit. split; [now left|reflexivity].
    + right. exists unit'. split; [now right|exact Hv].
Qed.

Lemma collect_flat_status_In (us : list (string * Unit)) (c : Collected)
  (item : string * AgentStatus) :
  In item (agent_status (collect_flat c us)) ->
  In item (agent_status c) \/
  exists unit, In (fst item, unit) us /\ u_agent_status unit = Some (snd item).
Proof.
  revert c. induction us as [|[u unit] us IH]; intros c H; simpl in *.
  - now left.
  - destruct (IH _ H) as [Hc|(unit' & Hin & Hv)].
    + unfold collect_agent in Hc.
      destruct (u_agent_status unit) as [a|] eqn:E; simpl in Hc;
        [|now left].
      apply In_dict_set in Hc. destruct Hc as [->|Hc]; [|now left].
      right. exists unit. split; [now left|exact E].
    + right. exists unit'. split; [now right|exact Hv].
Qed.

Lemma collect_flat_keys_iff (us : list (string * Unit)) (c : Collected)
  (u : string) :
  (In u (keys (agent_version (collect_flat c us))) <->
   In u (keys (agent_version c)) \/ In u (keys us)) /\
  (In u (keys (agent_status (collect_flat c us))) \/
   In u (keys (ready_units (collect_flat c us))) <->
   (In u (keys (agent_status c)) \/ In u (keys (ready_units c))) \/
   In u (keys us)).
Proof.
  revert c. induction us as [|[u' unit'] us IH]; intro c; simpl.
  - tauto.
  - destruct (IH (collect_agent u' unit' c)) as (IHv & IHs).
    rewrite IHv, IHs. unfold collect_agent.
    destruct (u_agent_status unit'); simpl; rewrite !keys_dict_set;
      split; intuition.
Qed.

Lemma NoDup_keys_functional {V : Type} (d : dict V) (k : string) (v v' : V) :
  NoDup (keys d) -> In (k, v) d -> In (k, v') d -> v = v'.
Proof.
  intros Hnd H H'. apply (In_dict_get d k v Hnd) in H.
  apply (In_dict_get d k v' Hnd) in H'. congruence.
Qed.

(** X9: every unit and subordinate of the document has an entry in
    [agent_version], and is filed as modern ([agent_status]) or as legacy
    ([ready_units]); the entries come from the document; and when the
    unit names are distinct no unit is filed as both. *)
Theorem collect_files_every_unit (status : Status) (u : string) :
  (In u (keys (agent_version (collect status))) <->
   In u (keys (units_of status))) /\
  (In u (keys (agent_status (collect status))) \/
   In u (keys (ready_units (collect status))) <->
   In u (keys (units_of status))) /\
  (forall a,
     In (u, a) (agent_status (collect status)) ->
     exists unit,
       In (u, unit) (units_of status) /\ u_agent_status unit = Some a) /\
  (forall unit,
     In (u, unit) (ready_units (collect status)) ->
     In (u, unit) (units_of status) /\ u_agent_status unit = None) /\
  (NoDup (keys (units_of status)) ->
   ~ (In u (keys (agent_status (collect status))) /\
      In u (keys (ready_units (collect status))))).
Proof.
  assert (Hstatus : forall a,
            In (u, a) (agent_status (collect status)) ->
            exists unit,
              In (u, unit) (units_of status) /\
              u_agent_status unit = Some a).
  { intros a Hin. destruct (collect_is_flat status) as (_ & Hs & _).
    rewrite Hs in Hin. apply collect_flat_status_In in Hin.
    destruct Hin as [[]|H]. exact H. }
  destruct (collect_is_flat status) as (Hr & Hs & Hv).
  destruct (collect_flat_keys_iff (units_of status) no_units u)
    as (Hkv & Hks).
  repeat split.
  - rewrite Hv, Hkv. simpl. tauto.
  - rewrite Hv, Hkv. simpl. tauto.
  - rewrite Hs, Hr, Hks. simpl. tauto.
  - rewrite Hs, Hr, Hks. simpl. tauto.
  - exact Hstatus.
  - now apply (ready_units_legacy status (u, unit)).
  - now apply (ready_units_legacy status (u, unit)).
  - intros Hnd (Ha & Hl). unfold keys in Ha, Hl.
    apply in_map_iff in Ha. destruct Ha as ([u1 a] & Hu1 & Ha).
    apply in_map_iff in Hl. destruct Hl as ([u2 unit] & Hu2 & Hl).
    simpl in Hu1, Hu2. subst u1 u2.
    destruct (Hstatus a Ha) as (unit' & Hin' & Hsome).
    destruct (ready_units_legacy status (u, unit) Hl) as (Hin & Hnone).
    simpl in Hnone.
    rewrite (NoDup_keys_functional _ u unit unit' Hnd Hin Hin') in Hnone.
    congruence.
Qed.

(** ** Commands a run never issues *)

Section Never.

Variable W : World.
Variable strptime : string -> option Z.

(** What holds of the events of every evaluation, and of a poll, a clock
    reading and a sleep, holds of the events of a run. *)
Lemma wait_loop_events (P : event -> Prop) :
  (forall r, P (EvStatus r)) ->
  (forall t, P (EvUtcNow t)) ->
  (forall s, P (EvSleep s)) ->
  (forall h status prev lr,
     juju_status W h = Ret status ->
     Forall P (snd (evaluate W strptime status prev lr
                             (EvStatus (Ret status) :: h)))) ->
  forall fuel st h, Forall P (snd (wait_loop W strptime fuel st h)).
Proof.
  intros Hstatus Hnow Hsleep Heval.
  assert (Hcycle : forall st h, Forall P (snd (cycle W strptime st h))).
  { intros st h. rewrite cycle_eq, observe_eq.
    destruct (juju_status W h) as [status|e] eqn:Es;
      [|repeat constructor; apply Hstatus].
    specialize (Heval h status (prev_logs st) (logging_reset st) Es).
    destruct (evaluate W strptime status (prev_logs st) (logging_reset st)
                       (EvStatus (Ret status) :: h)) as [[v|e] evv];
      simpl in Heval; cbv beta iota zeta delta [fst snd].
    - assert (Ho : Forall P (evv ++ [EvStatus (Ret status)])).
      { apply Forall_app. split; [exact Heval|].
        repeat constructor. apply Hstatus. }
      destruct (v_ready v).
      + destruct (ready_since st) as [t|].
        * destruct (t + IDLE_CONFIRMATION
                    <? clock W ((evv ++ [EvStatus (Ret status)]) ++ h))%Z;
            simpl; repeat constructor; auto.
        * simpl. repeat constructor; auto.
      + simpl. repeat constructor; auto.
    - apply Forall_app. split; [exact Heval|].
      repeat constructor. apply Hstatus. }
  induction fuel as [|fuel IH]; intros st h; cbn [wait_loop].
  - constructor.
  - specialize (Hcycle st h).
    destruct (cycle W strptime st h) as [[[t units|st']|e] ev];
      simpl in *; trivial.
    specialize (IH st' (ev ++ h)).
    destruct (wait_loop W strptime fuel st' (ev ++ h)) as [o ev'].
    simpl in *. apply Forall_app. now split.
Qed.

Lemma modern_has_no_legacy (status : Status) :
  all_modern status -> ready_units (collect status) = [].
Proof.
  intro Hm. destruct (ready_units (collect status)) as [|[u unit] rest] eqn:E;
    [reflexivity|].
  exfalso. assert (Hin : In (u, unit) (ready_units (collect status)))
    by (rewrite E; now left).
  apply ready_units_legacy in Hin. destruct Hin as (Hin & Hnone).
  now apply (Hm u unit Hin).
Qed.

Lemma evaluate_modern_quiet (status : Status) (prev : dict string)
  (lr : bool) (h : trace) :
  all_modern status ->
  Forall is_quiet (snd (evaluate W strptime status prev lr h)).
Proof.
  intro Hm. unfold evaluate. rewrite (modern_has_no_legacy status Hm).
  apply bind_events.
  { rewrite check_agent_events. constructor. }
  intros ready h1. apply bind_events; [constructor|].
  intros l h2. apply bind_events; [|intros; constructor].
  destruct (l_ready l); [|constructor].
  eapply Forall_impl; [|apply check_leaders_events].
  apply leader_query_quiet.
Qed.

(** X10: as long as every status document reports an agent-status for
    every unit and subordinate, a run never resets the logging
    configuration and never fetches a log tail. *)
Theorem modern_units_never_sniffed :
  (forall h status, juju_status W h = Ret status -> all_modern status) ->
  forall fuel,
    resets (snd (wait W strptime fuel)) = 0 /\
    sniffs (snd (wait W strptime fuel)) = 0.
Proof.
  intros Hm fuel. apply quiet_untouched. unfold wait.
  apply wait_loop_events; try (intro; now split).
  intros h status prev lr Hs. apply evaluate_modern_quiet. now apply (Hm h).
Qed.

Lemma evaluate_recent_no_query (status : Status) (prev : dict string)
  (lr : bool) (h : trace) :
  all_recent status ->
  Forall (fun e => ~ is_leader_query e)
         (snd (evaluate W strptime status prev lr h)).
Proof.
  intro Hrecent. unfold evaluate. apply bind_events.
  { rewrite check_agent_events. constructor. }
  intros ready h1. apply bind_events.
  { apply for_each_events. intros item l h2. apply sniff_events_no_query. }
  intros l h2. apply bind_events; [|intros; constructor].
  destruct (l_ready l); [|constructor].
  unfold check_leaders. apply bind_events; [|intros; constructor].
  destruct (for_each (leader_step W) (agent_version (collect status))
                     ([], []) h2) as [r ev] eqn:El. simpl.
  destruct (leader_loop_spec W _ _ _ _ _ _ El) as (Hq & _).
  apply Forall_forall. intros e Hin (u & a & ->).
  destruct (Hq u a Hin) as (v & Hv & _ & Hge).
  destruct (collect_is_flat status) as (_ & _ & Hflat).
  rewrite Hflat in Hv. apply collect_flat_version_In in Hv.
  destruct Hv as [[]|(unit & Hunit & Hver)]. simpl in Hunit, Hver.
  rewrite (Hrecent u unit v Hunit (eq_sym Hver)) in Hge. discriminate.
Qed.

(** X11: as long as every agent-version that the status documents
    report is at least 1.23, a run never asks a unit whether it is the
    leader. *)
Theorem recent_agents_never_asked :
  (forall h status, juju_status W h = Ret status -> all_recent status) ->
  forall fuel u a, ~ In (EvIsLeader u a) (snd (wait W strptime fuel)).
Proof.
  intros Hrecent fuel u a Hin.
  assert (H : Forall (fun e => ~ is_leader_query e)
                     (snd (wait W strptime fuel))).
  { unfold wait. apply wait_loop_events;
      try (intros ? (u' & a' & Hq); discriminate).
    intros h status prev lr Hs. apply evaluate_recent_no_query.
    now apply (Hrecent h). }
  rewrite Forall_forall in H. apply (H _ Hin). now exists u, a.
Qed.

End Never.

(** X10 and X11 at work: a unit and its subordinate, both idle on
    Juju 2.0. *)
Lemma modern_units_never_sniffed_witness :
  resets (snd (wait (calm_world status_with_subordinate 5)
                    any_timestamp 5)) = 0 /\
  sniffs (snd (wait (calm_world status_with_subordinate 5)
                    any_timestamp 5)) = 0.
Proof.
  apply (modern_units_never_sniffed (calm_world status_with_subordinate 5)
           any_timestamp).
  intros h status [= <-] u unit [[= <- <-]|[[= <- <-]|[]]]; discriminate.
Defined.

Lemma recent_agents_never_asked_witness :
  ~ In (EvIsLeader "mysql/0" (Ret (JBool false)))
       (snd (wait (calm_world status_with_subordinate 5) any_timestamp 5)).
Proof.
  apply (recent_agents_never_asked (calm_world status_with_subordinate 5)
           any_timestamp).
  intros h status [= <-] u unit v [[= <- <-]|[[= <- <-]|[]]] [= <-];
    reflexivity.
Defined.

(** ** Why a cycle aborts *)

Lemma command_failed_app (e : exn) (ev ev' : trace) :
  command_failed e ev -> command_failed e (ev ++ ev').
Proof.
  intros (rest & [->|[(u & ->)|(u & ->)]]); exists (rest ++ ev'); simpl;
    [now left|right; left; now exists u|right; right; now exists u].
Qed.

Section Abort.

Variable W : World.
Variable strptime : string -> option Z.

Lemma check_agent_loop_raise (items : list (string * AgentStatus)) :
  forall ready h e ev,
    for_each (check_agent strptime) items ready h = (Raise e, ev) ->
    e = ValueError /\ ev = [] /\
    exists u a, In (u, a) items /\ strptime (since a) = None.
Proof.
  induction items as [|[u a] items IH]; intros ready h e ev H;
    [discriminate|].
  cbn [for_each] in H.
  pose proof (check_agent_step strptime (u, a) ready h) as Hs. simpl in Hs.
  destruct (strptime (since a)) as [t|] eqn:Et.
  - rewrite (bind_ret_nil _ _ _ _ Hs) in H.
    destruct (IH _ _ _ _ H) as (He & Hev & u' & a' & Hin & Hn).
    repeat split; trivial. exists u', a'. split; [now right|exact Hn].
  - rewrite (bind_raise _ _ _ _ _ Hs) in H. injection H as <- <-.
    repeat split. exists u, a. split; [now left|exact Et].
Qed.

Lemma sniff_loop_raise (prev : dict string) (items : list (string * Unit)) :
  forall l h e ev,
    for_each (sniff W prev) items l h = (Raise e, ev) ->
    (e = JujuWaitException 1 /\
     exists u unit,
       In (u, unit) items /\ is_dying (u_life unit) = false /\
       u_agent_state unit = Some "error") \/
    command_failed e ev.
Proof.
  induction items as [|[u0 unit0] items IH]; intros l h e ev H;
    [discriminate|].
  cbn [for_each] in H. apply bind_inv in H.
  destruct H as [(e' & Hs & [= <-])|(l1 & ev1 & ev2 & Hs & Hrest & ->)].
  - apply sniff_inv in Hs. inversion Hs; subst.
    + left. split; [reflexivity|]. exists u0, unit0. repeat split; trivial.
      now left.
    + right. exists []. now left.
    + right. exists (reset_due l). right. left. now exists u0.
  - destruct (IH _ _ _ _ Hrest) as [(He & u & unit & Hin & Hd & Hst)|Hf].
    + left. split; [exact He|]. exists u, unit. repeat split; trivial.
      now right.
    + right. now apply command_failed_app.
Qed.

Lemma leader_loop_raise (items : list (string * option string)) :
  forall acc h e ev,
    for_each (leader_step W) items acc h = (Raise e, ev) ->
    (e = TypeError /\
     exists u v,
       In (u, Some v) items /\ LooseVersion.ge v "1.23" = Raise TypeError) \/
    command_failed e ev.
Proof.
  induction items as [|[uname version] items IH];
    intros [services leaders] h e ev H; [discriminate|].
  cbn [for_each] in H. apply bind_inv in H.
  pose proof (leader_cases W uname version services leaders h) as Hc.
  destruct H as [(e' & Hs & [= <-])|(acc1 & ev1 & ev2 & Hs & Hrest & ->)];
    rewrite Hs in Hc; simpl in Hc.
  - inversion Hc; subst.
    + left.
      match goal with
      | H : LooseVersion.ge _ _ = Raise _ |- _ =>
          pose proof (ge_raises_TypeError _ _ _ H) as He; subst;
          split; [reflexivity|]; exists uname; eexists;
          split; [now left|exact H]
      end.
    + right. exists []. right. right. now exists uname.
  - destruct (IH _ _ _ _ Hrest) as [(He & u & v & Hin & Hge)|Hf].
    + left. split; [exact He|]. exists u, v. split; [now right|exact Hge].
    + right. now apply command_failed_app.
Qed.

(** Once the status is fetched, a cycle that raises instead of yielding
    a verdict does so on a timestamp that does not parse, on a legacy unit
    in error, on a version that cannot be compared, or on a command that
    failed. *)
Lemma evaluate_raise_cases (status : Status) (prev : dict string)
  (lr : bool) (h : trace) (e : exn) (ev : trace) :
  evaluate W strptime status prev lr h = (Raise e, ev) ->
  (e = ValueError /\ ev = [] /\
   exists u a,
     In (u, a) (agent_status (collect status)) /\
     strptime (since a) = None) \/
  (e = JujuWaitException 1 /\
   exists u unit,
     In (u, unit) (ready_units (collect status)) /\
     is_dying (u_life unit) = false /\
     u_agent_state unit = Some "error") \/
  (e = TypeError /\
   exists u v,
     In (u, Some v) (agent_version (collect status)) /\
     LooseVersion.ge v "1.23" = Raise TypeError) \/
  command_failed e ev.
Proof.
  intro H. unfold evaluate in H. apply bind_inv in H.
  destruct H as [(e' & Hl & [= <-])|(ready & ev0 & ev1 & Hl & H & ->)].
  - apply check_agent_loop_raise in Hl.
    destruct Hl as (-> & -> & u & a & Hin & Hn). left.
    repeat split. exists u, a. split; [|exact Hn].
    exact (proj1 (sorted_items_In _ _) Hin).
  - assert (Hev0 : ev0 = []).
    { pose proof (check_agent_events strptime
                    (sorted_items (agent_status (collect status)))
                    (services_alive status) h) as He0.
      now rewrite Hl in He0. }
    subst ev0. rewrite app_nil_r. simpl app in H.
    apply bind_inv in H.
    destruct H as [(e' & Hs & [= <-])|(l & evs & ev2 & Hs & H & ->)].
    + apply sniff_loop_raise in Hs.
      destruct Hs as [(-> & u & unit & Hin & Hd & Hst)|Hf].
      * right. left. split; [reflexivity|]. exists u, unit.
        repeat split; trivial. exact (proj1 (sorted_items_In _ _) Hin).
      * right. right. right. exact Hf.
    + apply bind_inv in H.
      destruct H as [(e' & Hc & [= <-])|(r' & eva & evb & _ & Hret & _)];
        [|discriminate].
      destruct (l_ready l); [|discriminate].
      unfold check_leaders in Hc. apply bind_inv in Hc.
      destruct Hc as [(e'' & Hloop & [= <-])|(acc & eva & evb & _ & Hret & _)];
        [|discriminate].
      apply leader_loop_raise in Hloop.
      destruct Hloop as [(-> & u & v & Hin & Hge)|Hf].
      * right. right. left. split; [reflexivity|]. now exists u, v.
      * right. right. right. now apply command_failed_app.
Qed.

Lemma wait_loop_raise_causes (fuel : nat) :
  forall st h code,
    fst (wait_loop W strptime fuel st h) = Raised (JujuWaitException code) ->
    (code = 1%Z /\
     exists n st' h' status u unit,
       n < fuel /\ run W strptime n st h = Some (st', h') /\
       juju_status W h' = Ret status /\
       In (u, unit) (units_of status) /\
       u_agent_status unit = None /\
       is_dying (u_life unit) = false /\
       u_agent_state unit = Some "error") \/
    (exists rest,
        snd (wait_loop W strptime fuel st h)
        = EvStatus (Raise (JujuWaitException code)) :: rest) \/
    command_failed (JujuWaitException code)
                   (snd (wait_loop W strptime fuel st h)).
Proof.
  induction fuel as [|fuel IH]; intros st h code; cbn [wait_loop];
    [discriminate|].
  destruct (cycle W strptime st h) as [[[t units|st']|e] ev] eqn:Ec.
  - discriminate.
  - specialize (IH st' (ev ++ h) code).
    destruct (wait_loop W strptime fuel st' (ev ++ h)) as [o ev'].
    cbn [fst snd] in *. intro Ho.
    destruct (IH Ho) as [(Hc & n & st1 & h1 & status & u & unit & Hn & Hrun
                          & H)
                        |[(rest & ->)|H]].
    + left. split; [exact Hc|].
      exists (S n), st1, h1, status, u, unit.
      repeat split; try apply H; [lia|].
      cbn [run]. now rewrite Ec.
    + right. left. now exists (rest ++ ev).
    + right. right. now apply command_failed_app.
  - cbn [fst snd]. intros [= ->].
    rewrite cycle_eq, observe_eq in Ec.
    destruct (juju_status W h) as [status|e] eqn:Es.
    + destruct (evaluate W strptime status (prev_logs st) (logging_reset st)
                         (EvStatus (Ret status) :: h))
        as [[v|e] evv] eqn:Ee; cbv beta iota zeta delta [fst snd] in Ec.
      * destruct (v_ready v); [destruct (ready_since st) as [t|]|];
          try destruct (_ <? _)%Z in Ec; discriminate.
      * injection Ec as -> <-.
        destruct (evaluate_raise_cases _ _ _ _ _ _ Ee)
          as [(Hv & _)|[(Hc & u & unit & Hin & Hd & Hst)
                       |[(Ht & _)|Hf]]]; try discriminate.
        -- injection Hc as ->. left. split; [reflexivity|].
           apply ready_units_legacy in Hin. destruct Hin as (Hin & Hl).
           exists 0, st, h, status, u, unit.
           repeat split; trivial. lia.
        -- right. right. now apply command_failed_app.
    + injection Ec as -> <-. right. left. now exists [].
Qed.

(** X12: a run of [wait] ends on [JujuWaitException] for one of two
    reasons only.  Either the status document of one of its turns showed
    a legacy unit, neither dying nor dead, in agent-state "error", and
    the code is 1; or the
    last thing the run did was a command that failed ([juju status], the
    logging reset, a log tail or a leadership query), and the exception
    is the one of that command. *)
Theorem juju_wait_exception_causes (fuel : nat) (code : Z) :
  fst (wait W strptime fuel) = Raised (JujuWaitException code) ->
  (code = 1%Z /\
   exists n st h status u unit,
     n < fuel /\ after W strptime n = Some (st, h) /\
     juju_status W h = Ret status /\
     In (u, unit) (units_of status) /\
     u_agent_status unit = None /\
     is_dying (u_life unit) = false /\
     u_agent_state unit = Some "error") \/
  (exists rest,
      snd (wait W strptime fuel)
      = EvStatus (Raise (JujuWaitException code)) :: rest) \/
  command_failed (JujuWaitException code) (snd (wait W strptime fuel)).
Proof.
  intro H. unfold wait in *.
  destruct (wait_loop_raise_causes fuel initial [] code H)
    as [(Hc & n & st & h & status & u & unit & Hn & Hrun & Hrest)
       |[Hs|Hf]].
  - left. split; [exact Hc|]. exists n, st, h, status, u, unit.
    split; [exact Hn|]. split; [exact Hrun|exact Hrest].
  - right. left. exact Hs.
  - right. right. exact Hf.
Qed.

End Abort.

(** X12 at work: the only unit is a legacy unit in error. *)
Lemma juju_wait_exception_causes_witness :
  (1%Z = 1%Z /\
   exists n st h status u unit,
     n < 1 /\
     after (calm_world status_in_error 5) any_timestamp n = Some (st, h) /\
     juju_status (calm_world status_in_error 5) h = Ret status /\
     In (u, unit) (units_of status) /\
     u_agent_status unit = None /\
     is_dying (u_life unit) = false /\
     u_agent_state unit = Some "error") \/
  (exists rest,
      snd (wait (calm_world status_in_error 5) any_timestamp 1)
      = EvStatus (Raise (JujuWaitException 1)) :: rest) \/
  command_failed (JujuWaitException 1)
                 (snd (wait (calm_world status_in_error 5) any_timestamp 1)).
Proof.
  apply (juju_wait_exception_causes (calm_world status_in_error 5)
           any_timestamp 1 1).
  vm_compute. reflexivity.
Defined.

(** ** Whose lines the cache holds *)

Section CacheScope.

Variable W : World.
Variable strptime : string -> option Z.

Lemma sniff_loop_sniffed (prev : dict string)
  (items : list (string * Unit)) :
  forall l h r ev,
    for_each (sniff W prev) items l h = (r, ev) ->
    forall u a,
      In (EvLogTail u a) ev ->
      exists unit,
        In (u, unit) items /\ is_dying (u_life unit) = false /\
        u_agent_state unit = Some "started".
Proof.
  induction items as [|[u0 unit0] items IH]; intros l h r ev H u a Hin.
  - injection H as <- <-. destruct Hin.
  - cbn [for_each] in H. apply bind_inv in H.
    assert (Hhead : forall r1 ev1,
               sniff_spec prev u0 unit0 l r1 ev1 ->
               In (EvLogTail u a) ev1 ->
               exists unit,
                 In (u, unit) ((u0, unit0) :: items) /\
                 is_dying (u_life unit) = false /\
                 u_agent_state unit = Some "started").
    { intros r1 ev1 Hs Hin1.
      inversion Hs; subst; try (now destruct Hin1);
        match goal with
        | Hr : reaches_sniffing _ _ |- _ => destruct Hr as (Hd & Hst & _)
        end;
        try (destruct Hin1 as [Hin1|[]]; discriminate);
        apply In_log_tail_reset_due in Hin1; destruct Hin1 as (-> & _);
        exists unit0; repeat split; trivial; now left. }
    destruct H as [(e & Hs & ->)|(l1 & ev1 & ev2 & Hs & Hrest & ->)].
    + apply sniff_inv in Hs. exact (Hhead _ _ Hs Hin).
    + apply sniff_inv in Hs. apply in_app_or in Hin.
      destruct Hin as [Hin|Hin]; [|exact (Hhead _ _ Hs Hin)].
      destruct (IH _ _ _ _ Hrest u a Hin) as (unit & Hi & Hd & Hst).
      exists unit. repeat split; trivial. now right.
Qed.

(** X13: the cache of log tails is rebuilt in every cycle.  After a
    cycle that goes on, every unit with a line in the cache is a unit of
    the status document that this cycle fetched, it has no agent-status
    (a legacy unit), it is neither dying nor dead and its agent-state is
    "started"; the entries of earlier cycles for other units are gone. *)
Theorem cache_holds_sniffed_units (st st' : LoopState) (h ev : trace)
  (u line : string) :
  cycle W strptime st h = (Ret (Continue st'), ev) ->
  dict_get (prev_logs st') u = Some line ->
  exists status unit,
    juju_status W h = Ret status /\
    In (u, unit) (units_of status) /\
    u_agent_status unit = None /\
    is_dying (u_life unit) = false /\
    u_agent_state unit = Some "started".
Proof.
  intros Hc Hg.
  destruct (cycle_continue_inv _ _ _ _ _ _ Hc)
    as (status & v & evv & Hst & He & Hlogs & _ & _).
  rewrite Hlogs in Hg.
  apply (proj1 (evaluate_logs _ _ _ _ _ _ _ _ He) u line) in Hg.
  apply evaluate_inv in He. cbv zeta in He.
  destruct He as (l & ev1 & ev2 & _ & Hs & Hr & -> & _).
  assert (Hev2 : Forall is_leader_query ev2).
  { destruct (l_ready l).
    - pose proof (check_leaders_events W (agent_version (collect status))
                    (ev1 ++ EvStatus (Ret status) :: h)) as Hq.
      now rewrite Hr in Hq.
    - destruct Hr as (_ & ->). constructor. }
  apply in_app_or in Hg. destruct Hg as [Hg|Hg];
    [now apply leader_query_not_log_tail in Hg|].
  destruct (sniff_loop_sniffed _ _ _ _ _ _ Hs u _ Hg)
    as (unit & Hin & Hd & Hstate).
  apply (proj1 (sorted_items_In _ _)) in Hin.
  apply ready_units_legacy in Hin. destruct Hin as (Hin & Hl).
  exists status, unit. now repeat split.
Qed.

End CacheScope.

(** X13 at work: the first turn caches the line of "mysql/0". *)
Lemma cache_holds_sniffed_units_witness :
  exists status unit,
    juju_status (elected_world status_started 5) [] = Ret status /\
    In ("mysql/0", unit) (units_of status) /\
    u_agent_status unit = None /\
    is_dying (u_life unit) = false /\
    u_agent_state unit = Some "started".
Proof.
  apply (cache_holds_sniffed_units (elected_world status_started 5)
           any_timestamp initial
           {| prev_logs := [("mysql/0", "started")]; ready_since := None;
              logging_reset := true |} []
           (snd (cycle (elected_world status_started 5) any_timestamp
                   initial []))
           "mysql/0" "started").
  - vm_compute. reflexivity.
  - reflexivity.
Defined.
